(** * llm-email-generator: classification, retry and batch pipeline

    A shallow embedding of [config.py], [utils/categorizer.py],
    [utils/email_generator.py], [main.py], the speaker model of
    [models.py] and the cleaning of [utils/scraper.py], and the
    properties of the classification policy, the retry wrapper, the
    e-mail parser, the batch orchestrator and the speaker records.

    Modelling conventions.
    - A Python [str] is a [string], the UTF-8 encoding of its characters.
      The operations of [Module Str] that look at letter case, at white
      space or at the number of characters are the Python methods on
      ASCII text ([Str.isascii]): there a character is a byte.  Python
      lower-cases and strips characters beyond ASCII as well (U+0130,
      U+212A and U+00A0 among them), so the numbered properties below
      take the texts concerned in ASCII, as a hypothesis, wherever what
      they conclude would otherwise differ from what Python computes.
    - An exception is the text [str(e)] it carries; a computation of the
      program is a function from a state to a result (a value or a raised
      exception) and the next state: side effects done before a raise
      are kept.
    - The completion service (the Gemini client) is a function from the
      number of requests made so far and the prompt to a reply text or
      an exception.
    - A delay is a rational number of seconds.
    - A value of Python that may be [None] is an [option]: the retry
      wrapper returns what its operation returns, or [None].
    - Calls of the logger, the two time stamps of the statistics and the
      lines of the report that depend on the wall clock are left out. *)

From Stdlib Require Import String Ascii List Bool Arith ZArith QArith Lia.
Import ListNotations.
Close Scope Q_scope.
Open Scope string_scope.
Open Scope list_scope.

(** ** Python string methods *)

Module Str.

Definition code (c : ascii) : nat := nat_of_ascii c.

Definition is_upper (c : ascii) : bool := (65 <=? code c)%nat && (code c <=? 90)%nat.
Definition is_lower (c : ascii) : bool := (97 <=? code c)%nat && (code c <=? 122)%nat.

(** [s.isascii()]: every character is below 128. *)
Fixpoint isascii (s : string) : bool :=
  match s with
  | EmptyString => true
  | String c t => (code c <? 128)%nat && isascii t
  end.

(** [c.isspace()] for an ASCII character: tab, line feed, vertical tab,
    form feed, carriage return, the four separators 28..31 and the
    space.  These are the characters that [strip] and [split] remove
    from an ASCII text. *)
Definition is_space (c : ascii) : bool :=
  ((9 <=? code c)%nat && (code c <=? 13)%nat)
  || ((28 <=? code c)%nat && (code c <=? 32)%nat).

Definition lower_char (c : ascii) : ascii :=
  if is_upper c then ascii_of_nat (code c + 32) else c.
Definition upper_char (c : ascii) : ascii :=
  if is_lower c then ascii_of_nat (code c - 32) else c.

(** [s.lower()] for an ASCII text: the letters A..Z are mapped to a..z,
    every other character is kept. *)
Fixpoint lower (s : string) : string :=
  match s with
  | EmptyString => EmptyString
  | String c t => String (lower_char c) (lower t)
  end.

(** [s.startswith(p)] *)
Fixpoint startswith (s p : string) {struct p} : bool :=
  match p, s with
  | EmptyString, _ => true
  | String _ _, EmptyString => false
  | String a p', String b s' => Ascii.eqb a b && startswith s' p'
  end.

(** [needle in s] *)
Fixpoint contains (needle s : string) : bool :=
  startswith s needle ||
  match s with
  | EmptyString => false
  | String _ t => contains needle t
  end.

(** [s.lstrip()], [s.rstrip()] and [s.strip()] for an ASCII text *)
Fixpoint lstrip (s : string) : string :=
  match s with
  | EmptyString => EmptyString
  | String c t => if is_space c then lstrip t else s
  end.

Definition is_empty (s : string) : bool :=
  match s with EmptyString => true | String _ _ => false end.

Fixpoint rstrip (s : string) : string :=
  match s with
  | EmptyString => EmptyString
  | String c t =>
      let t' := rstrip t in
      if is_space c && is_empty t' then EmptyString else String c t'
  end.

Definition strip (s : string) : string := lstrip (rstrip s).

(** [s.title()] for an ASCII text: a cased character is upper-cased when it follows an
    uncased one and lower-cased when it follows a cased one. *)
Fixpoint title_from (previous_is_cased : bool) (s : string) : string :=
  match s with
  | EmptyString => EmptyString
  | String c t =>
      if is_lower c then
        String (if previous_is_cased then c else upper_char c) (title_from true t)
      else if is_upper c then
        String (if previous_is_cased then lower_char c else c) (title_from true t)
      else String c (title_from false t)
  end.

Definition title (s : string) : string := title_from false s.

(** [s.split('\n')]: never empty, the last piece is what follows the
    last line feed. *)
Definition newline : ascii := "010"%char.

Fixpoint split_lines (s : string) : list string :=
  match s with
  | EmptyString => [EmptyString]
  | String c t =>
      if Ascii.eqb c newline then EmptyString :: split_lines t
      else match split_lines t with
           | l :: ls => String c l :: ls
           | [] => [String c EmptyString]
           end
  end.

(** [s.replace(old, '')] for a non-empty [old]: occurrences are removed
    from left to right without overlap.  [skip] counts the characters of
    the occurrence being removed that are still to be dropped. *)
Fixpoint remove_from (old : string) (skip : nat) (s : string) : string :=
  match s with
  | EmptyString => EmptyString
  | String c t =>
      match skip with
      | S k => remove_from old k t
      | O =>
          if startswith s old then remove_from old (String.length old - 1) t
          else String c (remove_from old 0 t)
      end
  end.

Definition remove_all (old s : string) : string := remove_from old 0 s.

(** Truth value of a string: [not s] is true for the empty string. *)
Definition truthy (s : string) : bool := negb (is_empty s).

(** [x in l] for a list of strings. *)
Definition mem (x : string) (l : list string) : bool :=
  existsb (String.eqb x) l.

(** [s.split()] for an ASCII text: the maximal runs of characters that
    are not white space, in order; none for an empty or blank string. *)
Definition at_word_end (s : string) : bool :=
  match s with
  | EmptyString => true
  | String c _ => is_space c
  end.

Fixpoint split (s : string) : list string :=
  match s with
  | EmptyString => []
  | String c t =>
      if is_space c then split t
      else if at_word_end t then String c EmptyString :: split t
      else match split t with
           | w :: ws => String c w :: ws
           | [] => [String c EmptyString]
           end
  end.

(** [sep.join(pieces)] *)
Definition join (sep : string) (pieces : list string) : string :=
  String.concat sep pieces.

End Str.


(** ** config.py *)

Module config.

Definition MAX_CONCURRENT : nat := 1.
Definition API_DELAY : Q := 1 # 10.
Definition MAX_RETRIES : nat := 3.

Definition RETRY_STOP_AFTER_ATTEMPT : nat := 3.
Definition RETRY_WAIT_EXPONENTIAL_MULTIPLIER : nat := 2.
Definition RETRY_WAIT_EXPONENTIAL_MAX : nat := 60.

Definition EMAIL_SUBJECT_MAX_LENGTH : nat := 100.
Definition EMAIL_BODY_MAX_LENGTH : nat := 1000.

Definition TARGET_CATEGORIES : list string := ["Builder"; "Owner"].
Definition EXCLUDED_CATEGORIES : list string := ["Competitor"; "Partner"; "Other"].

Definition COMPETITORS : list string :=
  ["Propeller"; "DJI"; "Skydio"; "Pix4D"; "Agisoft"; "RealityCapture";
   "Bentley"; "Autodesk Civil 3D"; "Topcon"; "Leica"; "Trimble";
   "Hexagon"; "Faro"; "3DR"; "Parrot"; "Yuneec"; "Autel"].

Definition PARTNERS : list string :=
  ["Autodesk"; "Procore"; "Trimble"; "Bentley"; "Oracle"; "SAP";
   "Microsoft"; "Google"; "Amazon"; "IBM"; "Salesforce"; "ServiceNow"].

Definition BUILDER_KEYWORDS : list string :=
  ["contractor"; "construction"; "builder"; "developer"; "engineering";
   "architect"; "design"; "project manager"; "superintendent"; "foreman";
   "general contractor"; "subcontractor"; "specialty contractor"].

Definition OWNER_KEYWORDS : list string :=
  ["owner"; "client"; "investor"; "developer"; "property manager";
   "facility manager"; "asset manager"; "real estate"; "investment"].

Definition MIN_NAME_LENGTH : nat := 2.
Definition MIN_TITLE_LENGTH : nat := 2.
Definition MIN_COMPANY_LENGTH : nat := 2.

End config.

(** ** Computations: state, exceptions and the trace of awaited calls *)

Inductive Result (A : Type) : Type :=
| Ok (value : A)
| Raise (error_msg : string).
Arguments Ok {A} value.
Arguments Raise {A} error_msg.

(** What a run awaits, in order: an [asyncio.sleep] written in [main.py],
    the operation handed to the retry wrapper, a request to the
    completion service, and the sleep of the [tenacity] decorator after
    the failed attempt of the given number. *)
Inductive Event : Type :=
| EvSleep (seconds : Q)
| EvCall
| EvRequest (prompt : string)
| EvBackoff (attempt_number : nat).

Abbreviation Trace := (list Event).

Definition M (W A : Type) : Type := W * Trace -> Result A * (W * Trace).

Section Monad.
Context {W : Type}.

Definition ret {A} (a : A) : M W A := fun s => (Ok a, s).

Definition bind {A B} (m : M W A) (k : A -> M W B) : M W B :=
  fun s => match m s with
           | (Ok a, s') => k a s'
           | (Raise e, s') => (Raise e, s')
           end.

Definition raise {A} (error_msg : string) : M W A := fun s => (Raise error_msg, s).

(** [try: m  except Exception as e: handler(str(e))] *)
Definition try_except {A} (m : M W A) (handler : string -> M W A) : M W A :=
  fun s => match m s with
           | (Ok a, s') => (Ok a, s')
           | (Raise e, s') => handler e s'
           end.

Definition emit (ev : Event) : M W unit :=
  fun s => (Ok tt, (fst s, snd s ++ [ev])).

Definition get : M W W := fun s => (Ok (fst s), s).
Definition modify (f : W -> W) : M W unit := fun s => (Ok tt, (f (fst s), snd s)).

(** [await asyncio.sleep(seconds)] *)
Definition sleep (seconds : Q) : M W unit := emit (EvSleep seconds).

End Monad.

Declare Scope py_scope.
Delimit Scope py_scope with py.
Notation "x <- m ;; k" := (bind m (fun x => k))
  (at level 100, m at next level, right associativity) : py_scope.
Notation "m ;; k" := (bind m (fun _ => k))
  (at level 100, right associativity) : py_scope.
Open Scope py_scope.

(** ** main.py: the retry wrapper *)

(** [range(n)] *)
Definition range (n : nat) : list nat := seq 0 n.

(** [an integer as a float factor] *)
Definition of_int (n : nat) : Q := inject_Z (Z.of_nat n).

Definition is_quota_error (error_msg : string) : bool :=
  Str.contains "429" error_msg || Str.contains "quota" (Str.lower error_msg).

Section Retry.
Context {W A : Type}.

(** The iterations of [for attempt in range(config.MAX_RETRIES)] that are
    left; [continue] is the call on the rest, falling out of the loop is
    [return None].  The value of [func] is returned as it is: it is a
    value of Python, [None] or [Some] other value, and so is the result
    of the wrapper. *)
Fixpoint retry_loop (max_retries : nat) (api_delay : Q) (func : M W (option A))
    (attempts : list nat) : M W (option A) :=
  match attempts with
  | [] => ret None
  | attempt :: rest =>
      try_except
        ((if (0 <? attempt)%nat then sleep (api_delay * of_int attempt) else ret tt) ;;
         result <- (emit EvCall ;; func) ;;
         ret result)
        (fun error_msg =>
           if is_quota_error error_msg then
             if (attempt <? max_retries - 1)%nat then
               let retry_delay := (api_delay * of_int (2 ^ attempt))%Q in
               sleep retry_delay ;;
               retry_loop max_retries api_delay func rest
             else raise error_msg
           else raise error_msg)
  end.

Definition api_call_with_retry_at (max_retries : nat) (api_delay : Q)
    (func : M W (option A)) : M W (option A) :=
  retry_loop max_retries api_delay func (range max_retries).

Definition api_call_with_retry (func : M W (option A)) : M W (option A) :=
  api_call_with_retry_at config.MAX_RETRIES config.API_DELAY func.

(** A computation whose value is never [None] (a [str], a [dict]), as a
    computation of values of Python. *)
Definition returning (m : M W A) : M W (option A) :=
  value <- m ;; ret (Some value).

(** The [tenacity] decorator [@retry(stop=stop_after_attempt(n),
    wait=wait_exponential(..), retry=retry_if_exception_type((Exception,)),
    reraise=True)]: every exception is retried after a wait, until attempt
    number [n] has failed, whose exception is raised again. *)
Fixpoint retrying (remaining attempt_number : nat) (func : M W A) : M W A :=
  try_except func
    (fun error_msg =>
       match remaining with
       | O => raise error_msg
       | S r => emit (EvBackoff attempt_number) ;; retrying r (S attempt_number) func
       end).

Definition retry_stop_after_attempt (n : nat) (func : M W A) : M W A :=
  retrying (n - 1) 1 func.

(** [wait_exponential(multiplier=.., max=..)] of [tenacity] (base 2, no
    minimum): the seconds slept after the failed attempt of the given
    number, 2 s and then 4 s with the values of [config]. *)
Definition wait_exponential (multiplier max attempt_number : nat) : Q :=
  of_int (Nat.min (multiplier * 2 ^ (attempt_number - 1)) max).

(** An operation that acts on its own state only; its value may be
    [None]. *)
Definition acting {B : Type} (op : W -> Result B * W) : M W B :=
  fun s => let (r, w) := op (fst s) in (r, (w, snd s)).

(** An operation that acts on its own state only and whose values are
    not [None]. *)
Definition operation (op : W -> Result A * W) : M W (option A) :=
  returning (acting op).

End Retry.

(** ** main.py: the run statistics *)

Record ExecutionStats : Type := {
  total_speakers_scanned : nat;
  speakers_processed : nat;
  category_counts : list (string * nat);
  api_errors : nat;
  emails_generated : nat;
  speakers_skipped : nat
}.

(** [ExecutionStats()]; the two time stamps are not modelled.  The
    dictionary keeps its insertion order, which the report follows. *)
Definition new_stats : ExecutionStats := {|
  total_speakers_scanned := 0;
  speakers_processed := 0;
  category_counts :=
    [("Builder", 0); ("Owner", 0); ("Competitor", 0); ("Partner", 0); ("Other", 0)]%nat;
  api_errors := 0;
  emails_generated := 0;
  speakers_skipped := 0
|}.

(** [key in d] and [d[key] += 1] on a dictionary of counters. *)
Definition has_key (key : string) (d : list (string * nat)) : bool :=
  existsb (fun kv => String.eqb key (fst kv)) d.

Fixpoint add_one (key : string) (d : list (string * nat)) : list (string * nat) :=
  match d with
  | [] => []
  | (k, v) :: rest =>
      if String.eqb key k then (k, S v) :: rest else (k, v) :: add_one key rest
  end.

Definition increment_category (category : string) (st : ExecutionStats) : ExecutionStats :=
  if has_key category st.(category_counts) then
    {| total_speakers_scanned := st.(total_speakers_scanned);
       speakers_processed := st.(speakers_processed);
       category_counts := add_one category st.(category_counts);
       api_errors := st.(api_errors);
       emails_generated := st.(emails_generated);
       speakers_skipped := st.(speakers_skipped) |}
  else st.

Definition increment_api_error (st : ExecutionStats) : ExecutionStats :=
  {| total_speakers_scanned := st.(total_speakers_scanned);
     speakers_processed := st.(speakers_processed);
     category_counts := st.(category_counts);
     api_errors := S st.(api_errors);
     emails_generated := st.(emails_generated);
     speakers_skipped := st.(speakers_skipped) |}.

Definition increment_processed (st : ExecutionStats) : ExecutionStats :=
  {| total_speakers_scanned := st.(total_speakers_scanned);
     speakers_processed := S st.(speakers_processed);
     category_counts := st.(category_counts);
     api_errors := st.(api_errors);
     emails_generated := st.(emails_generated);
     speakers_skipped := st.(speakers_skipped) |}.

Definition increment_emails_generated (st : ExecutionStats) : ExecutionStats :=
  {| total_speakers_scanned := st.(total_speakers_scanned);
     speakers_processed := st.(speakers_processed);
     category_counts := st.(category_counts);
     api_errors := st.(api_errors);
     emails_generated := S st.(emails_generated);
     speakers_skipped := st.(speakers_skipped) |}.

Definition increment_skipped (st : ExecutionStats) : ExecutionStats :=
  {| total_speakers_scanned := st.(total_speakers_scanned);
     speakers_processed := st.(speakers_processed);
     category_counts := st.(category_counts);
     api_errors := st.(api_errors);
     emails_generated := st.(emails_generated);
     speakers_skipped := S st.(speakers_skipped) |}.

Definition set_total_speakers_scanned (n : nat) (st : ExecutionStats) : ExecutionStats :=
  {| total_speakers_scanned := n;
     speakers_processed := st.(speakers_processed);
     category_counts := st.(category_counts);
     api_errors := st.(api_errors);
     emails_generated := st.(emails_generated);
     speakers_skipped := st.(speakers_skipped) |}.

(** ** The world of a run: the completion service and the global [stats] *)

Record World : Type := {
  requests : nat;
  stats : ExecutionStats
}.

Definition GeminiClient : Type := nat -> string -> Result string.

(** [(await gemini_client.generate_content_async(prompt)).text] *)
Definition generate_content_async (gemini_client : GeminiClient) (prompt : string)
  : M World string :=
  fun s =>
    let w := fst s in
    (gemini_client w.(requests) prompt,
     ({| requests := S w.(requests); stats := w.(stats) |},
      snd s ++ [EvRequest prompt])).

Definition update_stats (f : ExecutionStats -> ExecutionStats) : M World unit :=
  modify (fun w => {| requests := w.(requests); stats := f w.(stats) |}).

(** ** utils/categorizer.py *)

Definition COMPETITORS := config.COMPETITORS.
Definition PARTNERS := config.PARTNERS.
Definition BUILDER_KEYWORDS := config.BUILDER_KEYWORDS.
Definition OWNER_KEYWORDS := config.OWNER_KEYWORDS.

Definition _classify_by_keywords (title : string) : string :=
  let title_lower := Str.lower title in
  if existsb (fun keyword => Str.contains keyword title_lower) BUILDER_KEYWORDS then "Builder"
  else if existsb (fun keyword => Str.contains keyword title_lower) OWNER_KEYWORDS then "Owner"
  else "Other".

Definition classify_prompt (company title : string) : string :=
  "
You are a construction industry expert. Classify this company and person into one of these categories:

- Builder: Companies that build things (contractors, engineering firms, construction companies, architects, etc.)
- Owner: Companies that own/commission construction projects (real estate developers, property owners, facility managers, etc.)
- Other: Any other type of company not clearly in the above categories

Company: " ++ company ++ "
Person's Title: " ++ title ++ "

Respond with ONLY one word: Builder, Owner, or Other
".

(** The body of [_classify_with_gemini], one attempt. *)
Definition _classify_with_gemini_once (company title : string)
    (gemini_client : GeminiClient) : M World string :=
  let prompt := classify_prompt company title in
  try_except
    (response_text <- generate_content_async gemini_client prompt ;;
     let category := Str.title (Str.strip response_text) in
     if Str.mem category ["Builder"; "Owner"; "Other"] then ret category
     else ret (_classify_by_keywords title))
    (fun error_msg => raise error_msg).

Definition _classify_with_gemini (company title : string)
    (gemini_client : GeminiClient) : M World string :=
  retry_stop_after_attempt config.RETRY_STOP_AFTER_ATTEMPT
    (_classify_with_gemini_once company title gemini_client).

(** [entry.lower() in company_lower or entry.lower() in title_lower] for
    some entry of a manual list. *)
Definition in_manual_list (entries : list string) (company_lower title_lower : string) : bool :=
  existsb (fun entry =>
             Str.contains (Str.lower entry) company_lower
             || Str.contains (Str.lower entry) title_lower) entries.

Definition categorize_company (company title : string)
    (gemini_client : GeminiClient) : M World string :=
  if negb (Str.truthy company) || negb (Str.truthy title) then ret "Other"
  else
    let company_lower := Str.lower company in
    let title_lower := Str.lower title in
    if in_manual_list COMPETITORS company_lower title_lower then ret "Competitor"
    else if in_manual_list PARTNERS company_lower title_lower then ret "Partner"
    else
      try_except
        (category <- _classify_with_gemini company title gemini_client ;;
         ret category)
        (fun error_msg => ret (_classify_by_keywords title)).

Definition is_target_category (category : string) : bool :=
  Str.mem category config.TARGET_CATEGORIES.

(** ** utils/email_generator.py *)

Record Speaker : Type := {
  name : string;
  title : string;
  company : string
}.

(** The dictionary [{"subject": .., "body": ..}]. *)
Record Email : Type := {
  subject : string;
  body : string
}.

Definition _generate_fallback_email (name title company category : string) : Email :=
  if String.eqb category "Builder" then
    {| subject := "See how " ++ company ++ " can streamline construction with aerial intelligence";
       body := "Hi " ++ name ++ ", as a " ++ title ++ " at " ++ company ++ ", you know how important it is to track construction progress efficiently. DroneDeploy's aerial intelligence platform helps construction teams like yours monitor projects, ensure safety compliance, and deliver on time. Stop by our booth #42 for a personalized demo and receive a free gift!" |}
  else if String.eqb category "Owner" then
    {| subject := "Monitor your " ++ company ++ " construction investments with aerial intelligence";
       body := "Hi " ++ name ++ ", as a " ++ title ++ " at " ++ company ++ ", you understand the value of transparent project oversight. DroneDeploy provides property owners and developers with real-time aerial insights to verify progress, ensure quality, and protect your investments. Visit booth #42 for a demo and free gift!" |}
  else
    {| subject := "Discover how " ++ company ++ " can benefit from construction aerial intelligence";
       body := "Hi " ++ name ++ ", DroneDeploy's aerial intelligence platform is transforming how construction professionals manage projects and sites. As a " ++ title ++ " at " ++ company ++ ", you'll see immediate value in our progress tracking and site management capabilities. Stop by booth #42 for a demo and free gift!" |}.

(** The loop state of [_parse_email_response]. *)
Record ParseState : Type := {
  ps_subject : string;
  ps_body : string;
  current_section : option string
}.

Definition parse_line (st : ParseState) (raw_line : string) : ParseState :=
  let line := Str.strip raw_line in
  if Str.startswith line "SUBJECT:" then
    {| ps_subject := Str.strip (Str.remove_all "SUBJECT:" line);
       ps_body := st.(ps_body);
       current_section := Some "subject" |}
  else if Str.startswith line "BODY:" then
    {| ps_subject := st.(ps_subject);
       ps_body := Str.strip (Str.remove_all "BODY:" line);
       current_section := Some "body" |}
  else if match st.(current_section) with
          | Some section => String.eqb section "body"
          | None => false
          end && Str.truthy line then
    {| ps_subject := st.(ps_subject);
       ps_body := st.(ps_body) ++ " " ++ line;
       current_section := st.(current_section) |}
  else st.

Definition _parse_email_response (content : string) : string * string :=
  let lines := Str.split_lines content in
  let final :=
    fold_left parse_line lines
      {| ps_subject := ""; ps_body := ""; current_section := None |} in
  (final.(ps_subject), final.(ps_body)).

Definition email_prompt (name title company category : string) : string :=
  let role_context :=
    if String.eqb category "Builder" then
      "construction professionals who build and manage projects"
    else if String.eqb category "Owner" then
      "property owners and developers who commission construction projects"
    else "construction industry professionals" in
  let value_props :=
    if String.eqb category "Builder" then
      "aerial intelligence for construction progress tracking, site management, and project oversight"
    else if String.eqb category "Owner" then
      "aerial intelligence for project monitoring, progress verification, and asset management"
    else "aerial intelligence for construction and site management" in
  "
You are writing a personalized email to invite a construction conference speaker to visit DroneDeploy's booth #42.

Speaker Details:
- Name: " ++ name ++ "
- Title: " ++ title ++ " 
- Company: " ++ company ++ "
- Category: " ++ category ++ " (" ++ role_context ++ ")

Requirements:
1. Subject line: Create an interesting hook that would appeal to their specific role and industry
2. Email body: 2-3 sentences that:
   - Mention why DroneDeploy is relevant to their business/role
   - Invite them to booth #42 for a demo
   - Mention they'll receive a free gift
   - Keep it professional but engaging

DroneDeploy Value Props to Consider:
- " ++ value_props ++ "
- Drone-based aerial mapping and surveying
- Construction progress tracking and documentation
- Site safety and compliance monitoring
- Integration with construction management software

Format your response as:
SUBJECT: [subject line here]
BODY: [email body here]
".

(** The body of [_generate_email_content], one attempt. *)
Definition _generate_email_content_once (name title company category : string)
    (gemini_client : GeminiClient) : M World Email :=
  let prompt := email_prompt name title company category in
  try_except
    (response_text <- generate_content_async gemini_client prompt ;;
     let content := Str.strip response_text in
     let (subject, body) := _parse_email_response content in
     if Str.truthy subject && Str.truthy body then
       ret {| subject := subject; body := body |}
     else ret (_generate_fallback_email name title company category))
    (fun error_msg => raise error_msg).

Definition _generate_email_content (name title company category : string)
    (gemini_client : GeminiClient) : M World Email :=
  retry_stop_after_attempt config.RETRY_STOP_AFTER_ATTEMPT
    (_generate_email_content_once name title company category gemini_client).

Definition generate_email (speaker_data : Speaker) (category : string)
    (gemini_client : GeminiClient) : M World Email :=
  let name := speaker_data.(name) in
  let title := speaker_data.(title) in
  let company := speaker_data.(company) in
  try_except
    (email_content <- _generate_email_content name title company category gemini_client ;;
     ret email_content)
    (fun error_msg => ret (_generate_fallback_email name title company category)).

(** ** main.py: the batch *)

(** One row of the output table, in column order. *)
Record OutputRow : Type := {
  Speaker_Name : string;
  Speaker_Title : string;
  Speaker_Company : string;
  Company_Category : string;
  Email_Subject : string;
  Email_Body : string
}.

(** [not category] for what the wrapper returned: [None] or the empty
    string.  [categorize_company] returns a [str] and [generate_email] a
    [dict], never [None]: the wrapper is given them as [returning]. *)
Definition falsy_category (category : option string) : bool :=
  match category with
  | None => true
  | Some c => negb (Str.truthy c)
  end.

Definition process_speaker (gemini_client : GeminiClient) (speaker_data : Speaker)
  : M World (option OutputRow) :=
  try_except
    (sleep config.API_DELAY ;;
     category <- api_call_with_retry
                   (returning
                      (categorize_company speaker_data.(company) speaker_data.(title)
                         gemini_client)) ;;
     match category with
     | None => update_stats increment_api_error ;; ret None
     | Some category =>
         if negb (Str.truthy category) then update_stats increment_api_error ;; ret None
         else
           update_stats (increment_category category) ;;
           update_stats increment_processed ;;
           if negb (is_target_category category) then
             update_stats increment_skipped ;; ret None
           else
             email_content <- api_call_with_retry
                                (returning
                                   (generate_email speaker_data category gemini_client)) ;;
             match email_content with
             | None => update_stats increment_api_error ;; ret None
             | Some email_content =>
                 update_stats increment_emails_generated ;;
                 ret (Some {| Speaker_Name := speaker_data.(name);
                              Speaker_Title := speaker_data.(title);
                              Speaker_Company := speaker_data.(company);
                              Company_Category := category;
                              Email_Subject := email_content.(subject);
                              Email_Body := email_content.(body) |})
             end
     end)
    (fun error_msg => update_stats increment_api_error ;; ret None).

(** [await asyncio.gather] of the tasks with [return_exceptions=True], under
    [asyncio.Semaphore(config.MAX_CONCURRENT)] with a cap of one: the tasks
    take the semaphore in the order of the list and run one after the
    other; an exception of a task becomes its entry of the result list. *)
Fixpoint gather {W A : Type} (tasks : list (M W A)) : M W (list (Result A)) :=
  match tasks with
  | [] => ret []
  | task :: rest =>
      fun s =>
        let (r, s') := task s in
        match gather rest s' with
        | (Ok rs, s'') => (Ok (r :: rs), s'')
        | (Raise e, s'') => (Raise e, s'')
        end
  end.

(** [[r for r in results if r is not None and not isinstance(r, Exception)]] *)
Fixpoint valid_results_of (results : list (Result (option OutputRow))) : list OutputRow :=
  match results with
  | [] => []
  | Ok (Some row) :: rest => row :: valid_results_of rest
  | _ :: rest => valid_results_of rest
  end.

(** What [print_execution_report] shows of the statistics; the lines that
    depend on the wall clock are left out.  The success rate line is
    printed only when a speaker was processed. *)
Record Report : Type := {
  shown_scanned : nat;
  shown_processed : nat;
  shown_emails : nat;
  shown_skipped : nat;
  shown_categories : list (string * nat);
  shown_api_errors : nat;
  shown_success_rate : option Q;
  shown_no_emails_warning : bool
}.

Definition success_rate (st : ExecutionStats) : option Q :=
  if (0 <? st.(speakers_processed))%nat then
    Some (((inject_Z (Z.of_nat st.(speakers_processed))
            - inject_Z (Z.of_nat st.(api_errors)))
           / inject_Z (Z.of_nat st.(speakers_processed))) * 100)%Q
  else None.

Definition print_execution_report : M World Report :=
  w <- get ;;
  let st := w.(stats) in
  ret {| shown_scanned := st.(total_speakers_scanned);
         shown_processed := st.(speakers_processed);
         shown_emails := st.(emails_generated);
         shown_skipped := st.(speakers_skipped);
         shown_categories := filter (fun kv => (0 <? snd kv)%nat) st.(category_counts);
         shown_api_errors := st.(api_errors);
         shown_success_rate := success_rate st;
         shown_no_emails_warning := negb (0 <? st.(emails_generated))%nat |}.

(** What a run leaves behind: the rows collected for the output file (the
    file is written only when there is a row) and the report, if printed. *)
Record Outcome : Type := {
  valid_results : list OutputRow;
  saved_csv : option (list OutputRow);
  report : option Report
}.

Definition truthy_key (api_key : option string) : bool :=
  match api_key with
  | None => false
  | Some k => Str.truthy k
  end.

(** [main()], given the value of [config.GOOGLE_API_KEY], the list that
    [fetch_speakers] returned and the client. *)
Definition main (api_key : option string) (speakers : list Speaker)
    (gemini_client : GeminiClient) : M World Outcome :=
  if negb (truthy_key api_key) then
    ret {| valid_results := []; saved_csv := None; report := None |}
  else
    update_stats (set_total_speakers_scanned (List.length speakers)) ;;
    match speakers with
    | [] => ret {| valid_results := []; saved_csv := None; report := None |}
    | _ :: _ =>
        let test_speakers := firstn 5 speakers in
        let tasks := map (process_speaker gemini_client) test_speakers in
        results <- gather tasks ;;
        let valid_results := valid_results_of results in
        let saved := match valid_results with [] => None | _ :: _ => Some valid_results end in
        shown <- print_execution_report ;;
        ret {| valid_results := valid_results; saved_csv := saved; report := Some shown |}
    end.

(** A run of the program: a fresh world, an empty trace. *)
Definition initial_world : World := {| requests := 0; stats := new_stats |}.

Definition run (api_key : option string) (speakers : list Speaker)
    (gemini_client : GeminiClient) : Result Outcome * (World * Trace) :=
  main api_key speakers gemini_client (initial_world, []).

(** ** models.py: the speaker model *)

(** The three validators of [Speaker], on the value of their field. *)
Definition validate_name (v : string) : Result string :=
  if negb (Str.truthy v) || negb (Str.truthy (Str.strip v)) then
    Raise "Name cannot be empty"
  else
    let v := Str.join " " (Str.split v) in
    if (String.length v <? 2)%nat then Raise "Name too short"
    else Ok (Str.strip v).

Definition validate_title (v : string) : Result string :=
  if negb (Str.truthy v) || negb (Str.truthy (Str.strip v)) then
    Raise "Title cannot be empty"
  else
    let v := Str.join " " (Str.split v) in
    Ok (Str.strip v).

Definition validate_company (v : string) : Result string :=
  if negb (Str.truthy v) || negb (Str.truthy (Str.strip v)) then
    Raise "Company cannot be empty"
  else
    let v := Str.join " " (Str.split v) in
    Ok (Str.strip v).

(** A string field declared with [Field(..., min_length=.., max_length=..)]
    and a [field_validator]: pydantic checks the two lengths on the value
    it is given and then runs the validator on it.  The error is the
    error type of pydantic for a length, the text of the [ValueError] for
    a validator.  The lengths, here and in [validate_name], are numbers
    of characters: [String.length] for an ASCII value. *)
Definition str_field (min_length max_length : nat) (validator : string -> Result string)
    (v : string) : Result string :=
  if (String.length v <? min_length)%nat then Raise "string_too_short"
  else if (max_length <? String.length v)%nat then Raise "string_too_long"
  else validator v.

(** The outcome of building a model: the model, or the errors of its
    fields in the order of the fields. *)
Inductive Validated (A : Type) : Type :=
| Valid (model : A)
| Invalid (errors : list (string * string)).
Arguments Valid {A} model.
Arguments Invalid {A} errors.

Definition field_errors (fields : list (string * Result string)) : list (string * string) :=
  flat_map (fun field => match snd field with
                         | Ok _ => []
                         | Raise e => [(fst field, e)]
                         end) fields.

(** [Speaker(name=.., title=.., company=..)] *)
Definition Speaker_model (name title company : string) : Validated Speaker :=
  let checked_name := str_field config.MIN_NAME_LENGTH 100 validate_name name in
  let checked_title := str_field config.MIN_TITLE_LENGTH 200 validate_title title in
  let checked_company := str_field config.MIN_COMPANY_LENGTH 100 validate_company company in
  match checked_name, checked_title, checked_company with
  | Ok name', Ok title', Ok company' =>
      Valid {| name := name'; title := title'; company := company' |}
  | _, _, _ =>
      Invalid (field_errors [("name", checked_name); ("title", checked_title);
                             ("company", checked_company)])
  end.

(** ** utils/scraper.py: cleaning and keeping the extracted speakers *)

Definition _clean_text (text : string) : string :=
  if negb (Str.truthy text) then ""
  else
    let text := Str.join " " (Str.split text) in
    let text := Str.strip (Str.remove_all "Name:" (Str.remove_all "Speaker:" text)) in
    text.

(** [_extract_speaker_data], given the three texts that the selectors
    found in the element (the empty string for a field not found). *)
Definition _extract_speaker_data (found : string * string * string) : Speaker :=
  let '(found_name, found_title, found_company) := found in
  {| name := _clean_text found_name;
     title := _clean_text found_title;
     company := _clean_text found_company |}.

(** The loop of [_parse_speakers_html] over the texts found in the
    speaker elements: a record is kept, as extracted, when its three
    values are not empty and the [Speaker] model accepts them. *)
Fixpoint keep_speakers (found : list (string * string * string)) : list Speaker :=
  match found with
  | [] => []
  | element :: rest =>
      let speaker_data := _extract_speaker_data element in
      if Str.truthy speaker_data.(name) && Str.truthy speaker_data.(title)
         && Str.truthy speaker_data.(company) then
        match Speaker_model speaker_data.(name) speaker_data.(title)
                speaker_data.(company) with
        | Valid _ => speaker_data :: keep_speakers rest
        | Invalid _ => keep_speakers rest
        end
      else keep_speakers rest
  end.

(** * Vocabulary of the properties *)

(** [s] contains [entry] when letter case is ignored, the test of the
    manual lists. *)
Definition contains_ci (entry s : string) : Prop :=
  Str.contains (Str.lower entry) (Str.lower s) = true.

(** The completion service raises at every request. *)
Definition all_requests_fail (gemini_client : GeminiClient) : Prop :=
  forall k prompt, exists e, gemini_client k prompt = Raise e.

(** The five category values. *)
Definition five_categories : list string :=
  ["Builder"; "Owner"; "Competitor"; "Partner"; "Other"].

(** Neither the company nor the title holds an entry of a manual list. *)
Definition no_manual_match (company title : string) : Prop :=
  forall entry, In entry COMPETITORS \/ In entry PARTNERS ->
                ~ contains_ci entry company /\ ~ contains_ci entry title.

(** The number of times the wrapper awaited its operation. *)
Fixpoint calls (t : Trace) : nat :=
  match t with
  | [] => 0
  | EvCall :: rest => S (calls rest)
  | _ :: rest => calls rest
  end.

(** The sleeps awaited before each call of the operation, call by call;
    [pending] holds the sleeps seen since the last call. *)
Fixpoint sleeps_before_calls (t : Trace) (pending : list Q) : list (list Q) :=
  match t with
  | [] => []
  | EvSleep seconds :: rest => sleeps_before_calls rest (pending ++ [seconds])
  | EvCall :: rest => pending :: sleeps_before_calls rest []
  | _ :: rest => sleeps_before_calls rest pending
  end.

(** The two sleeps between failed attempt [k] and the next attempt: the
    backoff of the handler, then the delay at the head of the loop body. *)
Definition retry_sleeps (api_delay : Q) (k : nat) : list Q :=
  [(api_delay * of_int (2 ^ k))%Q; (api_delay * of_int (S k))%Q].

(** The time spent in a list of sleeps. *)
Definition total (sleeps : list Q) : Q := fold_right Qplus 0%Q sleeps.

(** The sleep at the head of the loop body, awaited from attempt 1 on. *)
Definition head_sleep (api_delay : Q) (attempt : nat) : Trace :=
  if (0 <? attempt)%nat then [EvSleep (api_delay * of_int attempt)] else [].

(** The operations of the tests of the wrapper, with their call counter
    as state: [test_api_call_with_retry_quota_error_success]. *)
Definition quota_once (call_count : nat) : Result string * nat :=
  (if (call_count =? 0)%nat then Raise "429 You exceeded your current quota"
   else Ok "success",
   S call_count).

(** [test_api_call_with_retry_max_retries_exceeded] *)
Definition quota_always (call_count : nat) : Result string * nat :=
  (Raise "429 You exceeded your current quota", S call_count).

(** [test_api_call_with_retry_non_quota_error] *)
Definition server_error (call_count : nat) : Result string * nat :=
  (Raise "500 Internal Server Error", S call_count).

(** [d.get(key, 0)] on a dictionary of counters. *)
Fixpoint count_of (key : string) (d : list (string * nat)) : nat :=
  match d with
  | [] => 0
  | (k, v) :: rest => if String.eqb key k then v else count_of key rest
  end.

(** The sum of the five per-category counts. *)
Definition category_total (st : ExecutionStats) : nat :=
  count_of "Builder" st.(category_counts)
  + count_of "Owner" st.(category_counts)
  + count_of "Competitor" st.(category_counts)
  + count_of "Partner" st.(category_counts)
  + count_of "Other" st.(category_counts).

(** The dictionary has its five keys, in the order of [ExecutionStats()]. *)
Definition five_keys (st : ExecutionStats) : Prop :=
  map fst st.(category_counts) = five_categories.

(** The statistics held by a state. *)
Definition stats_of (s : World * Trace) : ExecutionStats := (fst s).(stats).

(** A computation that leaves the statistics alone. *)
Definition keeps_stats {A : Type} (m : M World A) : Prop :=
  forall s r s', m s = (r, s') -> stats_of s' = stats_of s.

(** The statistics after one record: the processed counter and exactly
    one category counter have moved by one, the e-mail counter has moved
    by one exactly when a row is returned. *)
Definition record_step (st st' : ExecutionStats) (result : option OutputRow) : Prop :=
  five_keys st' /\
  st'.(speakers_processed) = S st.(speakers_processed) /\
  category_total st' = S (category_total st) /\
  st'.(total_speakers_scanned) = st.(total_speakers_scanned) /\
  st'.(emails_generated) =
    st.(emails_generated) + match result with Some _ => 1 | None => 0 end.

(** Six valid speaker records. *)
Definition six_speakers : list Speaker :=
  [ {| name := "John Smith"; title := "Project Manager"; company := "ABC Construction" |};
    {| name := "Jane Doe"; title := "Site Superintendent"; company := "XYZ Engineering" |};
    {| name := "Ann Lee"; title := "Architect"; company := "Lee Studio" |};
    {| name := "Raj Patel"; title := "Asset Manager"; company := "Harbor Estates" |};
    {| name := "Eva Novak"; title := "Property Owner"; company := "Novak Holdings" |};
    {| name := "Omar Aziz"; title := "General Contractor"; company := "Aziz Build" |} ].

(** A completion service that answers Builder to the first request and
    then a well-formed reply whose subject line has 110 characters. *)
Definition long_subject_client : GeminiClient :=
  fun k prompt =>
    match k with
    | O => Ok "Builder"
    | S _ => Ok "SUBJECT: See how aerial intelligence from DroneDeploy keeps every ABC Construction project on schedule and under budget
BODY: Visit booth #42 for a demo and a free gift."
    end.

(** [x] occurs in [s]. *)
Definition occurs_in (x s : string) : Prop := exists a b, s = (a ++ x ++ b)%string.

(** The one-character string of a line feed. *)
Definition LF : string := String Str.newline EmptyString.

(** [s] is a single line. *)
Definition no_newline (s : string) : Prop := Str.contains LF s = false.

(** A reply of the form [SUBJECT: X], a line feed, [BODY: Y]. *)
Definition reply_of (X Y : string) : string :=
  "SUBJECT: " ++ X ++ LF ++ "BODY: " ++ Y.

(** The parser before its first line. *)
Definition initial_parse_state : ParseState :=
  {| ps_subject := ""; ps_body := ""; current_section := None |}.

(** [current_section == 'body'] *)
Definition in_body_section (st : ParseState) : bool :=
  match st.(current_section) with
  | Some section => String.eqb section "body"
  | None => false
  end.

(** What [generate_email] returns when the service answers its request
    with a text. *)
Definition email_of_reply (speaker_data : Speaker) (category reply : string) : Email :=
  let (subject, body) := _parse_email_response (Str.strip reply) in
  if Str.truthy subject && Str.truthy body then {| subject := subject; body := body |}
  else _generate_fallback_email speaker_data.(name) speaker_data.(title)
         speaker_data.(company) category.

(** The speaker of the end-to-end scenario. *)
Definition john_smith : Speaker :=
  {| name := "John Smith"; title := "Project Manager"; company := "ABC Construction" |}.

(** * Vocabulary of the further properties *)

(** No entry of the competitor list occurs in the company or the title. *)
Definition no_competitor_match (company title : string) : Prop :=
  forall entry, In entry COMPETITORS ->
                ~ contains_ci entry company /\ ~ contains_ci entry title.

(** What [_classify_with_gemini] makes of a reply of the service. *)
Definition category_of_reply (reply title : string) : string :=
  let category := Str.title (Str.strip reply) in
  if Str.mem category ["Builder"; "Owner"; "Other"] then category
  else _classify_by_keywords title.

(** A computation that makes at most [k] requests to the service. *)
Definition at_most_requests {A : Type} (k : nat) (m : M World A) : Prop :=
  forall s r s', m s = (r, s') ->
    (fst s).(requests) <= (fst s').(requests) <= (fst s).(requests) + k.

(** The title holds a keyword of the list, letter case ignored. *)
Definition has_keyword (keywords : list string) (title : string) : Prop :=
  exists keyword, In keyword keywords /\ contains_ci keyword title.

(** The state after one request with [prompt]. *)
Definition after_request (prompt : string) (s : World * Trace) : World * Trace :=
  ({| requests := S (fst s).(requests); stats := (fst s).(stats) |},
   (snd s ++ [EvRequest prompt])%list).

(** One request whose reply, if any, is turned into a result by [read]:
    the shape shared by the bodies of [_classify_with_gemini] and
    [_generate_email_content]. *)
Definition ask {A : Type} (gemini_client : GeminiClient) (prompt : string)
    (read : string -> A) : M World A :=
  fun s =>
    (match gemini_client (fst s).(requests) prompt with
     | Ok reply => Ok (read reply)
     | Raise e => Raise e
     end,
     after_request prompt s).

(** The number of requests in a trace. *)
Fixpoint requests_in (t : Trace) : nat :=
  match t with
  | [] => 0
  | EvRequest _ :: rest => S (requests_in rest)
  | _ :: rest => requests_in rest
  end.

(** The state of an operation after [k] calls. *)
Fixpoint state_after {W A : Type} (op : W -> Result A * W) (k : nat) (w : W) : W :=
  match k with
  | O => w
  | S k' => state_after op k' (snd (op w))
  end.

(** What the wrapper makes of the outcome of its last call. *)
Definition wrapped {A : Type} (r : Result A) : Result (option A) :=
  match r with
  | Ok v => Ok (Some v)
  | Raise e => Raise e
  end.

(** The outcome ends the loop at attempt [attempt]: a value, an error
    that is no quota error, or the error of the last attempt. *)
Definition ends_loop {A : Type} (max_retries attempt : nat) (r : Result A) : Prop :=
  match r with
  | Ok _ => True
  | Raise e => is_quota_error e = false \/ attempt = max_retries - 1
  end.

(** The time asleep in a trace: the sleeps of [main.py] and those of the
    [tenacity] decorators, which both take their parameters from
    [config]. *)
Fixpoint slept (t : Trace) : Q :=
  match t with
  | [] => 0%Q
  | EvSleep seconds :: rest => (seconds + slept rest)%Q
  | EvBackoff attempt_number :: rest =>
      (wait_exponential config.RETRY_WAIT_EXPONENTIAL_MULTIPLIER
         config.RETRY_WAIT_EXPONENTIAL_MAX attempt_number + slept rest)%Q
  | _ :: rest => slept rest
  end.

(** The trace of a decorated request when every attempt fails: the
    request, and before each further request the sleep of the decorator
    after the failed attempt. *)
Fixpoint outage_trace (prompt : string) (remaining attempt_number : nat) : Trace :=
  match remaining with
  | O => [EvRequest prompt]
  | S r =>
      EvRequest prompt :: EvBackoff attempt_number
        :: outage_trace prompt r (S attempt_number)
  end.

(** The sleeps written in [main.py] that a trace holds, in order: those
    of [process_speaker] and of the wrapper. *)
Fixpoint own_sleeps (t : Trace) : list Q :=
  match t with
  | [] => []
  | EvSleep seconds :: rest => seconds :: own_sleeps rest
  | _ :: rest => own_sleeps rest
  end.

(** An operation that returns [None], with its call counter as state. *)
Definition returns_none (call_count : nat) : Result (option string) * nat :=
  (Ok None, S call_count).

(** An operation that raises a quota error twice and then a server
    error, with its call counter as state. *)
Definition quota_twice_then_error (call_count : nat) : Result string * nat :=
  (match call_count with
   | O | S O => Raise "429 You exceeded your current quota"
   | _ => Raise "500 Internal Server Error"
   end,
   S call_count).

(** A line that the parser does not take for a marker line. *)
Definition plain_line (l : string) : Prop :=
  no_newline l
  /\ Str.startswith (Str.strip l) "SUBJECT:" = false
  /\ Str.startswith (Str.strip l) "BODY:" = false.

(** The text made of the lines [ls], each one after a line feed. *)
Fixpoint following_lines (ls : list string) : string :=
  match ls with
  | [] => ""
  | l :: rest => LF ++ l ++ following_lines rest
  end.

(** What a body line and its continuation lines add up to: the stripped
    lines that are not empty, each after a space. *)
Fixpoint continuation (ls : list string) : string :=
  match ls with
  | [] => ""
  | l :: rest =>
      if Str.truthy (Str.strip l) then " " ++ Str.strip l ++ continuation rest
      else continuation rest
  end.

(** The state of the parser after the lines of a text. *)
Definition parse_state (content : string) : ParseState :=
  fold_left parse_line (Str.split_lines content) initial_parse_state.

(** The template that [generate_email] falls back to for a speaker. *)
Definition fallback_for (speaker_data : Speaker) (category : string) : Email :=
  _generate_fallback_email speaker_data.(name) speaker_data.(title)
    speaker_data.(company) category.

(** The prompt of the e-mail request for a speaker. *)
Definition email_prompt_for (speaker_data : Speaker) (category : string) : string :=
  email_prompt speaker_data.(name) speaker_data.(title) speaker_data.(company) category.

(** A trace of the service stage: requests and waits of the decorator
    only, no call of a wrapped operation and no sleep. *)
Definition service_only (t : Trace) : Prop :=
  Forall (fun ev => match ev with
                    | EvRequest _ | EvBackoff _ => True
                    | _ => False
                    end) t.

(** The row is the row of the speaker: its three fields are copied, its
    category is a target category, its subject and body are not empty. *)
Definition row_for (speaker_data : Speaker) (row : OutputRow) : Prop :=
  row.(Speaker_Name) = speaker_data.(name)
  /\ row.(Speaker_Title) = speaker_data.(title)
  /\ row.(Speaker_Company) = speaker_data.(company)
  /\ (row.(Company_Category) = "Builder" \/ row.(Company_Category) = "Owner")
  /\ Str.truthy row.(Email_Subject) = true
  /\ Str.truthy row.(Email_Body) = true.

(** [l1] is [l2] with some elements left out, the order kept. *)
Inductive subseq {A : Type} : list A -> list A -> Prop :=
| subseq_nil : subseq [] []
| subseq_skip (x : A) (l1 l2 : list A) : subseq l1 l2 -> subseq l1 (x :: l2)
| subseq_take (x : A) (l1 l2 : list A) : subseq l1 l2 -> subseq (x :: l1) (x :: l2).

(** The category of a pair when the service is down: the empty-field
    guard, the two manual lists, the keyword heuristic. *)
Definition offline_category (company title : string) : string :=
  if negb (Str.truthy company) || negb (Str.truthy title) then "Other"
  else if in_manual_list COMPETITORS (Str.lower company) (Str.lower title) then "Competitor"
  else if in_manual_list PARTNERS (Str.lower company) (Str.lower title) then "Partner"
  else _classify_by_keywords title.

(** The company and the title of the speaker are in ASCII. *)
Definition ascii_pair (speaker_data : Speaker) : Prop :=
  Str.isascii speaker_data.(company) = true /\ Str.isascii speaker_data.(title) = true.

(** The rows of a run when the service is down: for each speaker of a
    target category, the template of the category. *)
Fixpoint offline_rows (speakers : list Speaker) : list OutputRow :=
  match speakers with
  | [] => []
  | speaker_data :: rest =>
      let category := offline_category speaker_data.(company) speaker_data.(title) in
      if is_target_category category then
        {| Speaker_Name := speaker_data.(name);
           Speaker_Title := speaker_data.(title);
           Speaker_Company := speaker_data.(company);
           Company_Category := category;
           Email_Subject := (fallback_for speaker_data category).(subject);
           Email_Body := (fallback_for speaker_data category).(body) |}
        :: offline_rows rest
      else offline_rows rest
  end.

(** 1 for a row, 0 for none. *)
Definition made (result : option OutputRow) : nat :=
  match result with Some _ => 1 | None => 0 end.

(** What one record does to the state: its trace [t'], the counters, the
    requests, and the row if there is one. *)
Definition record_effect (speaker_data : Speaker) (s s' : World * Trace) (t' : Trace)
    (result : option OutputRow) : Prop :=
  snd s' = (snd s ++ t')%list
  /\ five_keys (stats_of s')
  /\ (stats_of s').(api_errors) = (stats_of s).(api_errors)
  /\ (stats_of s').(total_speakers_scanned) = (stats_of s).(total_speakers_scanned)
  /\ (stats_of s').(speakers_processed) = S (stats_of s).(speakers_processed)
  /\ (stats_of s').(emails_generated) = (stats_of s).(emails_generated) + made result
  /\ (stats_of s').(speakers_skipped) + made result = S (stats_of s).(speakers_skipped)
  /\ (fst s).(requests) <= (fst s').(requests) <= (fst s).(requests) + 6
  /\ calls t' = 1 + made result
  /\ own_sleeps t' = [config.API_DELAY]
  /\ match result with
     | Some row => row_for speaker_data row
     | None => True
     end.

(** What the records of a batch do to the state, added up. *)
Definition batch_effect (speakers : list Speaker) (s s' : World * Trace) (t' : Trace)
    (rows : list OutputRow) : Prop :=
  snd s' = (snd s ++ t')%list
  /\ five_keys (stats_of s')
  /\ (stats_of s').(api_errors) = (stats_of s).(api_errors)
  /\ (stats_of s').(total_speakers_scanned) = (stats_of s).(total_speakers_scanned)
  /\ (stats_of s').(speakers_processed)
     = (stats_of s).(speakers_processed) + List.length speakers
  /\ (stats_of s').(emails_generated) = (stats_of s).(emails_generated) + List.length rows
  /\ (stats_of s').(speakers_skipped) + List.length rows
     = (stats_of s).(speakers_skipped) + List.length speakers
  /\ (fst s).(requests) <= (fst s').(requests)
     <= (fst s).(requests) + 6 * List.length speakers
  /\ calls t' = List.length speakers + List.length rows
  /\ own_sleeps t' = repeat config.API_DELAY (List.length speakers)
  /\ exists chosen, subseq chosen speakers /\ Forall2 row_for chosen rows.

(** The state in which [main] starts the batch. *)
Definition batch_start (speakers : list Speaker) : World * Trace :=
  ({| requests := 0;
      stats := set_total_speakers_scanned (List.length speakers) new_stats |}, []).

(** No character of [s] is white space. *)
Fixpoint visible (s : string) : bool :=
  match s with
  | EmptyString => true
  | String c t => negb (Str.is_space c) && visible t
  end.

(** A word: not empty, no white space. *)
Definition word (w : string) : Prop := w <> "" /\ visible w = true.

(** [' '.join(v.split())] *)
Definition single_spaced (v : string) : string := Str.join " " (Str.split v).

(** The three fields of a record are within the length bounds that the
    [Speaker] model declares. *)
Definition within_speaker_bounds (speaker_data : Speaker) : Prop :=
  config.MIN_NAME_LENGTH <= String.length speaker_data.(name) <= 100
  /\ config.MIN_TITLE_LENGTH <= String.length speaker_data.(title) <= 200
  /\ config.MIN_COMPANY_LENGTH <= String.length speaker_data.(company) <= 100.

(** No white space at either end. *)
Definition stripped (s : string) : Prop := Str.strip s = s.

(** The three texts found in an element are in ASCII. *)
Definition ascii_texts (found : string * string * string) : Prop :=
  let '(found_name, found_title, found_company) := found in
  Str.isascii found_name = true /\ Str.isascii found_title = true
  /\ Str.isascii found_company = true.

(** * Properties *)

(** ** The assertions of the test suite *)

Example classify_by_keywords_tests :
  map _classify_by_keywords
    ["Construction Manager"; "Project Manager"; "General Contractor"; "Architect";
     "Site Superintendent"; "Property Owner"; "Facility Manager"; "Asset Manager";
     "Investment Manager"; "Real Estate Developer"; "Software Engineer";
     "Marketing Director"; "Sales Manager"; ""]
  = ["Builder"; "Builder"; "Builder"; "Builder"; "Builder"; "Owner"; "Owner"; "Owner";
     "Owner"; "Builder"; "Other"; "Other"; "Other"; "Other"].
Proof. reflexivity. Qed.

Example is_target_category_tests :
  map is_target_category ["Builder"; "Owner"; "Competitor"; "Partner"; "Other"; ""]
  = [true; true; false; false; false; false].
Proof. reflexivity. Qed.

Example categorize_company_tests :
  map (fun ct => fst (categorize_company (fst ct) (snd ct) (fun _ _ => Ok "Builder")
                        (initial_world, [])))
    [("Propeller Aero", "CEO"); ("DJI Technologies", "Engineer");
     ("Autodesk Inc", "Product Manager"); ("Microsoft Corporation", "Developer");
     ("ABC Construction", "Project Manager"); ("", "CEO"); ("ABC Corp", ""); ("", "")]
  = [Ok "Competitor"; Ok "Competitor"; Ok "Partner"; Ok "Partner"; Ok "Builder";
     Ok "Other"; Ok "Other"; Ok "Other"].
Proof. reflexivity. Qed.

Example categorize_company_invalid_reply :
  fst (categorize_company "ABC Construction" "Project Manager"
         (fun _ _ => Ok "InvalidCategory") (initial_world, []))
  = Ok "Builder".
Proof. reflexivity. Qed.

(** The decorator of [_classify_with_gemini] is not the wrapper of
    [main.py]: it retries every exception, so a service that answers with
    a server error is asked three times before the keyword heuristic
    takes over. *)
Example decorator_retries_every_error :
  let '(category, (w, t)) :=
    categorize_company "ABC Construction" "Project Manager"
      (fun _ _ => Raise "500 Internal Server Error") (initial_world, []) in
  category = Ok "Builder" /\ w.(requests) = 3.
Proof. split; reflexivity. Qed.

Example string_method_tests :
  Str.lower "Autodesk Civil 3D" = "autodesk civil 3d"
  /\ Str.title "bUILDER" = "Builder"
  /\ Str.title "real estate-owner" = "Real Estate-Owner"
  /\ Str.strip (String " " (String "009" ("a b" ++ LF))) = "a b"
  /\ Str.split_lines ("a" ++ LF ++ "b" ++ LF) = ["a"; "b"; ""]
  /\ Str.remove_all "ab" "xabababcab" = "xc"
  /\ Str.contains "dji" "the dji co" = true
  /\ Str.contains "" "" = true.
Proof. repeat split. Qed.

(** ** Strings *)

Lemma is_empty_true (s : string) : Str.is_empty s = true <-> s = "".
Proof. destruct s; simpl; split; intro H; congruence. Qed.

Lemma truthy_true (s : string) : s <> "" -> Str.truthy s = true.
Proof. destruct s; intro H; [congruence | reflexivity]. Qed.

Lemma truthy_false (s : string) : Str.truthy s = false -> s = "".
Proof. destruct s; intro H; [reflexivity | discriminate]. Qed.

Lemma lower_empty (s : string) : Str.lower s = "" -> s = "".
Proof. destruct s; simpl; intro H; congruence. Qed.

Lemma mem_In (x : string) (l : list string) : Str.mem x l = true -> In x l.
Proof.
  unfold Str.mem. intro H. apply existsb_exists in H.
  destruct H as [y [Hy Heq]]. apply String.eqb_eq in Heq. now subst.
Qed.

Lemma in_manual_list_true (entries : list string) (company title : string) :
  in_manual_list entries (Str.lower company) (Str.lower title) = true <->
  exists entry, In entry entries /\ (contains_ci entry company \/ contains_ci entry title).
Proof.
  unfold in_manual_list, contains_ci. rewrite existsb_exists.
  split; intros [e [Hin H]]; exists e; split; trivial.
  - now apply orb_true_iff in H.
  - now apply orb_true_iff.
Qed.

Lemma in_manual_list_false (entries : list string) (company title : string) :
  (forall entry, In entry entries ->
                 ~ contains_ci entry company /\ ~ contains_ci entry title) ->
  in_manual_list entries (Str.lower company) (Str.lower title) = false.
Proof.
  intro H. destruct (in_manual_list entries _ _) eqn:E; trivial.
  apply in_manual_list_true in E. destruct E as [e [Hin [Hc | Ht]]];
    destruct (H e Hin); contradiction.
Qed.

(** ** The monad *)

Ltac unfold_m :=
  unfold bind, ret, raise, try_except, sleep, emit, get, modify, update_stats in *.

(** ** The keyword heuristic *)

Lemma builder_keywords_lower (keyword : string) :
  In keyword BUILDER_KEYWORDS -> Str.lower keyword = keyword.
Proof.
  unfold BUILDER_KEYWORDS, config.BUILDER_KEYWORDS. simpl.
  intro H; repeat (destruct H as [H | H]; [subst; reflexivity |]); contradiction.
Qed.

Lemma builder_keywords_nonempty (keyword : string) :
  In keyword BUILDER_KEYWORDS -> Str.contains keyword "" = false.
Proof.
  unfold BUILDER_KEYWORDS, config.BUILDER_KEYWORDS. simpl.
  intro H; repeat (destruct H as [H | H]; [subst; reflexivity |]); contradiction.
Qed.

Lemma classify_by_keywords_builder (title : string) :
  (exists keyword, In keyword BUILDER_KEYWORDS /\ contains_ci keyword title) ->
  _classify_by_keywords title = "Builder".
Proof.
  intros [kw [Hin Hc]]. unfold _classify_by_keywords.
  replace (existsb _ BUILDER_KEYWORDS) with true; trivial.
  symmetry. apply existsb_exists. exists kw. split; trivial.
  unfold contains_ci in Hc. now rewrite builder_keywords_lower in Hc.
Qed.

Lemma classify_by_keywords_range (title : string) :
  In (_classify_by_keywords title) ["Builder"; "Owner"; "Other"].
Proof.
  unfold _classify_by_keywords.
  destruct (existsb _ BUILDER_KEYWORDS); [simpl; auto |].
  destruct (existsb _ OWNER_KEYWORDS); simpl; auto.
Qed.

(** ** The decorator *)

Section Retrying.
Context {W A : Type}.
Variable func : M W A.

Lemma retrying_always_raises :
  (forall s, exists e s', func s = (Raise e, s')) ->
  forall remaining attempt_number s,
    exists e s', retrying remaining attempt_number func s = (Raise e, s').
Proof.
  intros Hf. induction remaining as [| r IH]; intros k s; simpl.
  - unfold_m. destruct (Hf s) as [e [s' E]]. rewrite E. eauto.
  - unfold_m. destruct (Hf s) as [e [s' E]]. rewrite E. simpl. apply IH.
Qed.

Lemma retrying_result (P : A -> Prop) :
  (forall s a s', func s = (Ok a, s') -> P a) ->
  forall remaining attempt_number s a s',
    retrying remaining attempt_number func s = (Ok a, s') -> P a.
Proof.
  intros Hf. induction remaining as [| r IH]; intros k s a s'; simpl; unfold_m.
  - destruct (func s) as [[v | e] s1] eqn:E; intro H; inversion H; subst. eauto.
  - destruct (func s) as [[v | e] s1] eqn:E; intro H.
    + inversion H; subst. eauto.
    + simpl in H. eapply IH; eauto.
Qed.

End Retrying.

(** ** The classification policy *)

Lemma classify_once_fails company title gemini_client :
  all_requests_fail gemini_client ->
  forall s, exists e s',
    _classify_with_gemini_once company title gemini_client s = (Raise e, s').
Proof.
  intros Hfail s. unfold _classify_with_gemini_once, generate_content_async. unfold_m.
  destruct (Hfail (requests (fst s)) (classify_prompt company title)) as [e E].
  rewrite E. eauto.
Qed.


Lemma classify_once_range company title gemini_client s category s' :
  _classify_with_gemini_once company title gemini_client s = (Ok category, s') ->
  In category ["Builder"; "Owner"; "Other"].
Proof.
  unfold _classify_with_gemini_once, generate_content_async. unfold_m.
  destruct (gemini_client _ _) as [text | e]; [| discriminate].
  destruct (Str.mem _ _) eqn:E; intro H; inversion H; subst.
  - now apply mem_In.
  - apply classify_by_keywords_range.
Qed.

Lemma three_in_five (category : string) :
  In category ["Builder"; "Owner"; "Other"] -> In category five_categories.
Proof. unfold five_categories; simpl; intuition. Qed.

Lemma categorize_company_total company title gemini_client s :
  exists category s',
    categorize_company company title gemini_client s = (Ok category, s')
    /\ In category five_categories.
Proof.
  unfold categorize_company.
  destruct (negb (Str.truthy company) || negb (Str.truthy title)).
  { exists "Other", s. split; [reflexivity | unfold five_categories; simpl; auto 6]. }
  destruct (in_manual_list COMPETITORS _ _).
  { exists "Competitor", s. split; [reflexivity | unfold five_categories; simpl; auto 6]. }
  destruct (in_manual_list PARTNERS _ _).
  { exists "Partner", s. split; [reflexivity | unfold five_categories; simpl; auto 6]. }
  unfold_m.
  destruct (_classify_with_gemini company title gemini_client s) as [[c | e] s1] eqn:E.
  - exists c, s1. split; trivial. apply three_in_five.
    unfold _classify_with_gemini, retry_stop_after_attempt in E.
    eapply (retrying_result _ (fun c => In c ["Builder"; "Owner"; "Other"])); [| exact E].
    intros s2 a s3 H. eapply classify_once_range; eauto.
  - exists (_classify_by_keywords title), s1. split; trivial.
    apply three_in_five, classify_by_keywords_range.
Qed.

Lemma categorize_company_nonempty company title gemini_client :
  company <> "" -> title <> "" ->
  categorize_company company title gemini_client =
  if in_manual_list COMPETITORS (Str.lower company) (Str.lower title) then ret "Competitor"
  else if in_manual_list PARTNERS (Str.lower company) (Str.lower title) then ret "Partner"
  else
    try_except
      (category <- _classify_with_gemini company title gemini_client ;; ret category)
      (fun error_msg => ret (_classify_by_keywords title)).
Proof.
  intros Hc Ht. unfold categorize_company.
  rewrite (truthy_true _ Hc), (truthy_true _ Ht). reflexivity.
Qed.

Lemma categorize_company_service_down company title gemini_client s :
  all_requests_fail gemini_client ->
  company <> "" -> title <> "" ->
  in_manual_list COMPETITORS (Str.lower company) (Str.lower title) = false ->
  in_manual_list PARTNERS (Str.lower company) (Str.lower title) = false ->
  fst (categorize_company company title gemini_client s) = Ok (_classify_by_keywords title).
Proof.
  intros Hfail Hc Ht Hcomp Hpart.
  rewrite (categorize_company_nonempty _ _ _ Hc Ht), Hcomp, Hpart.
  unfold_m.
  destruct (retrying_always_raises _ (classify_once_fails company title _ Hfail)
              (config.RETRY_STOP_AFTER_ATTEMPT - 1) 1 s) as [e [s' E]].
  unfold _classify_with_gemini, retry_stop_after_attempt. rewrite E. reflexivity.
Qed.

(** C3, as amended.  When neither the company nor the title is empty and
    one of them contains an entry of the competitor list, letter case
    ignored, [categorize_company] returns Competitor whatever else the
    title holds, and the state is unchanged: no request is made to the
    completion service. *)
Theorem categorize_company_competitor (company title : string)
    (gemini_client : GeminiClient) (s : World * Trace) :
  company <> "" -> title <> "" ->
  (exists competitor, In competitor COMPETITORS
     /\ (contains_ci competitor company \/ contains_ci competitor title)) ->
  categorize_company company title gemini_client s = (Ok "Competitor", s).
Proof.
  intros Hc Ht Hm. rewrite (categorize_company_nonempty _ _ _ Hc Ht).
  apply in_manual_list_true in Hm. now rewrite Hm.
Qed.

Lemma categorize_company_competitor_witness :
  categorize_company "DJI Technologies" "Engineer" (fun _ _ => Ok "Builder")
    (initial_world, []) = (Ok "Competitor", (initial_world, [])).
Proof.
  apply categorize_company_competitor.
  - discriminate.
  - discriminate.
  - exists "DJI". split; [simpl; auto | left; reflexivity].
Defined.

(** C3 as stated fails on an empty title: the company holds a competitor
    name and the result is Other. *)
Lemma categorize_company_competitor_empty_title :
  (exists competitor, In competitor COMPETITORS
     /\ (contains_ci competitor "Propeller" \/ contains_ci competitor ""))
  /\ fst (categorize_company "Propeller" "" (fun _ _ => Ok "Builder") (initial_world, []))
     = Ok "Other"
  /\ fst (categorize_company "Propeller" "" (fun _ _ => Ok "Builder") (initial_world, []))
     <> Ok "Competitor".
Proof.
  split; [| split].
  - exists "Propeller". split; [simpl; auto | left; reflexivity].
  - reflexivity.
  - discriminate.
Qed.

Lemma no_manual_match_lists (company title : string) :
  no_manual_match company title ->
  in_manual_list COMPETITORS (Str.lower company) (Str.lower title) = false
  /\ in_manual_list PARTNERS (Str.lower company) (Str.lower title) = false.
Proof.
  intro H. split; apply in_manual_list_false; intros e He; apply H; auto.
Qed.

Lemma no_manual_match_by_lists (company title : string) :
  in_manual_list COMPETITORS (Str.lower company) (Str.lower title) = false ->
  in_manual_list PARTNERS (Str.lower company) (Str.lower title) = false ->
  no_manual_match company title.
Proof.
  intros Hc Hp e [He | He]; split; intro H.
  - assert (X : in_manual_list COMPETITORS (Str.lower company) (Str.lower title) = true)
      by (apply in_manual_list_true; eauto). congruence.
  - assert (X : in_manual_list COMPETITORS (Str.lower company) (Str.lower title) = true)
      by (apply in_manual_list_true; eauto). congruence.
  - assert (X : in_manual_list PARTNERS (Str.lower company) (Str.lower title) = true)
      by (apply in_manual_list_true; eauto). congruence.
  - assert (X : in_manual_list PARTNERS (Str.lower company) (Str.lower title) = true)
      by (apply in_manual_list_true; eauto). congruence.
Qed.

Lemma builder_keyword_title_nonempty (title : string) :
  (exists keyword, In keyword BUILDER_KEYWORDS /\ contains_ci keyword title) ->
  title <> "".
Proof.
  intros [kw [Hin Hc]] ->. unfold contains_ci in Hc.
  change (Str.lower "") with "" in Hc.
  rewrite builder_keywords_lower in Hc by trivial.
  rewrite builder_keywords_nonempty in Hc by trivial. discriminate.
Qed.

(** C5, as amended.  For a company that is not empty and a title that
    contains a builder keyword (letter case ignored), both in ASCII, when
    neither matches an entry of the competitor or partner list and every
    request to the completion service fails, [categorize_company] returns
    Builder.  The keyword heuristic answers Builder for every title with
    a builder keyword, whether or not the title also holds an owner
    keyword: the builder list is scanned first.  (Beyond ASCII, Python
    finds entries that the byte-wise comparison does not: the lower case
    of U+0130 begins with an i.) *)
Theorem keyword_fallback_builder (company title : string)
    (gemini_client : GeminiClient) (s : World * Trace) :
  Str.isascii company = true -> Str.isascii title = true ->
  company <> "" ->
  (exists keyword, In keyword BUILDER_KEYWORDS /\ contains_ci keyword title) ->
  no_manual_match company title ->
  all_requests_fail gemini_client ->
  fst (categorize_company company title gemini_client s) = Ok "Builder"
  /\ _classify_by_keywords title = "Builder".
Proof.
  intros _ _ Hc Hkw Hno Hfail.
  pose proof (classify_by_keywords_builder title Hkw) as Hb.
  split; trivial.
  destruct (no_manual_match_lists _ _ Hno) as [H1 H2].
  rewrite categorize_company_service_down; trivial.
  - now rewrite Hb.
  - now apply builder_keyword_title_nonempty.
Qed.

Lemma keyword_fallback_builder_witness :
  (exists keyword, In keyword OWNER_KEYWORDS
     /\ contains_ci keyword "Real Estate Developer and Owner")
  /\ fst (categorize_company "ABC Construction" "Real Estate Developer and Owner"
            (fun _ _ => Raise "503 Service Unavailable") (initial_world, []))
     = Ok "Builder"
  /\ _classify_by_keywords "Real Estate Developer and Owner" = "Builder".
Proof.
  split.
  - exists "owner". split; [simpl; auto | reflexivity].
  - apply keyword_fallback_builder.
    + reflexivity.
    + reflexivity.
    + discriminate.
    + exists "developer". split; [simpl; auto 6 | reflexivity].
    + apply no_manual_match_by_lists; reflexivity.
    + intros k p. eauto.
Defined.

(** C5 as stated fails on an empty company: the title holds a builder
    keyword, nothing matches a manual list, the service is down, and the
    result is Other. *)
Lemma keyword_fallback_empty_company :
  (exists keyword, In keyword BUILDER_KEYWORDS /\ contains_ci keyword "developer")
  /\ no_manual_match "" "developer"
  /\ all_requests_fail (fun _ _ => Raise "503 Service Unavailable")
  /\ fst (categorize_company "" "developer"
            (fun _ _ => Raise "503 Service Unavailable") (initial_world, []))
     = Ok "Other"
  /\ fst (categorize_company "" "developer"
            (fun _ _ => Raise "503 Service Unavailable") (initial_world, []))
     <> Ok "Builder".
Proof.
  split; [| split; [| split; [| split]]].
  - exists "developer". split; [simpl; auto 6 | reflexivity].
  - apply no_manual_match_by_lists; reflexivity.
  - intros k p. eauto.
  - reflexivity.
  - discriminate.
Qed.



(** ** The retry wrapper *)

Lemma calls_app (t1 t2 : Trace) : calls (t1 ++ t2) = (calls t1 + calls t2)%nat.
Proof.
  induction t1 as [| ev t1 IH]; simpl; trivial.
  destruct ev; simpl; auto.
Qed.

Section RetryLoop.
Context {W A : Type}.
Variable max_retries : nat.
Variable api_delay : Q.

Lemma retry_loop_step (func : M W (option A)) (attempt : nat) (rest : list nat)
    (s : W * Trace) :
  retry_loop max_retries api_delay func (attempt :: rest) s =
  match func (fst s, snd s ++ head_sleep api_delay attempt ++ [EvCall]) with
  | (Ok v, s') => (Ok v, s')
  | (Raise e, s') =>
      if is_quota_error e then
        if (attempt <? max_retries - 1)%nat then
          retry_loop max_retries api_delay func rest
            (fst s', snd s' ++ [EvSleep (api_delay * of_int (2 ^ attempt))])
        else (Raise e, s')
      else (Raise e, s')
  end.
Proof.
  destruct s as [w t]. unfold head_sleep. simpl retry_loop.
  destruct (0 <? attempt)%nat; unfold_m; simpl fst; simpl snd;
    rewrite <- ?app_assoc; simpl app;
    destruct (func _) as [[v | e] s']; trivial;
    destruct (is_quota_error e); trivial;
    destruct (attempt <? max_retries - 1)%nat; trivial.
Qed.

Variable op : W -> Result A * W.

Lemma operation_run (w : W) (t : Trace) :
  operation op (w, t)
  = (match fst (op w) with Ok v => Ok (Some v) | Raise e => Raise e end,
     (snd (op w), t)).
Proof.
  unfold operation, returning, acting, bind, ret. simpl.
  destruct (op w) as [[v | e] w']; reflexivity.
Qed.

(** The shape of the trace of the loop, for any operation: before its
    first call the loop awaits the sleep at the head of the body (none
    for attempt 0), before each further call the two sleeps of a retry. *)
Lemma retry_loop_sleeps :
  forall n attempt w t,
    exists r w' t',
      retry_loop max_retries api_delay (operation op) (seq attempt n) (w, t)
      = (r, (w', t ++ t'))
      /\ forall pending,
           sleeps_before_calls t' pending =
           match calls t' with
           | O => []
           | S c =>
               (pending ++ (if (0 <? attempt)%nat
                            then [(api_delay * of_int attempt)%Q] else []))
                 :: map (retry_sleeps api_delay) (seq attempt c)
           end.
Proof.
  induction n as [| n IH]; intros a w t.
  - exists (Ok None), w, []. simpl. rewrite app_nil_r. split; trivial.
  - simpl seq. rewrite retry_loop_step, operation_run. simpl fst; simpl snd.
    assert (Hone : forall pending,
               sleeps_before_calls (head_sleep api_delay a ++ [EvCall]) pending =
               [pending ++ (if (0 <? a)%nat
                            then [(api_delay * of_int a)%Q] else [])]).
    { intro p. unfold head_sleep. destruct (0 <? a)%nat; simpl; trivial.
      now rewrite app_nil_r. }
    assert (Hc : calls (head_sleep api_delay a ++ [EvCall]) = 1%nat).
    { unfold head_sleep. destruct (0 <? a)%nat; reflexivity. }
    destruct (op w) as [[v | e] w1]; simpl fst; simpl snd; cbv iota.
    { exists (Ok (Some v)), w1, (head_sleep api_delay a ++ [EvCall]). split; trivial.
      intro p. rewrite Hc, Hone. reflexivity. }
    destruct (is_quota_error e);
      [destruct (a <? max_retries - 1)%nat |];
      try (exists (Raise e), w1, (head_sleep api_delay a ++ [EvCall]); split; trivial;
           intro p; rewrite Hc, Hone; reflexivity).
    destruct (IH (S a) w1
                ((t ++ head_sleep api_delay a ++ [EvCall])
                   ++ [EvSleep (api_delay * of_int (2 ^ a))]))
      as [r [w' [t' [E H]]]].
    exists r, w', ((head_sleep api_delay a ++ [EvCall])
                     ++ EvSleep (api_delay * of_int (2 ^ a)) :: t').
    split.
    { rewrite E. f_equal. f_equal. rewrite <- !app_assoc. reflexivity. }
    intro p. rewrite calls_app, Hc. simpl plus.
    assert (Hs : sleeps_before_calls
                   ((head_sleep api_delay a ++ [EvCall])
                      ++ EvSleep (api_delay * of_int (2 ^ a)) :: t') p
                 = (p ++ (if (0 <? a)%nat
                          then [(api_delay * of_int a)%Q] else []))
                     :: sleeps_before_calls t' [(api_delay * of_int (2 ^ a))%Q]).
    { unfold head_sleep. destruct (0 <? a)%nat; simpl; trivial.
      now rewrite app_nil_r. }
    rewrite Hs, H. f_equal.
    destruct (calls t') as [| c]; trivial.
Qed.

End RetryLoop.

Section RetryOutcome.
Context {W A : Type}.
Variable max_retries : nat.
Variable api_delay : Q.
Variable op : W -> Result A * W.

Lemma retry_loop_outcome :
  forall k n attempt w t,
    k < n -> attempt + n = max_retries ->
    (forall i, i < k ->
       exists e, fst (op (state_after op i w)) = Raise e /\ is_quota_error e = true) ->
    ends_loop max_retries (attempt + k) (fst (op (state_after op k w))) ->
    exists t',
      retry_loop max_retries api_delay (operation op) (seq attempt n) (w, t)
      = (wrapped (fst (op (state_after op k w))),
         (state_after op (S k) w, (t ++ t')%list))
      /\ calls t' = S k.
Proof.
  induction k as [| k IH]; intros n a w t Hk Ha Hq Hend.
  - destruct n as [| n]; [lia |]. simpl seq.
    rewrite retry_loop_step, operation_run. cbn [fst snd state_after] in *.
    exists (head_sleep api_delay a ++ [EvCall])%list. split.
    + destruct (fst (op w)) as [v | e]; trivial.
      simpl in Hend. rewrite Nat.add_0_r in Hend.
      destruct (is_quota_error e); trivial.
      destruct Hend as [Hend | Hend]; [discriminate |].
      replace (a <? max_retries - 1)%nat with false; trivial.
      symmetry. apply Nat.ltb_ge. lia.
    + rewrite calls_app. unfold head_sleep. destruct (0 <? a)%nat; reflexivity.
  - destruct n as [| n]; [lia |]. simpl seq.
    rewrite retry_loop_step, operation_run. cbn [fst snd].
    destruct (Hq 0) as [e [He Hqe]]; [lia |]. cbn [state_after] in He.
    rewrite He, Hqe.
    replace (a <? max_retries - 1)%nat with true
      by (symmetry; apply Nat.ltb_lt; lia).
    destruct (IH n (S a) (snd (op w))
                ((t ++ head_sleep api_delay a ++ [EvCall])
                   ++ [EvSleep (api_delay * of_int (2 ^ a))])%list)
      as [t' [E Hc]].
    + lia.
    + lia.
    + intros i Hi. destruct (Hq (S i)) as [e' He']; [lia |]. exists e'. exact He'.
    + replace (S a + k) with (a + S k) by lia. exact Hend.
    + exists (head_sleep api_delay a ++ [EvCall]
                ++ [EvSleep (api_delay * of_int (2 ^ a))] ++ t')%list.
      split.
      * cbn [state_after]. rewrite E. now rewrite <- !app_assoc.
      * rewrite !calls_app, Hc. unfold head_sleep. destruct (0 <? a)%nat; reflexivity.
Qed.

End RetryOutcome.

Section RetryActing.
Context {W A : Type}.
Variable max_retries : nat.
Variable api_delay : Q.
Variable op : W -> Result (option A) * W.

Lemma acting_run (w : W) (t : Trace) :
  acting op (w, t) = (fst (op w), (snd (op w), t)).
Proof. unfold acting. simpl. destruct (op w); reflexivity. Qed.

(** With an iteration left, the loop ends in one of its calls: what it
    returns or raises is the outcome of that call. *)
Lemma retry_loop_last_call :
  forall n attempt w t,
    (attempt + S n = max_retries)%nat ->
    exists k t',
      (k <= n)%nat
      /\ retry_loop max_retries api_delay (acting op) (seq attempt (S n)) (w, t)
         = (fst (op (state_after op k w)), (state_after op (S k) w, (t ++ t')%list))
      /\ calls t' = S k.
Proof.
  induction n as [| n IH]; intros a w t Ha; simpl seq;
    rewrite retry_loop_step, acting_run; cbn [fst snd].
  - exists 0%nat, (head_sleep api_delay a ++ [EvCall])%list. cbn [state_after].
    split; [lia |]. split.
    + destruct (fst (op w)) as [v | e]; trivial.
      destruct (is_quota_error e); trivial.
      replace (a <? max_retries - 1)%nat with false; trivial.
      symmetry. apply Nat.ltb_ge. lia.
    + rewrite calls_app. unfold head_sleep. destruct (0 <? a)%nat; reflexivity.
  - assert (Hc : calls (head_sleep api_delay a ++ [EvCall])%list = 1%nat).
    { unfold head_sleep. destruct (0 <? a)%nat; reflexivity. }
    destruct (fst (op w)) as [v | e] eqn:Ew.
    { exists 0%nat, (head_sleep api_delay a ++ [EvCall])%list. cbn [state_after].
      rewrite Ew. split; [lia |]. split; trivial. }
    destruct (is_quota_error e).
    2: { exists 0%nat, (head_sleep api_delay a ++ [EvCall])%list. cbn [state_after].
         rewrite Ew. split; [lia |]. split; trivial. }
    replace (a <? max_retries - 1)%nat with true
      by (symmetry; apply Nat.ltb_lt; lia).
    destruct (IH (S a) (snd (op w))
                ((t ++ head_sleep api_delay a ++ [EvCall])
                   ++ [EvSleep (api_delay * of_int (2 ^ a))])%list)
      as [k [t' [Hk [E C]]]]; [lia |].
    exists (S k), ((head_sleep api_delay a ++ [EvCall])
                     ++ EvSleep (api_delay * of_int (2 ^ a)) :: t')%list.
    split; [lia |]. split.
    + cbn [state_after]. change (seq (S a) (S n)) with (S a :: seq (S (S a)) n) in E.
      rewrite E. do 2 f_equal. now rewrite <- !app_assoc.
    + rewrite calls_app, Hc. simpl. now rewrite C.
Qed.

End RetryActing.

(** C2, as amended.  The wrapper [api_call_with_retry] of [main.py]
    around an operation, for an attempt ceiling [max_retries] (3 in
    [config]).  If the operation raises a quota error and then succeeds,
    the wrapper returns the value after exactly two calls.  If it raises
    a quota error at every call, the wrapper raises the error of the last
    call, call number [max_retries], after exactly [max_retries] calls.
    If its first call raises another error, the wrapper raises that error
    after this one call. *)
Theorem api_call_with_retry_attempts {W A : Type} (max_retries : nat) (api_delay : Q)
    (op : W -> Result A * W) (w0 : W) (t0 : Trace) :
  (forall e w1 v w2,
      2 <= max_retries ->
      op w0 = (Raise e, w1) -> is_quota_error e = true -> op w1 = (Ok v, w2) ->
      exists t',
        api_call_with_retry_at max_retries api_delay (operation op) (w0, t0)
        = (Ok (Some v), (w2, t0 ++ t'))
        /\ calls t' = 2)
  /\ (1 <= max_retries ->
      (forall w, exists e w', op w = (Raise e, w') /\ is_quota_error e = true) ->
      exists e t',
        api_call_with_retry_at max_retries api_delay (operation op) (w0, t0)
        = (Raise e, (state_after op max_retries w0, t0 ++ t'))
        /\ fst (op (state_after op (max_retries - 1) w0)) = Raise e
        /\ is_quota_error e = true /\ calls t' = max_retries)
  /\ (forall e w1,
      1 <= max_retries ->
      op w0 = (Raise e, w1) -> is_quota_error e = false ->
      api_call_with_retry_at max_retries api_delay (operation op) (w0, t0)
      = (Raise e, (w1, t0 ++ [EvCall]))).
Proof.
  unfold api_call_with_retry_at, range. split; [| split].
  - intros e w1 v w2 Hn E0 Hq E1.
    destruct max_retries as [| [| n]]; try lia.
    change (seq 0 (S (S n))) with (0 :: 1 :: seq 2 n).
    rewrite retry_loop_step, operation_run. simpl fst; simpl snd. rewrite E0. simpl fst; simpl snd. cbv iota.
    rewrite Hq. change (0 <? S (S n) - 1)%nat with true. cbv iota.
    rewrite retry_loop_step, operation_run. simpl fst; simpl snd. rewrite E1. simpl fst; simpl snd.
    exists ([EvCall] ++ [EvSleep (api_delay * of_int (2 ^ 0))]
              ++ head_sleep api_delay 1 ++ [EvCall]).
    split; [| reflexivity].
    now rewrite <- !app_assoc.
  - intros Hn Hop. destruct max_retries as [| n]; try lia.
    destruct (Hop (state_after op n w0)) as [e [w' [E Hq]]].
    destruct (retry_loop_outcome (S n) api_delay op n (S n) 0 w0 t0) as [t' [R C]].
    + lia.
    + reflexivity.
    + intros i _. destruct (Hop (state_after op i w0)) as [e' [w'' [E' Hq']]].
      exists e'. rewrite E'. split; trivial.
    + rewrite E. right. simpl. lia.
    + exists e, t'. rewrite R, E. simpl. rewrite Nat.sub_0_r, E.
      repeat split; trivial.
  - intros e w1 Hn E0 Hq. destruct max_retries as [| n]; try lia.
    simpl seq. rewrite retry_loop_step, operation_run. simpl fst; simpl snd. rewrite E0. simpl fst; simpl snd.
    cbv iota. rewrite Hq. reflexivity.
Qed.

Lemma api_call_with_retry_attempts_witness :
  (exists t',
      api_call_with_retry (operation quota_once) (0, [])
      = (Ok (Some "success"), (2, [] ++ t')) /\ calls t' = 2)
  /\ (exists e t',
      api_call_with_retry (operation quota_always) (0, [])
      = (Raise e, (state_after quota_always config.MAX_RETRIES 0, [] ++ t'))
      /\ fst (quota_always (state_after quota_always (config.MAX_RETRIES - 1) 0))
         = Raise e
      /\ is_quota_error e = true /\ calls t' = config.MAX_RETRIES)
  /\ api_call_with_retry (operation server_error) (0, [])
     = (Raise "500 Internal Server Error", (1, [] ++ [EvCall])).
Proof.
  split; [| split].
  - apply (proj1 (api_call_with_retry_attempts config.MAX_RETRIES config.API_DELAY
                    quota_once 0 []) "429 You exceeded your current quota" 1 "success" 2).
    + unfold config.MAX_RETRIES; lia.
    + reflexivity.
    + reflexivity.
    + reflexivity.
  - apply (proj1 (proj2 (api_call_with_retry_attempts config.MAX_RETRIES
                           config.API_DELAY quota_always 0 []))).
    + unfold config.MAX_RETRIES; lia.
    + intro w. exists "429 You exceeded your current quota", (S w).
      split; reflexivity.
  - apply (proj2 (proj2 (api_call_with_retry_attempts config.MAX_RETRIES
                           config.API_DELAY server_error 0 []))).
    + unfold config.MAX_RETRIES; lia.
    + reflexivity.
    + reflexivity.
Defined.

(** C2 as stated fails for the other retry mechanism that the claim
    cites, the decorator of [_classify_with_gemini]: a server error,
    which is no quota error, is not raised again after one request but
    after the three attempts of [RETRY_STOP_AFTER_ATTEMPT]. *)
Lemma classify_with_gemini_retries_server_error :
  is_quota_error "500 Internal Server Error" = false
  /\ exists w t,
       _classify_with_gemini "ABC Construction" "Project Manager"
         (fun _ _ => Raise "500 Internal Server Error") (initial_world, [])
       = (Raise "500 Internal Server Error", (w, t))
       /\ w.(requests) = 3
       /\ w.(requests) <> 1.
Proof.
  split; [reflexivity |]. eexists; eexists. split; [reflexivity |].
  split; [reflexivity | discriminate].
Qed.

(** C8, as amended.  For every operation, the wrapper awaits no sleep
    before its first call, and before retry number [k] (counted from 0)
    it awaits two sleeps: the backoff [api_delay * 2^k] of the handler and
    then the delay [api_delay * (k + 1)] at the head of the loop body,
    [api_delay * (2^k + k + 1)] in total. *)
Theorem api_call_with_retry_waits {W A : Type} (max_retries : nat) (api_delay : Q)
    (op : W -> Result A * W) (w0 : W) :
  exists r w' t',
    api_call_with_retry_at max_retries api_delay (operation op) (w0, [])
    = (r, (w', t'))
    /\ sleeps_before_calls t' [] =
       match calls t' with
       | O => []
       | S retries => [] :: map (retry_sleeps api_delay) (seq 0 retries)
       end
    /\ forall k,
         (total (retry_sleeps api_delay k)
          == api_delay * (of_int (2 ^ k) + of_int (k + 1)))%Q.
Proof.
  unfold api_call_with_retry_at, range.
  destruct (retry_loop_sleeps max_retries api_delay op max_retries 0 w0 [])
    as [r [w' [t' [E H]]]].
  exists r, w', t'. split; [exact E | split].
  - rewrite H. destruct (calls t'); reflexivity.
  - intro k. unfold total, retry_sleeps. simpl fold_right.
    replace (k + 1)%nat with (S k) by lia. ring.
Qed.

(** C8 as stated fails at the first retry: the wait before it is the sum
    of two sleeps of 0.1 s, not [API_DELAY * 2^0]. *)
Lemma first_retry_waits_twice :
  let t := snd (snd (api_call_with_retry (operation quota_once) (0, []))) in
  sleeps_before_calls t []
  = [[]; [(config.API_DELAY * of_int (2 ^ 0))%Q; (config.API_DELAY * of_int 1)%Q]]
  /\ (total (nth 1 (sleeps_before_calls t []) []) == 2 # 10)%Q
  /\ ~ (total (nth 1 (sleeps_before_calls t []) []) == config.API_DELAY * of_int (2 ^ 0))%Q.
Proof.
  simpl. split; [reflexivity | split].
  - reflexivity.
  - intro H. vm_compute in H. discriminate.
Qed.

(** ** The batch *)

Lemma keeps_stats_ret {A} (a : A) : keeps_stats (ret a).
Proof. intros s r s' H. inversion H. reflexivity. Qed.

Lemma keeps_stats_raise {A} (e : string) : keeps_stats (raise (A:=A) e).
Proof. intros s r s' H. inversion H. reflexivity. Qed.

Lemma keeps_stats_emit (ev : Event) : keeps_stats (emit ev).
Proof. intros s r s' H. inversion H. reflexivity. Qed.

Lemma keeps_stats_bind {A B} (m : M World A) (k : A -> M World B) :
  keeps_stats m -> (forall a, keeps_stats (k a)) -> keeps_stats (bind m k).
Proof.
  intros Hm Hk s r s' H. unfold bind in H.
  destruct (m s) as [[a | e] s1] eqn:E.
  - rewrite (Hk a _ _ _ H). eapply Hm; eauto.
  - inversion H; subst. eapply Hm; eauto.
Qed.

Lemma keeps_stats_try_except {A} (m : M World A) (h : string -> M World A) :
  keeps_stats m -> (forall e, keeps_stats (h e)) -> keeps_stats (try_except m h).
Proof.
  intros Hm Hh s r s' H. unfold try_except in H.
  destruct (m s) as [[a | e] s1] eqn:E.
  - inversion H; subst. eapply Hm; eauto.
  - rewrite (Hh e _ _ _ H). eapply Hm; eauto.
Qed.

Lemma keeps_stats_request gemini_client prompt :
  keeps_stats (generate_content_async gemini_client prompt).
Proof. intros s r s' H. inversion H. reflexivity. Qed.

Lemma keeps_stats_if {A} (b : bool) (m1 m2 : M World A) :
  keeps_stats m1 -> keeps_stats m2 -> keeps_stats (if b then m1 else m2).
Proof. destruct b; trivial. Qed.

Lemma keeps_stats_retrying {A} (func : M World A) :
  keeps_stats func ->
  forall remaining attempt_number, keeps_stats (retrying remaining attempt_number func).
Proof.
  intros Hf. induction remaining as [| r IH]; intro k; simpl;
    apply keeps_stats_try_except; trivial; intro e.
  - apply keeps_stats_raise.
  - apply keeps_stats_bind; [apply keeps_stats_emit | intro; apply IH].
Qed.

Lemma keeps_stats_retry_loop {A} (func : M World (option A)) max_retries api_delay :
  keeps_stats func ->
  forall attempts, keeps_stats (retry_loop max_retries api_delay func attempts).
Proof.
  intros Hf. induction attempts as [| a rest IH]; simpl.
  - apply keeps_stats_ret.
  - apply keeps_stats_try_except.
    + apply keeps_stats_bind.
      * apply keeps_stats_if; [apply keeps_stats_emit | apply keeps_stats_ret].
      * intro. apply keeps_stats_bind.
        -- apply keeps_stats_bind; [apply keeps_stats_emit | intro; trivial].
        -- intro. apply keeps_stats_ret.
    + intro e. repeat apply keeps_stats_if; try apply keeps_stats_raise.
      apply keeps_stats_bind; [apply keeps_stats_emit | intro; trivial].
Qed.

Lemma keeps_stats_categorize company title gemini_client :
  keeps_stats (categorize_company company title gemini_client).
Proof.
  unfold categorize_company.
  repeat apply keeps_stats_if; try apply keeps_stats_ret.
  apply keeps_stats_try_except; [| intro; apply keeps_stats_ret].
  apply keeps_stats_bind; [| intro; apply keeps_stats_ret].
  apply keeps_stats_retrying.
  apply keeps_stats_try_except; [| intro; apply keeps_stats_raise].
  apply keeps_stats_bind; [apply keeps_stats_request |].
  intro. apply keeps_stats_if; apply keeps_stats_ret.
Qed.

Lemma keeps_stats_generate_email speaker_data category gemini_client :
  keeps_stats (generate_email speaker_data category gemini_client).
Proof.
  unfold generate_email.
  apply keeps_stats_try_except; [| intro; apply keeps_stats_ret].
  apply keeps_stats_bind; [| intro; apply keeps_stats_ret].
  apply keeps_stats_retrying.
  apply keeps_stats_try_except; [| intro; apply keeps_stats_raise].
  apply keeps_stats_bind; [apply keeps_stats_request |].
  intro a. cbv zeta. destruct (_parse_email_response (Str.strip a)).
  apply keeps_stats_if; apply keeps_stats_ret.
Qed.

(** [generate_email] absorbs every failure of the service. *)
Lemma generate_email_total speaker_data category gemini_client s :
  exists email s', generate_email speaker_data category gemini_client s = (Ok email, s').
Proof.
  unfold generate_email. unfold_m.
  destruct (_generate_email_content _ _ _ _ _ s) as [[email | e] s1]; eauto.
Qed.

(** An operation that returns at its first call is called once. *)
Lemma api_call_with_retry_returns {W A} (func : M W A) (s : W * Trace) v s' :
  func (fst s, snd s ++ [EvCall]) = (Ok v, s') ->
  api_call_with_retry (returning func) s = (Ok (Some v), s').
Proof.
  intro H. unfold api_call_with_retry, api_call_with_retry_at, range.
  change (seq 0 config.MAX_RETRIES) with (0 :: seq 1 2).
  rewrite retry_loop_step. unfold head_sleep, returning, bind, ret. simpl app.
  now rewrite H.
Qed.

Lemma five_keys_shape (st : ExecutionStats) :
  five_keys st ->
  exists b o c p x,
    st.(category_counts) =
    [("Builder", b); ("Owner", o); ("Competitor", c); ("Partner", p); ("Other", x)].
Proof.
  unfold five_keys, five_categories. intro H.
  destruct (category_counts st) as [| [k1 b] [| [k2 o] [| [k3 c] [| [k4 p] [| [k5 x] [| ? ?]]]]]];
    simpl in H; try discriminate.
  injection H as -> -> -> -> ->. eauto 6.
Qed.

Lemma increment_category_step (category : string) (st : ExecutionStats) :
  five_keys st -> In category five_categories ->
  five_keys (increment_category category st)
  /\ category_total (increment_category category st) = S (category_total st)
  /\ (increment_category category st).(speakers_processed) = st.(speakers_processed)
  /\ (increment_category category st).(total_speakers_scanned) = st.(total_speakers_scanned)
  /\ (increment_category category st).(emails_generated) = st.(emails_generated).
Proof.
  intros Hk Hin. destruct (five_keys_shape st Hk) as [b [o [c [p [x E]]]]].
  unfold increment_category, five_keys, category_total.
  unfold five_categories in Hin. simpl in Hin.
  destruct Hin as [<- | [<- | [<- | [<- | [<- | []]]]]]; rewrite E; simpl;
    repeat split; lia.
Qed.

Ltac run_m :=
  cbv beta iota zeta
    delta [bind ret raise try_except sleep emit get modify update_stats fst snd negb].

Lemma five_categories_truthy (category : string) :
  In category five_categories -> Str.truthy category = true.
Proof.
  unfold five_categories. simpl.
  intros [<- | [<- | [<- | [<- | [<- | []]]]]]; reflexivity.
Qed.

Lemma process_speaker_step gemini_client speaker_data s :
  five_keys (stats_of s) ->
  exists result s',
    process_speaker gemini_client speaker_data s = (Ok result, s')
    /\ record_step (stats_of s) (stats_of s') result.
Proof.
  intro Hk. destruct s as [w t].
  destruct (categorize_company_total speaker_data.(company) speaker_data.(title)
              gemini_client (w, (t ++ [EvSleep config.API_DELAY]) ++ [EvCall]))
    as [category [s2 [Hcat Hin]]].
  pose proof (keeps_stats_categorize _ _ _ _ _ _ Hcat) as Hs2.
  pose proof (api_call_with_retry_returns
                (categorize_company speaker_data.(company) speaker_data.(title)
                   gemini_client)
                (w, t ++ [EvSleep config.API_DELAY]) category s2 Hcat) as Hcall.
  destruct s2 as [w2 t2]. unfold stats_of in *. simpl fst in *.
  destruct (increment_category_step category (stats w2)) as [K1 [K2 [K3 [K4 K5]]]];
    [rewrite Hs2; exact Hk | exact Hin |].
  unfold process_speaker. run_m. rewrite Hcall. run_m.
  rewrite (five_categories_truthy _ Hin). run_m.
  destruct (is_target_category category); run_m;
    simpl (requests _); simpl (stats _).
  - match goal with
    | |- context [api_call_with_retry _ (?w3, _)] =>
        destruct (generate_email_total speaker_data category gemini_client
                    (w3, t2 ++ [EvCall])) as [email [[w4 t4] Hgen]];
        pose proof (keeps_stats_generate_email _ _ _ _ _ _ Hgen) as Hs4;
        pose proof (api_call_with_retry_returns
                      (generate_email speaker_data category gemini_client)
                      (w3, t2) email (w4, t4) Hgen) as Hcall2
    end.
    rewrite Hcall2. run_m.
    eexists; eexists; split; [reflexivity |].
    unfold stats_of in Hs4. simpl in Hs4. simpl. rewrite Hs4.
    unfold record_step. simpl. rewrite <- Hs2. repeat split; trivial; lia.
  - eexists; eexists; split; [reflexivity |].
    unfold record_step. simpl. rewrite <- Hs2. repeat split; trivial; lia.
Qed.

Lemma add_one_keys (key : string) (d : list (string * nat)) :
  map fst (add_one key d) = map fst d.
Proof.
  induction d as [| [k v] rest IH]; trivial. simpl.
  destruct (String.eqb key k); simpl; congruence.
Qed.

Lemma add_one_count (key : string) (d : list (string * nat)) :
  has_key key d = true -> count_of key (add_one key d) = S (count_of key d).
Proof.
  induction d as [| [k v] rest IH]; [discriminate |]. simpl.
  destruct (String.eqb key k) eqn:E; simpl; rewrite E; trivial.
Qed.

Lemma add_one_other (key other : string) (d : list (string * nat)) :
  other <> key -> count_of other (add_one key d) = count_of other d.
Proof.
  intro Hne. induction d as [| [k v] rest IH]; trivial. simpl.
  destruct (String.eqb key k) eqn:E; simpl.
  - apply String.eqb_eq in E. subst k.
    replace (String.eqb other key) with false; trivial.
    symmetry. now apply String.eqb_neq.
  - destruct (String.eqb other k); trivial.
Qed.

Lemma five_keys_has_key (category : string) (st : ExecutionStats) :
  five_keys st -> In category five_categories ->
  has_key category st.(category_counts) = true.
Proof.
  intros Hk Hin. destruct (five_keys_shape st Hk) as [b [o [c [p [x E]]]]].
  rewrite E. unfold five_categories in Hin. simpl in Hin.
  destruct Hin as [<- | [<- | [<- | [<- | [<- | []]]]]]; reflexivity.
Qed.

(** One record, counter by counter: the category that the record gets
    is one of the five, its count moves by one, no other count moves,
    the processed counter moves by one and the e-mail counter moves by
    one exactly when there is a row. *)
Lemma process_speaker_counts gemini_client speaker_data s :
  five_keys (stats_of s) ->
  exists result s1 category,
    process_speaker gemini_client speaker_data s = (Ok result, s1)
    /\ In category five_categories
    /\ (stats_of s1).(category_counts)
       = add_one category (stats_of s).(category_counts)
    /\ (stats_of s1).(speakers_processed) = S (stats_of s).(speakers_processed)
    /\ (stats_of s1).(emails_generated)
       = (stats_of s).(emails_generated) + made result.
Proof.
  intro Hk. destruct s as [w t].
  destruct (categorize_company_total speaker_data.(company) speaker_data.(title)
              gemini_client (w, (t ++ [EvSleep config.API_DELAY]) ++ [EvCall]))
    as [category [s2 [Hcat Hin]]].
  pose proof (keeps_stats_categorize _ _ _ _ _ _ Hcat) as Hs2.
  pose proof (api_call_with_retry_returns
                (categorize_company speaker_data.(company) speaker_data.(title)
                   gemini_client)
                (w, t ++ [EvSleep config.API_DELAY]) category s2 Hcat) as Hcall.
  destruct s2 as [w2 t2]. unfold stats_of in *. simpl fst in *.
  assert (Hinc : increment_category category (stats w2)
                 = {| total_speakers_scanned := (stats w).(total_speakers_scanned);
                      speakers_processed := (stats w).(speakers_processed);
                      category_counts := add_one category (stats w).(category_counts);
                      api_errors := (stats w).(api_errors);
                      emails_generated := (stats w).(emails_generated);
                      speakers_skipped := (stats w).(speakers_skipped) |}).
  { unfold increment_category. rewrite Hs2.
    now rewrite (five_keys_has_key category (stats w) Hk Hin). }
  unfold process_speaker. run_m. rewrite Hcall. run_m.
  rewrite (five_categories_truthy _ Hin). run_m.
  destruct (is_target_category category); run_m;
    simpl (requests _); simpl (stats _).
  - match goal with
    | |- context [api_call_with_retry _ (?w3, _)] =>
        destruct (generate_email_total speaker_data category gemini_client
                    (w3, t2 ++ [EvCall])) as [email [[w4 t4] Hgen]];
        pose proof (keeps_stats_generate_email _ _ _ _ _ _ Hgen) as Hs4;
        pose proof (api_call_with_retry_returns
                      (generate_email speaker_data category gemini_client)
                      (w3, t2) email (w4, t4) Hgen) as Hcall2
    end.
    rewrite Hcall2. run_m.
    eexists; eexists; exists category; split; [reflexivity |].
    unfold stats_of in Hs4. simpl in Hs4. simpl. rewrite Hs4, Hinc. simpl.
    repeat split; trivial; lia.
  - eexists; eexists; exists category; split; [reflexivity |].
    simpl. rewrite Hinc. simpl. repeat split; trivial; lia.
Qed.

Lemma gather_process_speakers gemini_client speakers s :
  five_keys (stats_of s) ->
  exists results s',
    gather (map (process_speaker gemini_client) speakers) s = (Ok results, s')
    /\ five_keys (stats_of s')
    /\ (stats_of s').(speakers_processed)
       = (stats_of s).(speakers_processed) + List.length speakers
    /\ category_total (stats_of s') = category_total (stats_of s) + List.length speakers
    /\ (stats_of s').(total_speakers_scanned) = (stats_of s).(total_speakers_scanned)
    /\ (stats_of s').(emails_generated)
       = (stats_of s).(emails_generated) + List.length (valid_results_of results).
Proof.
  revert s. induction speakers as [| sp rest IH]; intros s Hk.
  - exists [], s. simpl. repeat split; trivial; lia.
  - destruct (process_speaker_step gemini_client sp s Hk)
      as [r [s1 [E [K1 [K2 [K3 [K4 K5]]]]]]].
    destruct (IH s1 K1) as [rs [s2 [E2 [J1 [J2 [J3 [J4 J5]]]]]]].
    exists (Ok r :: rs), s2. simpl. rewrite E, E2.
    split; [reflexivity | split; [exact J1 |]].
    destruct r; simpl; repeat split; lia.
Qed.

Lemma new_stats_five_keys : five_keys new_stats.
Proof. reflexivity. Qed.

(** What a run with a key and at least one speaker leaves in the
    statistics. *)
Lemma run_with_speakers api_key speakers gemini_client :
  truthy_key api_key = true -> speakers <> [] ->
  exists outcome s',
    run api_key speakers gemini_client = (Ok outcome, s')
    /\ (stats_of s').(total_speakers_scanned) = List.length speakers
    /\ (stats_of s').(speakers_processed) = List.length (firstn 5 speakers)
    /\ category_total (stats_of s') = List.length (firstn 5 speakers)
    /\ (stats_of s').(emails_generated) = List.length outcome.(valid_results)
    /\ outcome.(report) <> None.
Proof.
  intros Hkey Hne. unfold run, main. rewrite Hkey. simpl negb. cbv iota.
  destruct speakers as [| sp rest]; [congruence |].
  run_m.
  match goal with
  | |- context [gather ?tasks ?s0] =>
      destruct (gather_process_speakers gemini_client (firstn 5 (sp :: rest)) s0)
        as [rs [s1 [E [J1 [J2 [J3 [J4 J5]]]]]]]; [reflexivity |];
      rewrite E
  end.
  unfold print_execution_report. run_m.
  eexists; eexists; split; [reflexivity |].
  split; [exact J4 | split; [exact J2 | split; [exact J3 | split; [exact J5 |]]]].
  discriminate.
Qed.

Lemma run_without_speakers api_key gemini_client :
  run api_key [] gemini_client
  = (Ok {| valid_results := []; saved_csv := None; report := None |},
     (initial_world, [])).
Proof.
  unfold run, main. destruct (truthy_key api_key); reflexivity.
Qed.

Lemma run_without_key speakers gemini_client api_key :
  truthy_key api_key = false ->
  run api_key speakers gemini_client
  = (Ok {| valid_results := []; saved_csv := None; report := None |},
     (initial_world, [])).
Proof.
  intro H. unfold run, main. rewrite H. reflexivity.
Qed.

(** C10.  Every run returns, and at its end the e-mail counter equals the
    number of rows collected for the output file, the processed counter
    equals the sum of the five per-category counts, and both equal the
    number of records handed to [process_speaker]: the first five of the
    list with a key, none without.  Record by record: from any
    statistics with the five keys, [process_speaker] returns, the record
    gets one of the five categories, the count of this category moves by
    one and no other count moves, the processed counter moves by one,
    and the e-mail counter moves by one exactly when there is a row. *)
Theorem run_statistics_consistent (api_key : option string) (speakers : list Speaker)
    (gemini_client : GeminiClient) :
  (exists outcome s',
     run api_key speakers gemini_client = (Ok outcome, s')
     /\ (stats_of s').(emails_generated) = List.length outcome.(valid_results)
     /\ (stats_of s').(speakers_processed) = category_total (stats_of s')
     /\ (stats_of s').(speakers_processed)
        = (if truthy_key api_key then List.length (firstn 5 speakers) else 0))
  /\ (forall speaker_data s,
        five_keys (stats_of s) ->
        exists result s1 category,
          process_speaker gemini_client speaker_data s = (Ok result, s1)
          /\ In category five_categories
          /\ five_keys (stats_of s1)
          /\ count_of category (stats_of s1).(category_counts)
             = S (count_of category (stats_of s).(category_counts))
          /\ (forall other, other <> category ->
                count_of other (stats_of s1).(category_counts)
                = count_of other (stats_of s).(category_counts))
          /\ (stats_of s1).(speakers_processed)
             = S (stats_of s).(speakers_processed)
          /\ (stats_of s1).(emails_generated)
             = (stats_of s).(emails_generated)
               + match result with Some _ => 1 | None => 0 end).
Proof.
  split.
  - destruct (truthy_key api_key) eqn:Hkey.
    + destruct speakers as [| sp rest].
      * rewrite run_without_speakers. eexists; eexists; split; [reflexivity |].
        repeat split.
      * destruct (run_with_speakers api_key (sp :: rest) gemini_client Hkey)
          as [out [s' [E [H1 [H2 [H3 [H4 H5]]]]]]]; [discriminate |].
        exists out, s'. split; [exact E |].
        split; [exact H4 |]. split; [congruence | exact H2].
    + rewrite run_without_key by trivial.
      eexists; eexists; split; [reflexivity |]. repeat split.
  - intros speaker_data s Hk.
    destruct (process_speaker_counts gemini_client speaker_data s Hk)
      as [result [s1 [category [E [Hin [Hc [Hp He]]]]]]].
    exists result, s1, category. split; [exact E |]. split; [exact Hin |].
    pose proof (five_keys_has_key category _ Hk Hin) as Hkey.
    split; [unfold five_keys; rewrite Hc, add_one_keys; exact Hk |].
    split; [rewrite Hc; now apply add_one_count |].
    split; [intros other Hne; rewrite Hc; now apply add_one_other |].
    split; [exact Hp | exact He].
Qed.

Lemma run_statistics_consistent_witness :
  exists result s1 category,
    process_speaker (fun _ _ => Raise "503 Service Unavailable") john_smith
      (initial_world, [])
    = (Ok result, s1)
    /\ In category five_categories
    /\ five_keys (stats_of s1)
    /\ count_of category (stats_of s1).(category_counts)
       = S (count_of category new_stats.(category_counts))
    /\ (forall other, other <> category ->
          count_of other (stats_of s1).(category_counts)
          = count_of other new_stats.(category_counts))
    /\ (stats_of s1).(speakers_processed) = 1
    /\ (stats_of s1).(emails_generated)
       = 0 + match result with Some _ => 1 | None => 0 end.
Proof.
  apply (proj2 (run_statistics_consistent (Some "key") [john_smith]
                  (fun _ _ => Raise "503 Service Unavailable"))
           john_smith (initial_world, [])).
  reflexivity.
Defined.

(** C9, as amended.  A run over no speaker record returns without an
    exception, collects no row, writes no file, counts no e-mail and
    makes no request; it returns at the check of the speaker list, before
    the report: no report is printed. *)
Theorem run_zero_records (api_key : option string) (gemini_client : GeminiClient) :
  exists outcome s',
    run api_key [] gemini_client = (Ok outcome, s')
    /\ outcome.(valid_results) = []
    /\ outcome.(saved_csv) = None
    /\ (stats_of s').(emails_generated) = 0
    /\ (fst s').(requests) = 0
    /\ outcome.(report) = None.
Proof.
  rewrite run_without_speakers. eexists; eexists; split; [reflexivity |].
  repeat split.
Qed.

(** C9 as stated fails: with a key and no speaker record, the run
    returns and no report has been printed. *)
Lemma run_zero_records_no_report :
  match fst (run (Some "key") [] (fun _ _ => Ok "Builder")) with
  | Ok outcome => outcome.(report) = None /\ ~ (exists shown, outcome.(report) = Some shown)
  | Raise _ => False
  end.
Proof.
  simpl. split; [reflexivity |]. intros [shown H]. discriminate.
Qed.

(** C1, the code at six records.  Whatever the completion service does,
    the run scans six records and classifies five of them: [main] keeps
    the first five records of the list ([speakers[:5]]) and the sixth
    is never handed to [process_speaker]. *)
Theorem run_six_speakers_processes_five (gemini_client : GeminiClient) :
  exists outcome s',
    run (Some "key") six_speakers gemini_client = (Ok outcome, s')
    /\ (stats_of s').(total_speakers_scanned) = 6
    /\ (stats_of s').(speakers_processed) = 5
    /\ category_total (stats_of s') = 5.
Proof.
  destruct (run_with_speakers (Some "key") six_speakers gemini_client)
    as [out [s' [E [H1 [H2 [H3 [H4 H5]]]]]]].
  - reflexivity.
  - discriminate.
  - exists out, s'. split; [exact E |]. split; [exact H1 | split; [exact H2 | exact H3]].
Qed.

(** C4, the code at a long subject.  The row of the run carries the
    subject of the reply as it is, 110 characters long, above
    [EMAIL_SUBJECT_MAX_LENGTH]: [process_speaker] builds the row as a
    plain dictionary and nothing checks it against [ProcessedSpeaker]. *)
Theorem run_emits_long_subject :
  exists row s',
    run (Some "key")
      [{| name := "John Smith"; title := "Project Manager"; company := "ABC Construction" |}]
      long_subject_client
    = (Ok {| valid_results := [row]; saved_csv := Some [row];
             report := Some {| shown_scanned := 1; shown_processed := 1;
                               shown_emails := 1; shown_skipped := 0;
                               shown_categories := [("Builder", 1)];
                               shown_api_errors := 0;
                               shown_success_rate := Some (100 # 1)%Q;
                               shown_no_emails_warning := false |} |}, s')
    /\ String.length row.(Email_Subject) = 110
    /\ config.EMAIL_SUBJECT_MAX_LENGTH < String.length row.(Email_Subject).
Proof.
  eexists; eexists. split; [vm_compute; reflexivity |].
  split; [reflexivity | vm_compute; lia].
Qed.

(** ** Substrings *)

Open Scope string_scope.

Lemma append_nil_r (s : string) : s ++ "" = s.
Proof. induction s as [| c s IH]; simpl; congruence. Qed.

Lemma append_assoc (a b c : string) : (a ++ b) ++ c = a ++ b ++ c.
Proof. induction a as [| x a IH]; simpl; congruence. Qed.

Lemma occurs_in_refl (s : string) : occurs_in s s.
Proof. exists "", "". simpl. now rewrite append_nil_r. Qed.

Lemma occurs_in_trans (x y z : string) :
  occurs_in x y -> occurs_in y z -> occurs_in x z.
Proof.
  intros [a [b ->]] [c [d ->]]. exists (c ++ a), (b ++ d).
  now rewrite !append_assoc.
Qed.

Lemma occurs_in_prefix (x w : string) : occurs_in x (x ++ w).
Proof. exists "", w. reflexivity. Qed.

Lemma occurs_in_suffix (w x : string) : occurs_in x (w ++ x).
Proof. exists w, "". now rewrite append_nil_r. Qed.

Lemma occurs_in_cons (c : ascii) (x s : string) :
  occurs_in x s -> occurs_in x (String c s).
Proof. intros [a [b ->]]. exists (String c a), b. reflexivity. Qed.

Lemma startswith_iff (s p : string) :
  Str.startswith s p = true <-> exists r, s = p ++ r.
Proof.
  revert s. induction p as [| a p IH]; intro s.
  - simpl. split; [intros _; exists s; reflexivity | trivial].
  - destruct s as [| b s]; simpl.
    + split; [discriminate | intros [r H]; discriminate].
    + rewrite andb_true_iff, Ascii.eqb_eq, IH. split.
      * intros [-> [r ->]]. exists r. reflexivity.
      * intros [r H]. injection H as -> ->. eauto.
Qed.

Lemma contains_iff (needle s : string) :
  Str.contains needle s = true <-> occurs_in needle s.
Proof.
  induction s as [| c t IH].
  - simpl. rewrite orb_false_r, startswith_iff. split.
    + intros [r H]. exists "", r. exact H.
    + intros [a [b H]]. destruct a; [| discriminate]. exists b. exact H.
  - simpl. rewrite orb_true_iff, startswith_iff, IH. split.
    + intros [[r H] | H].
      * exists "", r. exact H.
      * now apply occurs_in_cons.
    + intros [a [b H]]. destruct a as [| x a].
      * left. exists b. exact H.
      * right. injection H as _ ->. exists a, b. reflexivity.
Qed.

Lemma contains_false_mono (needle x s : string) :
  occurs_in x s -> Str.contains needle s = false -> Str.contains needle x = false.
Proof.
  intros Hx Hs. destruct (Str.contains needle x) eqn:E; trivial.
  apply contains_iff in E.
  assert (X : Str.contains needle s = true)
    by (apply contains_iff; eapply occurs_in_trans; eauto).
  congruence.
Qed.

Lemma lower_append (a b : string) : Str.lower (a ++ b) = Str.lower a ++ Str.lower b.
Proof. induction a as [| c a IH]; simpl; congruence. Qed.

(** Containment survives lower-casing: a keyword found in the title as
    it is written is found when letter case is ignored. *)
Lemma contains_lower (needle s : string) :
  Str.contains needle s = true -> contains_ci needle s.
Proof.
  unfold contains_ci. rewrite !contains_iff. intros [a [b ->]].
  exists (Str.lower a), (Str.lower b). now rewrite !lower_append.
Qed.

(** ** Stripping *)

Lemma rstrip_nonspace (c : ascii) (s : string) :
  Str.is_space c = false -> Str.rstrip (String c s) = String c (Str.rstrip s).
Proof. intro H. simpl. now rewrite H. Qed.

Lemma rstrip_prefix (s : string) : exists w, s = Str.rstrip s ++ w.
Proof.
  induction s as [| c t [w IH]].
  - exists "". reflexivity.
  - simpl. destruct (Str.is_space c && Str.is_empty (Str.rstrip t)).
    + exists (String c t). reflexivity.
    + exists w. simpl. congruence.
Qed.

Lemma lstrip_suffix (s : string) : exists w, s = w ++ Str.lstrip s.
Proof.
  induction s as [| c t [w IH]].
  - exists "". reflexivity.
  - simpl. destruct (Str.is_space c).
    + exists (String c w). simpl. congruence.
    + exists "". reflexivity.
Qed.

Lemma rstrip_occurs_in (s : string) : occurs_in (Str.rstrip s) s.
Proof.
  destruct (rstrip_prefix s) as [w H]. exists "", w. exact H.
Qed.

Lemma strip_occurs_in (s : string) : occurs_in (Str.strip s) s.
Proof.
  unfold Str.strip. apply occurs_in_trans with (Str.rstrip s).
  - destruct (lstrip_suffix (Str.rstrip s)) as [w H]. exists w, "".
    now rewrite append_nil_r.
  - apply rstrip_occurs_in.
Qed.

Lemma rstrip_idempotent (s : string) : Str.rstrip (Str.rstrip s) = Str.rstrip s.
Proof.
  induction s as [| c t IH]; simpl; trivial.
  destruct (Str.is_space c && Str.is_empty (Str.rstrip t)) eqn:E; trivial.
  simpl. rewrite IH, E. reflexivity.
Qed.

Lemma rstrip_append (a b : string) :
  Str.rstrip b <> "" -> Str.rstrip (a ++ b) = a ++ Str.rstrip b.
Proof.
  intro Hb. induction a as [| c a IH]; simpl; trivial.
  rewrite IH.
  replace (Str.is_empty (a ++ Str.rstrip b)) with false.
  - now rewrite andb_false_r.
  - destruct a; simpl; trivial. destruct (Str.rstrip b); simpl; congruence.
Qed.

Lemma strip_space_cons (c : ascii) (s : string) :
  Str.is_space c = true -> Str.strip (String c s) = Str.strip s.
Proof.
  intro H. unfold Str.strip. simpl. rewrite H. simpl.
  destruct (Str.rstrip s) eqn:E; simpl; trivial. now rewrite H.
Qed.

Lemma strip_rstrip (s : string) : Str.strip (Str.rstrip s) = Str.strip s.
Proof. unfold Str.strip. now rewrite rstrip_idempotent. Qed.

(** ** Lines *)

Lemma contains_LF_cons (c : ascii) (s : string) :
  Str.contains LF (String c s) = Ascii.eqb c Str.newline || Str.contains LF s.
Proof.
  unfold LF. simpl. rewrite andb_true_r. now rewrite Ascii.eqb_sym.
Qed.

Lemma no_newline_cons (c : ascii) (s : string) :
  no_newline (String c s) <-> Ascii.eqb c Str.newline = false /\ no_newline s.
Proof. unfold no_newline. rewrite contains_LF_cons. apply orb_false_iff. Qed.

Lemma split_lines_single (s : string) : no_newline s -> Str.split_lines s = [s].
Proof.
  induction s as [| c t IH]; intro H; trivial.
  apply no_newline_cons in H. destruct H as [Hc Ht].
  simpl. rewrite Hc, (IH Ht). reflexivity.
Qed.

Lemma split_lines_append (a b : string) :
  no_newline a -> Str.split_lines (a ++ LF ++ b) = a :: Str.split_lines b.
Proof.
  induction a as [| c a IH]; intro H.
  - reflexivity.
  - apply no_newline_cons in H. destruct H as [Hc Ha].
    simpl. rewrite Hc. change (String Str.newline b) with (LF ++ b).
    rewrite (IH Ha). reflexivity.
Qed.

(** Every line of a text occurs in the text; the first one starts it. *)
Lemma split_lines_shape (s : string) :
  exists first rest,
    Str.split_lines s = first :: rest
    /\ (exists w, s = first ++ w)
    /\ forall l, In l rest -> occurs_in l s.
Proof.
  induction s as [| c t [h [r [E [[w Hw] Hr]]]]].
  - exists "", []. split; [reflexivity | split; [exists ""; reflexivity | intros l []]].
  - simpl. destruct (Ascii.eqb c Str.newline).
    + exists "", (h :: r). split; [now rewrite E | split].
      * exists (String c t). reflexivity.
      * intros l [<- | Hl]; apply occurs_in_cons.
        -- exists "", w. exact Hw.
        -- now apply Hr.
    + rewrite E. exists (String c h), r. split; [reflexivity | split].
      * exists w. simpl. congruence.
      * intros l Hl. apply occurs_in_cons. now apply Hr.
Qed.

Lemma split_lines_occur (s l : string) : In l (Str.split_lines s) -> occurs_in l s.
Proof.
  destruct (split_lines_shape s) as [h [r [E [[w Hw] Hr]]]]. rewrite E.
  intros [<- | Hl].
  - exists "", w. exact Hw.
  - now apply Hr.
Qed.

(** ** Removing a marker *)

Lemma remove_all_absent (old s : string) :
  Str.contains old s = false -> Str.remove_all old s = s.
Proof.
  unfold Str.remove_all. induction s as [| c t IH]; intro H; trivial.
  simpl in H. apply orb_false_iff in H. destruct H as [H1 H2].
  simpl. destruct old as [| a old']; [discriminate |].
  simpl in H1 |- *. rewrite H1. now rewrite (IH H2).
Qed.

(** ** The e-mail parser *)

Lemma startswith_append (p r : string) : Str.startswith (p ++ r) p = true.
Proof. apply startswith_iff. exists r. reflexivity. Qed.

Lemma occurs_in_append_r (w x s : string) : occurs_in x s -> occurs_in x (w ++ s).
Proof.
  intros [a [b ->]]. exists (w ++ a), b. now rewrite append_assoc.
Qed.

Lemma contains_append (a x b : string) : Str.contains x (a ++ x ++ b) = true.
Proof. apply contains_iff. exists a, b. reflexivity. Qed.

Lemma strip_subject_line (r : string) :
  Str.strip ("SUBJECT:" ++ r) = "SUBJECT:" ++ Str.rstrip r.
Proof.
  unfold Str.strip. simpl append. rewrite !rstrip_nonspace by reflexivity.
  reflexivity.
Qed.

Lemma strip_body_line (r : string) :
  Str.strip ("BODY:" ++ r) = "BODY:" ++ Str.rstrip r.
Proof.
  unfold Str.strip. simpl append. rewrite !rstrip_nonspace by reflexivity.
  reflexivity.
Qed.

Lemma remove_subject_marker (r : string) :
  Str.remove_all "SUBJECT:" ("SUBJECT:" ++ r) = Str.remove_all "SUBJECT:" r.
Proof. reflexivity. Qed.

Lemma remove_body_marker (r : string) :
  Str.remove_all "BODY:" ("BODY:" ++ r) = Str.remove_all "BODY:" r.
Proof. reflexivity. Qed.

Lemma parse_line_subject (st : ParseState) (r : string) :
  Str.contains "SUBJECT:" r = false ->
  parse_line st ("SUBJECT:" ++ r)
  = {| ps_subject := Str.strip r; ps_body := st.(ps_body);
       current_section := Some "subject" |}.
Proof.
  intro H. unfold parse_line. cbv zeta.
  rewrite strip_subject_line, startswith_append, remove_subject_marker.
  rewrite remove_all_absent, strip_rstrip; trivial.
  eapply contains_false_mono; [apply rstrip_occurs_in | exact H].
Qed.

Lemma parse_line_body (st : ParseState) (r : string) :
  Str.contains "BODY:" r = false ->
  parse_line st ("BODY:" ++ r)
  = {| ps_subject := st.(ps_subject); ps_body := Str.strip r;
       current_section := Some "body" |}.
Proof.
  intro H. unfold parse_line. cbv zeta.
  rewrite strip_body_line.
  change (Str.startswith ("BODY:" ++ Str.rstrip r) "SUBJECT:") with false. cbv iota.
  rewrite startswith_append, remove_body_marker.
  rewrite remove_all_absent, strip_rstrip; trivial.
  eapply contains_false_mono; [apply rstrip_occurs_in | exact H].
Qed.

Lemma no_newline_subject_line (X : string) : no_newline X -> no_newline ("SUBJECT: " ++ X).
Proof. intro H. simpl append. rewrite !no_newline_cons. tauto. Qed.

Lemma no_newline_body_line (Y : string) : no_newline Y -> no_newline ("BODY:" ++ Y).
Proof. intro H. simpl append. rewrite !no_newline_cons. tauto. Qed.

Lemma no_newline_space (Y : string) : no_newline Y -> no_newline (" " ++ Y).
Proof. intro H. simpl append. rewrite !no_newline_cons. tauto. Qed.

Lemma contains_after_space (marker s : string) :
  Str.startswith (" " ++ s) marker = false ->
  Str.contains marker s = false -> Str.contains marker (" " ++ s) = false.
Proof. intros H1 H2. simpl append in *. simpl. now rewrite H1, H2. Qed.

Lemma strip_after_space (s : string) : Str.strip (" " ++ s) = Str.strip s.
Proof. apply strip_space_cons. reflexivity. Qed.

(** The parser on the two lines of a well-formed reply. *)
Lemma parse_two_lines (X r : string) :
  no_newline X -> no_newline r ->
  Str.contains "SUBJECT:" X = false -> Str.contains "BODY:" r = false ->
  _parse_email_response (("SUBJECT: " ++ X) ++ LF ++ "BODY:" ++ r)
  = (Str.strip X, Str.strip r).
Proof.
  intros HX Hr HmX Hmr. unfold _parse_email_response. cbv zeta.
  rewrite split_lines_append by now apply no_newline_subject_line.
  rewrite split_lines_single by now apply no_newline_body_line.
  simpl fold_left.
  pose proof (parse_line_subject initial_parse_state (" " ++ X)) as P1.
  unfold initial_parse_state in P1. simpl append in *.
  rewrite P1 by (apply (contains_after_space "SUBJECT:" X); trivial).
  pose proof (parse_line_body) as P2. simpl append in P2.
  rewrite P2 by trivial.
  cbn [ps_subject ps_body]. f_equal. exact (strip_after_space X).
Qed.

Lemma parse_reply (X Y : string) :
  no_newline X -> no_newline Y ->
  Str.contains "SUBJECT:" X = false -> Str.contains "BODY:" Y = false ->
  _parse_email_response (reply_of X Y) = (Str.strip X, Str.strip Y).
Proof.
  intros HX HY HmX HmY. unfold reply_of.
  change ("BODY: " ++ Y) with ("BODY:" ++ " " ++ Y).
  rewrite <- append_assoc.
  rewrite parse_two_lines; trivial.
  now rewrite strip_after_space.
Qed.

Lemma strip_reply (X Y : string) :
  Str.strip (reply_of X Y)
  = ("SUBJECT: " ++ X) ++ LF ++ "BODY:" ++ Str.rstrip (" " ++ Y).
Proof.
  unfold Str.strip, reply_of.
  replace ("SUBJECT: " ++ X ++ LF ++ "BODY: " ++ Y)
    with ((("SUBJECT: " ++ X) ++ LF) ++ "BODY: " ++ Y)
    by now rewrite !append_assoc.
  assert (Hb : Str.rstrip ("BODY: " ++ Y) = "BODY:" ++ Str.rstrip (" " ++ Y)).
  { simpl append. rewrite !rstrip_nonspace by reflexivity. reflexivity. }
  rewrite rstrip_append by (rewrite Hb; discriminate).
  rewrite Hb, !append_assoc. reflexivity.
Qed.

Lemma parse_stripped_reply (X Y : string) :
  no_newline X -> no_newline Y ->
  Str.contains "SUBJECT:" X = false -> Str.contains "BODY:" Y = false ->
  _parse_email_response (Str.strip (reply_of X Y)) = (Str.strip X, Str.strip Y).
Proof.
  intros HX HY HmX HmY. rewrite strip_reply.
  rewrite parse_two_lines; trivial.
  - now rewrite strip_rstrip, strip_after_space.
  - eapply contains_false_mono; [apply rstrip_occurs_in |].
    now apply no_newline_space.
  - eapply contains_false_mono; [apply rstrip_occurs_in |].
    now apply contains_after_space.
Qed.

(** A text without a marker has no line that starts with it. *)
Lemma no_marker_line (marker content l : string) :
  Str.contains marker content = false ->
  In l (Str.split_lines content) ->
  Str.startswith (Str.strip l) marker = false.
Proof.
  intros Hc Hl. destruct (Str.startswith (Str.strip l) marker) eqn:E; trivial.
  apply startswith_iff in E. destruct E as [r E].
  assert (X : Str.contains marker content = true).
  { apply contains_iff.
    apply occurs_in_trans with (Str.strip l).
    - exists "", r. exact E.
    - apply occurs_in_trans with l; [apply strip_occurs_in |].
      now apply split_lines_occur. }
  congruence.
Qed.

Lemma fold_keeps_subject (lines : list string) (st : ParseState) :
  (forall l, In l lines -> Str.startswith (Str.strip l) "SUBJECT:" = false) ->
  (fold_left parse_line lines st).(ps_subject) = st.(ps_subject).
Proof.
  revert st. induction lines as [| l rest IH]; intros st H; trivial.
  simpl fold_left. rewrite IH by (intros; apply H; now right).
  unfold parse_line. cbv zeta. rewrite (H l) by now left.
  destruct (Str.startswith (Str.strip l) "BODY:"); trivial.
  destruct (_ && _); trivial.
Qed.

Lemma fold_keeps_body (lines : list string) (st : ParseState) :
  (forall l, In l lines -> Str.startswith (Str.strip l) "BODY:" = false) ->
  in_body_section st = false ->
  (fold_left parse_line lines st).(ps_body) = st.(ps_body).
Proof.
  revert st. induction lines as [| l rest IH]; intros st H Hs; trivial.
  simpl fold_left.
  assert (Hl : Str.startswith (Str.strip l) "BODY:" = false) by (apply H; now left).
  assert (Hstep : (parse_line st l).(ps_body) = st.(ps_body)
                  /\ in_body_section (parse_line st l) = false).
  { unfold parse_line. cbv zeta. rewrite Hl.
    destruct (Str.startswith (Str.strip l) "SUBJECT:"); [split; reflexivity |].
    unfold in_body_section in Hs. rewrite Hs. simpl. split; trivial. }
  destruct Hstep as [Hb Hs'].
  rewrite IH; trivial. intros; apply H; now right.
Qed.

Lemma parse_without_subject_marker (content : string) :
  Str.contains "SUBJECT:" content = false ->
  fst (_parse_email_response content) = "".
Proof.
  intro H. unfold _parse_email_response. cbv zeta. simpl fst.
  rewrite fold_keeps_subject; trivial.
  intros l Hl. eapply no_marker_line; eauto.
Qed.

Lemma parse_without_body_marker (content : string) :
  Str.contains "BODY:" content = false ->
  snd (_parse_email_response content) = "".
Proof.
  intro H. unfold _parse_email_response. cbv zeta. simpl snd.
  rewrite fold_keeps_body; trivial.
  intros l Hl. eapply no_marker_line; eauto.
Qed.

(** ** The generator on a reply of the service *)

Lemma retrying_returns {W A : Type} (func : M W A) remaining attempt_number s a s' :
  func s = (Ok a, s') -> retrying remaining attempt_number func s = (Ok a, s').
Proof.
  intro H. destruct remaining; simpl; unfold try_except; now rewrite H.
Qed.

Lemma generate_email_on_reply speaker_data category gemini_client s reply :
  gemini_client (fst s).(requests)
    (email_prompt speaker_data.(name) speaker_data.(title) speaker_data.(company) category)
  = Ok reply ->
  fst (generate_email speaker_data category gemini_client s)
  = Ok (email_of_reply speaker_data category reply).
Proof.
  intro H. unfold generate_email. cbv zeta.
  unfold try_except, bind at 1.
  unfold _generate_email_content, retry_stop_after_attempt.
  assert (Honce : exists s',
             _generate_email_content_once speaker_data.(name) speaker_data.(title)
               speaker_data.(company) category gemini_client s
             = (Ok (email_of_reply speaker_data category reply), s')).
  { unfold _generate_email_content_once, generate_content_async, email_of_reply.
    cbv zeta. unfold try_except, bind. rewrite H.
    destruct (_parse_email_response (Str.strip reply)) as [subj bod].
    destruct (Str.truthy subj && Str.truthy bod); unfold ret; eauto. }
  destruct Honce as [s' Honce].
  rewrite (retrying_returns _ _ _ _ _ _ Honce). reflexivity.
Qed.

Lemma email_of_reply_fallback speaker_data category reply :
  fst (_parse_email_response (Str.strip reply)) = ""
  \/ snd (_parse_email_response (Str.strip reply)) = "" ->
  email_of_reply speaker_data category reply
  = _generate_fallback_email speaker_data.(name) speaker_data.(title)
      speaker_data.(company) category.
Proof.
  unfold email_of_reply.
  destruct (_parse_email_response (Str.strip reply)) as [subj bod]. simpl.
  intros [-> | ->]; simpl; trivial. now rewrite andb_false_r.
Qed.

Lemma stripped_without_marker (marker reply : string) :
  Str.contains marker reply = false -> Str.contains marker (Str.strip reply) = false.
Proof.
  intro H. eapply contains_false_mono; [apply strip_occurs_in | exact H].
Qed.

(** The template names the company in its subject and the name, the
    title and the company in its body, for every category. *)
Lemma fallback_email_mentions (name title company category : string) :
  let email := _generate_fallback_email name title company category in
  Str.contains company email.(subject) = true
  /\ Str.contains name email.(body) = true
  /\ Str.contains title email.(body) = true
  /\ Str.contains company email.(body) = true.
Proof.
  unfold _generate_fallback_email.
  destruct (String.eqb category "Builder"); [| destruct (String.eqb category "Owner")];
    cbn [subject body]; rewrite !contains_iff;
    (split; [apply occurs_in_append_r, occurs_in_prefix |]);
    (split; [apply occurs_in_append_r, occurs_in_prefix |]);
    (split; [do 3 apply occurs_in_append_r; apply occurs_in_prefix |]);
    do 5 apply occurs_in_append_r; apply occurs_in_prefix.
Qed.

(** C6, as amended.  For a reply [SUBJECT: X], line feed, [BODY: Y] in
    which [X] and [Y] are ASCII texts that hold no line feed, [X] holds
    no further subject marker and [Y] no further body marker, the parser
    returns [X] and [Y] stripped, on the reply as it is and on the
    stripped reply that the generator hands to it, and [generate_email]
    returns them when neither is empty.  When the service answers with a
    text that lacks the subject marker or the body marker, or with an
    ASCII text whose parse has an empty field, [generate_email] returns
    the template of the category; the body of the template holds the
    name, the title and the company, its subject holds the company. *)
Theorem email_reply_parsed_or_fallback (speaker_data : Speaker) (category : string)
    (gemini_client : GeminiClient) (s : World * Trace) :
  (forall X Y,
      Str.isascii X = true -> Str.isascii Y = true ->
      no_newline X -> no_newline Y ->
      Str.contains "SUBJECT:" X = false -> Str.contains "BODY:" Y = false ->
      _parse_email_response (reply_of X Y) = (Str.strip X, Str.strip Y)
      /\ _parse_email_response (Str.strip (reply_of X Y)) = (Str.strip X, Str.strip Y)
      /\ (gemini_client (fst s).(requests)
            (email_prompt speaker_data.(name) speaker_data.(title)
               speaker_data.(company) category) = Ok (reply_of X Y) ->
          Str.strip X <> "" -> Str.strip Y <> "" ->
          fst (generate_email speaker_data category gemini_client s)
          = Ok {| subject := Str.strip X; body := Str.strip Y |}))
  /\ (forall reply,
      gemini_client (fst s).(requests)
        (email_prompt speaker_data.(name) speaker_data.(title) speaker_data.(company)
           category) = Ok reply ->
      Str.contains "SUBJECT:" reply = false
      \/ Str.contains "BODY:" reply = false
      \/ (Str.isascii reply = true
          /\ (fst (_parse_email_response (Str.strip reply)) = ""
              \/ snd (_parse_email_response (Str.strip reply)) = "")) ->
      fst (generate_email speaker_data category gemini_client s)
      = Ok (_generate_fallback_email speaker_data.(name) speaker_data.(title)
              speaker_data.(company) category))
  /\ (let email := _generate_fallback_email speaker_data.(name) speaker_data.(title)
                     speaker_data.(company) category in
      Str.contains speaker_data.(company) email.(subject) = true
      /\ Str.contains speaker_data.(name) email.(body) = true
      /\ Str.contains speaker_data.(title) email.(body) = true
      /\ Str.contains speaker_data.(company) email.(body) = true).
Proof.
  split; [| split].
  - intros X Y _ _ HX HY HmX HmY. split; [| split].
    + now apply parse_reply.
    + now apply parse_stripped_reply.
    + intros Hreply HsX HsY.
      rewrite (generate_email_on_reply _ _ _ _ _ Hreply). f_equal.
      unfold email_of_reply. rewrite parse_stripped_reply by trivial.
      now rewrite (truthy_true _ HsX), (truthy_true _ HsY).
  - intros reply Hreply Hlack.
    rewrite (generate_email_on_reply _ _ _ _ _ Hreply). f_equal.
    apply email_of_reply_fallback.
    destruct Hlack as [H | [H | [_ [H | H]]]]; auto.
    + left. now apply parse_without_subject_marker, stripped_without_marker.
    + right. now apply parse_without_body_marker, stripped_without_marker.
  - apply fallback_email_mentions.
Qed.

Lemma email_reply_parsed_or_fallback_witness :
  _parse_email_response (reply_of "Track progress from the air " " Visit booth #42.")
  = ("Track progress from the air", "Visit booth #42.")
  /\ fst (generate_email john_smith "Builder"
            (fun _ _ => Ok (reply_of "Track progress from the air " " Visit booth #42."))
            (initial_world, []%list))
     = Ok {| subject := "Track progress from the air"; body := "Visit booth #42." |}
  /\ fst (generate_email john_smith "Builder"
            (fun _ _ => Ok "Sorry, I cannot help with that.") (initial_world, []%list))
     = Ok (_generate_fallback_email "John Smith" "Project Manager" "ABC Construction"
             "Builder").
Proof.
  pose proof (email_reply_parsed_or_fallback john_smith "Builder"
                (fun _ _ => Ok "Sorry, I cannot help with that.")
                (initial_world, []%list)) as [H1 [H2 _]].
  split; [| split].
  - apply (H1 "Track progress from the air " " Visit booth #42."); reflexivity.
  - pose proof (email_reply_parsed_or_fallback john_smith "Builder"
                  (fun _ _ => Ok (reply_of "Track progress from the air "
                                    " Visit booth #42."))
                  (initial_world, []%list)) as [H3 _].
    destruct (H3 "Track progress from the air " " Visit booth #42.")
      as [_ [_ H4]];
      [reflexivity | reflexivity | reflexivity | reflexivity | reflexivity
      | reflexivity |].
    apply H4; [reflexivity | discriminate | discriminate].
  - apply (H2 "Sorry, I cannot help with that."); [reflexivity | left; reflexivity].
Defined.

(** C6 as stated fails on a body of two lines: the parser joins the
    lines with a space, so the body is not [Y] stripped. *)
Lemma parse_joins_body_lines :
  let Y := "line one" ++ LF ++ "line two" in
  _parse_email_response (reply_of "Hello" Y) = ("Hello", "line one line two")
  /\ snd (_parse_email_response (reply_of "Hello" Y)) <> Str.strip Y.
Proof.
  split; [reflexivity | discriminate].
Qed.

(** * Further properties *)

(** ** The classification policy, continued *)

Lemma no_competitor_match_by_list (company title : string) :
  in_manual_list COMPETITORS (Str.lower company) (Str.lower title) = false ->
  no_competitor_match company title.
Proof.
  intros Hc e He. split; intro H;
    assert (X : in_manual_list COMPETITORS (Str.lower company) (Str.lower title) = true)
      by (apply in_manual_list_true; eauto); congruence.
Qed.

(** X1.  A pair in ASCII without an empty field that matches no
    competitor entry and some partner entry is a Partner, and the state
    is unchanged: no request is made. *)
Theorem categorize_company_partner (company title : string)
    (gemini_client : GeminiClient) (s : World * Trace) :
  Str.isascii company = true -> Str.isascii title = true ->
  company <> "" -> title <> "" ->
  no_competitor_match company title ->
  (exists partner, In partner PARTNERS
     /\ (contains_ci partner company \/ contains_ci partner title)) ->
  categorize_company company title gemini_client s = (Ok "Partner", s).
Proof.
  intros _ _ Hc Ht Hno Hp. rewrite (categorize_company_nonempty _ _ _ Hc Ht).
  rewrite (in_manual_list_false COMPETITORS company title Hno).
  apply in_manual_list_true in Hp. now rewrite Hp.
Qed.

Lemma categorize_company_partner_witness :
  categorize_company "Acme Tools" "Microsoft Alliance Lead" (fun _ _ => Ok "Builder")
    (initial_world, []%list) = (Ok "Partner", (initial_world, []%list)).
Proof.
  apply categorize_company_partner.
  - reflexivity.
  - reflexivity.
  - discriminate.
  - discriminate.
  - apply no_competitor_match_by_list. reflexivity.
  - exists "Microsoft". split; [simpl; auto 8 | right; reflexivity].
Defined.

Lemma classify_once_ask company title gemini_client s :
  _classify_with_gemini_once company title gemini_client s
  = ask gemini_client (classify_prompt company title)
      (fun reply => category_of_reply reply title) s.
Proof.
  unfold _classify_with_gemini_once, ask, generate_content_async, after_request,
    category_of_reply.
  cbv zeta. unfold try_except, bind, ret, raise.
  destruct (gemini_client _ _) as [reply | e]; trivial.
  destruct (Str.mem _ _); reflexivity.
Qed.

Lemma email_once_ask speaker_data category gemini_client s :
  _generate_email_content_once speaker_data.(name) speaker_data.(title)
    speaker_data.(company) category gemini_client s
  = ask gemini_client
      (email_prompt speaker_data.(name) speaker_data.(title) speaker_data.(company)
         category)
      (email_of_reply speaker_data category) s.
Proof.
  unfold _generate_email_content_once, ask, generate_content_async, after_request,
    email_of_reply.
  cbv zeta. unfold try_except, bind, ret, raise.
  destruct (gemini_client _ _) as [reply | e]; trivial.
  destruct (_parse_email_response (Str.strip reply)) as [subj bod].
  destruct (Str.truthy subj && Str.truthy bod); reflexivity.
Qed.

Lemma retrying_ext {W A : Type} (f g : M W A) :
  (forall s, f s = g s) ->
  forall remaining attempt_number s,
    retrying remaining attempt_number f s = retrying remaining attempt_number g s.
Proof.
  intro H. induction remaining as [| r IH]; intros a s; simpl; unfold try_except;
    rewrite H; destruct (g s) as [[v | e] s1]; trivial.
  unfold bind, emit. simpl. apply IH.
Qed.

Lemma requests_in_app (t1 t2 : Trace) :
  requests_in (t1 ++ t2)%list = requests_in t1 + requests_in t2.
Proof.
  induction t1 as [| ev t1 IH]; simpl; trivial. destruct ev; simpl; auto.
Qed.

Section Asking.
Context {A : Type}.
Variable gemini_client : GeminiClient.
Variable prompt : string.
Variable read : string -> A.

(** The decorator around one request: after [k] failed requests and a
    reply, the reply is read, [k + 1] requests have been made. *)
Lemma retrying_ask_reply :
  forall k remaining attempt_number s reply,
    k <= remaining ->
    (forall i, i < k -> exists e, gemini_client ((fst s).(requests) + i) prompt = Raise e) ->
    gemini_client ((fst s).(requests) + k) prompt = Ok reply ->
    exists t',
      retrying remaining attempt_number (ask gemini_client prompt read) s
      = (Ok (read reply),
         ({| requests := (fst s).(requests) + k + 1; stats := (fst s).(stats) |},
          (snd s ++ t')%list))
      /\ requests_in t' = k + 1.
Proof.
  induction k as [| k IH]; intros n a s reply Hn Hfail Hok.
  - exists [EvRequest prompt]. split; [| reflexivity].
    apply retrying_returns. unfold ask, after_request.
    rewrite Nat.add_0_r in Hok. rewrite Hok.
    do 3 f_equal. lia.
  - destruct n as [| n]; [lia |].
    destruct (Hfail 0) as [e He]; [lia |]. rewrite Nat.add_0_r in He.
    simpl retrying. unfold try_except at 1. unfold ask at 1. rewrite He.
    unfold bind, emit. cbn [fst snd after_request].
    set (s1 := ({| requests := S (requests (fst s)); stats := stats (fst s) |},
                ((snd s ++ [EvRequest prompt]) ++ [EvBackoff a])%list)).
    destruct (IH n (S a) s1 reply) as [t' [E Hc]].
    + lia.
    + intros i Hi. destruct (Hfail (S i)) as [e' He']; [lia |].
      exists e'. simpl. now rewrite <- Nat.add_succ_r.
    + simpl. now rewrite <- Nat.add_succ_r.
    + exists ([EvRequest prompt] ++ [EvBackoff a] ++ t')%list. split.
      * rewrite E. unfold s1. cbn [fst snd requests stats].
        rewrite <- !app_assoc. do 3 f_equal. lia.
      * rewrite !requests_in_app, Hc. simpl. lia.
Qed.

(** When every one of the [remaining + 1] requests fails, the decorator
    raises after exactly that many requests. *)
Lemma retrying_ask_fail :
  forall remaining attempt_number s,
    (forall i, i <= remaining ->
               exists e, gemini_client ((fst s).(requests) + i) prompt = Raise e) ->
    exists e t',
      retrying remaining attempt_number (ask gemini_client prompt read) s
      = (Raise e,
         ({| requests := (fst s).(requests) + remaining + 1; stats := (fst s).(stats) |},
          (snd s ++ t')%list))
      /\ requests_in t' = remaining + 1.
Proof.
  induction remaining as [| n IH]; intros a s Hfail.
  - destruct (Hfail 0) as [e He]; [lia |]. rewrite Nat.add_0_r in He.
    exists e, [EvRequest prompt]. split; [| reflexivity].
    simpl retrying. unfold try_except, ask, raise, after_request. rewrite He.
    do 3 f_equal. lia.
  - destruct (Hfail 0) as [e He]; [lia |]. rewrite Nat.add_0_r in He.
    simpl retrying. unfold try_except at 1. unfold ask at 1. rewrite He.
    unfold bind, emit. cbn [fst snd after_request].
    set (s1 := ({| requests := S (requests (fst s)); stats := stats (fst s) |},
                ((snd s ++ [EvRequest prompt]) ++ [EvBackoff a])%list)).
    destruct (IH (S a) s1) as [e' [t' [E Hc]]].
    + intros i Hi. destruct (Hfail (S i)) as [e' He']; [lia |].
      exists e'. simpl. now rewrite <- Nat.add_succ_r.
    + exists e', ([EvRequest prompt] ++ [EvBackoff a] ++ t')%list. split.
      * rewrite E. unfold s1. cbn [fst snd requests stats].
        rewrite <- !app_assoc. do 3 f_equal. lia.
      * rewrite !requests_in_app, Hc. simpl. lia.
Qed.

(** Whatever the service does, the decorator makes at least one and at
    most [remaining + 1] requests. *)
Lemma retrying_ask_bound :
  forall remaining attempt_number s r s',
    retrying remaining attempt_number (ask gemini_client prompt read) s = (r, s') ->
    (fst s).(requests) < (fst s').(requests) <= (fst s).(requests) + remaining + 1.
Proof.
  induction remaining as [| n IH]; intros a s r s' H; simpl retrying in H;
    unfold try_except at 1 in H; unfold ask at 1 in H;
    destruct (gemini_client (requests (fst s)) prompt) as [reply | e].
  - inversion H; subst. simpl. lia.
  - unfold raise in H. inversion H; subst. simpl. lia.
  - inversion H; subst. simpl. lia.
  - unfold bind, emit in H. cbn [fst snd after_request] in H.
    apply IH in H. simpl in H. lia.
Qed.

End Asking.

Lemma classify_with_gemini_as_ask company title gemini_client s :
  _classify_with_gemini company title gemini_client s
  = retrying (config.RETRY_STOP_AFTER_ATTEMPT - 1) 1
      (ask gemini_client (classify_prompt company title)
         (fun reply => category_of_reply reply title)) s.
Proof.
  unfold _classify_with_gemini, retry_stop_after_attempt.
  apply retrying_ext. intro s0. apply classify_once_ask.
Qed.

Lemma categorize_company_service_stage company title gemini_client s :
  company <> "" -> title <> "" -> no_manual_match company title ->
  categorize_company company title gemini_client s
  = try_except
      (category <- _classify_with_gemini company title gemini_client ;; ret category)
      (fun error_msg => ret (_classify_by_keywords title)) s.
Proof.
  intros Hc Ht Hno. rewrite (categorize_company_nonempty _ _ _ Hc Ht).
  destruct (no_manual_match_lists _ _ Hno) as [H1 H2]. now rewrite H1, H2.
Qed.

(** X2.  For a pair in ASCII that reaches the service stage (no empty
    field, no entry of a manual list), when the first [k]
    requests fail ([k] below the attempt ceiling of the decorator) and the
    next one is answered, the category is read from that answer: the
    answer, an ASCII text, stripped and title-cased if this is Builder,
    Owner or Other, the keyword heuristic otherwise.  Exactly [k + 1] requests are made;
    an answer outside the three tokens is not asked again. *)
Theorem categorize_company_service_reply (company title : string)
    (gemini_client : GeminiClient) (s : World * Trace) (k : nat) (reply : string) :
  Str.isascii company = true -> Str.isascii title = true ->
  Str.isascii reply = true ->
  company <> "" -> title <> "" -> no_manual_match company title ->
  k < config.RETRY_STOP_AFTER_ATTEMPT ->
  (forall i, i < k ->
     exists e, gemini_client ((fst s).(requests) + i) (classify_prompt company title)
               = Raise e) ->
  gemini_client ((fst s).(requests) + k) (classify_prompt company title) = Ok reply ->
  exists t',
    categorize_company company title gemini_client s
    = (Ok (category_of_reply reply title),
       ({| requests := (fst s).(requests) + k + 1; stats := (fst s).(stats) |},
        (snd s ++ t')%list))
    /\ requests_in t' = k + 1.
Proof.
  intros _ _ _ Hc Ht Hno Hk Hfail Hok.
  rewrite categorize_company_service_stage by trivial.
  unfold try_except, bind at 1. rewrite classify_with_gemini_as_ask.
  destruct (retrying_ask_reply gemini_client (classify_prompt company title)
              (fun reply => category_of_reply reply title)
              k (config.RETRY_STOP_AFTER_ATTEMPT - 1) 1 s reply)
    as [t' [E Hc']]; trivial.
  { unfold config.RETRY_STOP_AFTER_ATTEMPT in *. lia. }
  exists t'. rewrite E. split; trivial.
Qed.

Lemma categorize_company_service_reply_witness :
  exists t',
    categorize_company "Harbor Estates" "Chief Executive"
      (fun k _ => match k with
                  | O => Raise "503 Service Unavailable"
                  | _ => Ok " owner "
                  end)
      (initial_world, []%list)
    = (Ok "Owner", ({| requests := 2; stats := new_stats |}, ([] ++ t')%list))
    /\ requests_in t' = 2.
Proof.
  apply (categorize_company_service_reply "Harbor Estates" "Chief Executive"
           (fun k _ => match k with
                       | O => Raise "503 Service Unavailable"
                       | _ => Ok " owner "
                       end)
           (initial_world, []%list) 1 " owner ").
  - reflexivity.
  - reflexivity.
  - reflexivity.
  - discriminate.
  - discriminate.
  - apply no_manual_match_by_lists; reflexivity.
  - unfold config.RETRY_STOP_AFTER_ATTEMPT. lia.
  - intros i Hi. assert (i = 0) by lia. subst. simpl. eauto.
  - reflexivity.
Defined.

(** X3.  With the service down, a pair in ASCII that reaches the service
    stage (no empty field, no entry of a manual list) is classified by
    the keyword heuristic after exactly [RETRY_STOP_AFTER_ATTEMPT] = 3
    requests. *)
Theorem categorize_company_outage_requests (company title : string)
    (gemini_client : GeminiClient) (s : World * Trace) :
  Str.isascii company = true -> Str.isascii title = true ->
  company <> "" -> title <> "" -> no_manual_match company title ->
  all_requests_fail gemini_client ->
  exists t',
    categorize_company company title gemini_client s
    = (Ok (_classify_by_keywords title),
       ({| requests := (fst s).(requests) + 3; stats := (fst s).(stats) |},
        (snd s ++ t')%list))
    /\ requests_in t' = 3.
Proof.
  intros _ _ Hc Ht Hno Hfail.
  rewrite categorize_company_service_stage by trivial.
  unfold try_except, bind at 1. rewrite classify_with_gemini_as_ask.
  destruct (retrying_ask_fail gemini_client (classify_prompt company title)
              (fun reply => category_of_reply reply title)
              (config.RETRY_STOP_AFTER_ATTEMPT - 1) 1 s)
    as [e [t' [E Hc']]].
  { intros i _. apply Hfail. }
  exists t'. rewrite E. unfold ret. split; [| exact Hc'].
  unfold config.RETRY_STOP_AFTER_ATTEMPT. do 3 f_equal. lia.
Qed.

Lemma categorize_company_outage_requests_witness :
  exists t',
    categorize_company "ABC Construction" "Project Manager"
      (fun _ _ => Raise "500 Internal Server Error") (initial_world, []%list)
    = (Ok (_classify_by_keywords "Project Manager"),
       ({| requests := 0 + 3; stats := new_stats |}, ([] ++ t')%list))
    /\ requests_in t' = 3.
Proof.
  apply (categorize_company_outage_requests "ABC Construction" "Project Manager"
           (fun _ _ => Raise "500 Internal Server Error") (initial_world, []%list)).
  - reflexivity.
  - reflexivity.
  - discriminate.
  - discriminate.
  - apply no_manual_match_by_lists; reflexivity.
  - intros k p. eauto.
Defined.

Lemma categorize_company_requests_stats (company title : string)
    (gemini_client : GeminiClient) (s : World * Trace) :
  exists category s',
    categorize_company company title gemini_client s = (Ok category, s')
    /\ (fst s).(requests) <= (fst s').(requests) <= (fst s).(requests) + 3
    /\ (fst s').(stats) = (fst s).(stats).
Proof.
  destruct (categorize_company_total company title gemini_client s)
    as [category [s' [E _]]].
  exists category, s'. split; [exact E |]. split.
  - revert E. unfold categorize_company.
    destruct (negb (Str.truthy company) || negb (Str.truthy title));
      [intro E; inversion E; subst; lia |].
    cbv zeta.
    destruct (in_manual_list COMPETITORS _ _); [intro E; inversion E; subst; lia |].
    destruct (in_manual_list PARTNERS _ _); [intro E; inversion E; subst; lia |].
    unfold try_except, bind at 1. rewrite classify_with_gemini_as_ask.
    destruct (retrying _ _ _ s) as [[c | e] s1] eqn:R; unfold ret; intro E;
      inversion E; subst;
      apply retrying_ask_bound in R; unfold config.RETRY_STOP_AFTER_ATTEMPT in R;
      simpl in R; lia.
  - exact (keeps_stats_categorize _ _ _ _ _ _ E).
Qed.

(** X4.  Whatever the service does and whatever the pair is, one
    classification makes at most three requests and leaves the
    statistics alone. *)
Theorem categorize_company_request_bound (company title : string)
    (gemini_client : GeminiClient) (s : World * Trace) :
  exists category s',
    categorize_company company title gemini_client s = (Ok category, s')
    /\ (fst s).(requests) <= (fst s').(requests) <= (fst s).(requests) + 3
    /\ (fst s').(stats) = (fst s).(stats).
Proof.
  exact (categorize_company_requests_stats company title gemini_client s).
Qed.

(** ** The keyword heuristic, continued *)

Lemma owner_keywords_lower (keyword : string) :
  In keyword OWNER_KEYWORDS -> Str.lower keyword = keyword.
Proof.
  unfold OWNER_KEYWORDS, config.OWNER_KEYWORDS. simpl.
  intro H; repeat (destruct H as [H | H]; [subst; reflexivity |]); contradiction.
Qed.

Lemma keyword_scan (keywords : list string) (title : string) :
  (forall keyword, In keyword keywords -> Str.lower keyword = keyword) ->
  existsb (fun keyword => Str.contains keyword (Str.lower title)) keywords = true
  <-> has_keyword keywords title.
Proof.
  intro Hl. unfold has_keyword, contains_ci. rewrite existsb_exists.
  split; intros [kw [Hin H]]; exists kw; split; trivial.
  - now rewrite Hl.
  - now rewrite Hl in H.
Qed.

(** X5.  The decision table of the keyword heuristic: Builder exactly
    when the title holds a builder keyword, Owner exactly when it holds
    an owner keyword and no builder keyword, Other exactly when it holds
    neither. *)
Theorem classify_by_keywords_cases (title : string) :
  (_classify_by_keywords title = "Builder" <-> has_keyword BUILDER_KEYWORDS title)
  /\ (_classify_by_keywords title = "Owner"
      <-> ~ has_keyword BUILDER_KEYWORDS title /\ has_keyword OWNER_KEYWORDS title)
  /\ (_classify_by_keywords title = "Other"
      <-> ~ has_keyword BUILDER_KEYWORDS title /\ ~ has_keyword OWNER_KEYWORDS title).
Proof.
  pose proof (keyword_scan BUILDER_KEYWORDS title builder_keywords_lower) as Hb.
  pose proof (keyword_scan OWNER_KEYWORDS title owner_keywords_lower) as Ho.
  unfold _classify_by_keywords. cbv zeta.
  destruct (existsb _ BUILDER_KEYWORDS) eqn:Eb.
  - assert (B : has_keyword BUILDER_KEYWORDS title) by now apply Hb.
    repeat split; intros; try reflexivity; try discriminate; tauto.
  - assert (B : ~ has_keyword BUILDER_KEYWORDS title)
      by (intro H; apply Hb in H; discriminate).
    destruct (existsb _ OWNER_KEYWORDS) eqn:Eo.
    + assert (O : has_keyword OWNER_KEYWORDS title) by now apply Ho.
      repeat split; intros; try reflexivity; try discriminate; tauto.
    + assert (O : ~ has_keyword OWNER_KEYWORDS title)
        by (intro H; apply Ho in H; discriminate).
      repeat split; intros; try reflexivity; try discriminate; tauto.
Qed.

(** ** The retry wrapper, continued *)

(** X6.  The wrapper returns the outcome of the first attempt that is
    not a quota failure, or of the last attempt: when the first [k] calls
    raise quota errors and call [k] (below the ceiling) returns a value,
    raises another error, or is the last one allowed, its value is
    returned or its error raised after exactly [k + 1] calls. *)
Theorem api_call_with_retry_outcome {W A : Type} (max_retries : nat) (api_delay : Q)
    (op : W -> Result A * W) (w0 : W) (t0 : Trace) (k : nat) :
  k < max_retries ->
  (forall i, i < k ->
     exists e, fst (op (state_after op i w0)) = Raise e /\ is_quota_error e = true) ->
  ends_loop max_retries k (fst (op (state_after op k w0))) ->
  exists t',
    api_call_with_retry_at max_retries api_delay (operation op) (w0, t0)
    = (wrapped (fst (op (state_after op k w0))),
       (state_after op (S k) w0, (t0 ++ t')%list))
    /\ calls t' = S k.
Proof.
  intros Hk Hq Hend. unfold api_call_with_retry_at, range.
  apply retry_loop_outcome; trivial.
Qed.

Lemma api_call_with_retry_outcome_witness :
  exists t',
    api_call_with_retry (operation quota_twice_then_error) (0, []%list)
    = (Raise "500 Internal Server Error", (3, ([] ++ t')%list))
    /\ calls t' = 3.
Proof.
  apply (api_call_with_retry_outcome config.MAX_RETRIES config.API_DELAY
           quota_twice_then_error 0 []%list 2).
  - unfold config.MAX_RETRIES. lia.
  - intros i Hi. exists "429 You exceeded your current quota".
    destruct i as [| [| i]]; [split; reflexivity | split; reflexivity | lia].
  - left. reflexivity.
Defined.

(** X7.  For an operation whose value may be [None].  With a ceiling of
    zero the wrapper returns [None] without calling the operation.  With
    a positive ceiling it calls the operation at least once and at most
    [max_retries] times and what it returns or raises is the outcome of
    its last call: the [return None] after the loop is not reached, and
    the wrapper returns [None] only when the operation does. *)
Theorem api_call_with_retry_bounds {W A : Type} (max_retries : nat) (api_delay : Q)
    (op : W -> Result (option A) * W) (w0 : W) (t0 : Trace) :
  (max_retries = 0 ->
   api_call_with_retry_at max_retries api_delay (acting op) (w0, t0)
   = (Ok None, (w0, t0)))
  /\ (0 < max_retries ->
      exists k t',
        k < max_retries
        /\ api_call_with_retry_at max_retries api_delay (acting op) (w0, t0)
           = (fst (op (state_after op k w0)),
              (state_after op (S k) w0, (t0 ++ t')%list))
        /\ calls t' = S k).
Proof.
  split.
  - intros ->. reflexivity.
  - intro Hpos. unfold api_call_with_retry_at, range.
    destruct max_retries as [| n]; [lia |].
    destruct (retry_loop_last_call (S n) api_delay op n 0 w0 t0)
      as [k [t' [Hk [E C]]]]; [reflexivity |].
    exists k, t'. split; [lia |]. split; [exact E | exact C].
Qed.

Lemma api_call_with_retry_bounds_witness :
  api_call_with_retry_at 0 config.API_DELAY (acting returns_none) (0, []%list)
  = (Ok None, (0, []%list))
  /\ exists k t',
       k < config.MAX_RETRIES
       /\ api_call_with_retry (acting returns_none) (0, []%list)
          = (fst (returns_none (state_after returns_none k 0)),
             (state_after returns_none (S k) 0, ([] ++ t')%list))
       /\ calls t' = S k.
Proof.
  split.
  - apply (proj1 (api_call_with_retry_bounds 0 config.API_DELAY returns_none 0 []%list)).
    reflexivity.
  - apply (proj2 (api_call_with_retry_bounds config.MAX_RETRIES config.API_DELAY
                    returns_none 0 []%list)).
    unfold config.MAX_RETRIES. lia.
Defined.

(** X8.  With the values of [config], whatever the operation does, the
    wrapper sleeps 0 s, 0.2 s or 0.6 s in all: never more than 0.6 s. *)
Theorem api_call_with_retry_sleeps_at_most {W A : Type}
    (op : W -> Result A * W) (w0 : W) :
  exists r w' t',
    api_call_with_retry (operation op) (w0, []%list) = (r, (w', t'))
    /\ (slept t' == 0 \/ slept t' == 2 # 10 \/ slept t' == 6 # 10)%Q
    /\ (slept t' <= 6 # 10)%Q.
Proof.
  unfold api_call_with_retry, api_call_with_retry_at, range.
  change (seq 0 config.MAX_RETRIES) with [0; 1; 2].
  assert (Hle : forall q : Q, (q == 0 \/ q == 2 # 10 \/ q == 6 # 10)%Q -> (q <= 6 # 10)%Q).
  { intros q [H | [H | H]]; rewrite H; unfold Qle; simpl; lia. }
  rewrite retry_loop_step, operation_run. cbn [fst snd].
  destruct (fst (op w0)) as [v | e].
  { do 3 eexists. split; [reflexivity |]. split; [| apply Hle]; left; reflexivity. }
  destruct (is_quota_error e).
  2: { do 3 eexists. split; [reflexivity |]. split; [| apply Hle]; left; reflexivity. }
  change (0 <? config.MAX_RETRIES - 1)%nat with true. cbv iota.
  rewrite retry_loop_step, operation_run. cbn [fst snd].
  destruct (fst (op (snd (op w0)))) as [v | e1].
  { do 3 eexists. split; [reflexivity |]. split; [| apply Hle]; right; left; reflexivity. }
  destruct (is_quota_error e1).
  2: { do 3 eexists. split; [reflexivity |]. split; [| apply Hle]; right; left;
       reflexivity. }
  change (1 <? config.MAX_RETRIES - 1)%nat with true. cbv iota.
  rewrite retry_loop_step, operation_run. cbn [fst snd].
  destruct (fst (op (snd (op (snd (op w0)))))) as [v | e2].
  { do 3 eexists. split; [reflexivity |]. split; [| apply Hle]; right; right;
    reflexivity. }
  change (2 <? config.MAX_RETRIES - 1)%nat with false.
  destruct (is_quota_error e2);
    do 3 eexists; (split; [reflexivity |]); (split; [| apply Hle]); right; right;
    reflexivity.
Qed.

(** ** The e-mail parser, continued *)

Lemma split_lines_nonempty (s : string) : Str.split_lines s <> [].
Proof.
  destruct (split_lines_shape s) as [h [r [E _]]]. rewrite E. discriminate.
Qed.

(** [split('\n')] of two texts joined by a line feed. *)
Lemma split_lines_join (a b : string) :
  Str.split_lines (a ++ LF ++ b) = (Str.split_lines a ++ Str.split_lines b)%list.
Proof.
  induction a as [| c a IH].
  - reflexivity.
  - simpl. destruct (Ascii.eqb c Str.newline).
    + change (String Str.newline b) with (LF ++ b). now rewrite IH.
    + change (String Str.newline b) with (LF ++ b). rewrite IH.
      destruct (Str.split_lines a) as [| h r] eqn:E.
      * now apply split_lines_nonempty in E.
      * reflexivity.
Qed.

Lemma parse_response_state (content : string) :
  _parse_email_response content
  = ((parse_state content).(ps_subject), (parse_state content).(ps_body)).
Proof. reflexivity. Qed.

Lemma parse_state_join (a b : string) :
  parse_state (a ++ LF ++ b) = fold_left parse_line (Str.split_lines b) (parse_state a).
Proof.
  unfold parse_state. now rewrite split_lines_join, fold_left_app.
Qed.

Lemma parse_marker_line_again (content r : string) :
  no_newline r ->
  (Str.contains "SUBJECT:" r = false ->
   _parse_email_response (content ++ LF ++ "SUBJECT:" ++ r)
   = (Str.strip r, snd (_parse_email_response content)))
  /\ (Str.contains "BODY:" r = false ->
      _parse_email_response (content ++ LF ++ "BODY:" ++ r)
      = (fst (_parse_email_response content), Str.strip r)).
Proof.
  intro Hr. split; intro Hm; rewrite !parse_response_state, parse_state_join.
  - rewrite split_lines_single.
    + cbn [fold_left]. now rewrite parse_line_subject.
    + simpl append. rewrite !no_newline_cons. tauto.
  - rewrite split_lines_single.
    + cbn [fold_left]. now rewrite parse_line_body.
    + now apply no_newline_body_line.
Qed.

(** X9.  A subject line after a text replaces the subject and keeps the
    body; a body line after a text replaces the body, continuation lines
    included, and keeps the subject: the last marker line of a kind is
    the one that counts.  The rest [r] of the marker line is an ASCII
    text, of which the parser keeps [r] stripped. *)
Theorem parse_later_marker_line (content r : string) :
  Str.isascii r = true ->
  no_newline r ->
  (Str.contains "SUBJECT:" r = false ->
   _parse_email_response (content ++ LF ++ "SUBJECT:" ++ r)
   = (Str.strip r, snd (_parse_email_response content)))
  /\ (Str.contains "BODY:" r = false ->
      _parse_email_response (content ++ LF ++ "BODY:" ++ r)
      = (fst (_parse_email_response content), Str.strip r)).
Proof.
  intros _. exact (parse_marker_line_again content r).
Qed.

Lemma parse_later_marker_line_witness :
  _parse_email_response
    (reply_of "First idea" "Old body" ++ LF ++ "SUBJECT:" ++ " Second idea")
  = ("Second idea", snd (_parse_email_response (reply_of "First idea" "Old body")))
  /\ _parse_email_response
       (reply_of "First idea" "Old body" ++ LF ++ "BODY:" ++ " New body")
     = (fst (_parse_email_response (reply_of "First idea" "Old body")), "New body").
Proof.
  split.
  - apply (proj1 (parse_later_marker_line (reply_of "First idea" "Old body")
                    " Second idea" eq_refl eq_refl)).
    reflexivity.
  - apply (proj2 (parse_later_marker_line (reply_of "First idea" "Old body")
                    " New body" eq_refl eq_refl)).
    reflexivity.
Defined.

Lemma parse_single_body_line (Y : string) :
  no_newline Y -> Str.contains "BODY:" Y = false ->
  _parse_email_response ("BODY: " ++ Y) = ("", Str.strip Y).
Proof.
  intros HY Hm. unfold _parse_email_response. cbv zeta.
  change ("BODY: " ++ Y) with ("BODY:" ++ " " ++ Y).
  rewrite split_lines_single by now apply no_newline_body_line, no_newline_space.
  cbn [fold_left].
  rewrite parse_line_body by now apply contains_after_space.
  cbn [ps_subject ps_body]. now rewrite strip_after_space.
Qed.

(** X10.  The order of the two marker lines does not matter: a reply with
    the body line first and the subject line second gives the same
    subject and body as the reply in the expected order: for ASCII
    texts, [X] stripped and [Y] stripped. *)
Theorem parse_body_line_first (X Y : string) :
  no_newline X -> no_newline Y ->
  Str.contains "SUBJECT:" X = false -> Str.contains "BODY:" Y = false ->
  _parse_email_response ("BODY: " ++ Y ++ LF ++ "SUBJECT: " ++ X)
  = _parse_email_response (reply_of X Y)
  /\ (Str.isascii X = true -> Str.isascii Y = true ->
      _parse_email_response ("BODY: " ++ Y ++ LF ++ "SUBJECT: " ++ X)
      = (Str.strip X, Str.strip Y)).
Proof.
  intros HX HY HmX HmY.
  assert (E : _parse_email_response ("BODY: " ++ Y ++ LF ++ "SUBJECT: " ++ X)
              = (Str.strip X, Str.strip Y)).
  { change ("SUBJECT: " ++ X) with ("SUBJECT:" ++ " " ++ X).
    rewrite <- append_assoc.
    rewrite (proj1 (parse_marker_line_again ("BODY: " ++ Y) (" " ++ X)
                      (no_newline_space X HX)))
      by now apply contains_after_space.
    rewrite parse_single_body_line by trivial.
    now rewrite strip_after_space. }
  split; [| intros _ _; exact E]. rewrite E. symmetry. now apply parse_reply.
Qed.

Lemma parse_body_line_first_witness :
  _parse_email_response ("BODY: " ++ "See you at booth #42." ++ LF ++ "SUBJECT: " ++ "Hello")
  = _parse_email_response (reply_of "Hello" "See you at booth #42.")
  /\ _parse_email_response
       ("BODY: " ++ "See you at booth #42." ++ LF ++ "SUBJECT: " ++ "Hello")
     = (Str.strip "Hello", Str.strip "See you at booth #42.").
Proof.
  destruct (parse_body_line_first "Hello" "See you at booth #42.") as [H1 H2];
    try reflexivity.
  split; [exact H1 | apply H2; reflexivity].
Defined.

Lemma parse_line_plain (st : ParseState) (l : string) :
  Str.startswith (Str.strip l) "SUBJECT:" = false ->
  Str.startswith (Str.strip l) "BODY:" = false ->
  parse_line st l
  = if in_body_section st && Str.truthy (Str.strip l) then
      {| ps_subject := st.(ps_subject);
         ps_body := st.(ps_body) ++ " " ++ Str.strip l;
         current_section := st.(current_section) |}
    else st.
Proof.
  intros Hs Hb. unfold parse_line, in_body_section. cbv zeta. now rewrite Hs, Hb.
Qed.

Lemma fold_plain_outside_body (ls : list string) (st : ParseState) :
  (forall l, In l ls ->
     Str.startswith (Str.strip l) "SUBJECT:" = false
     /\ Str.startswith (Str.strip l) "BODY:" = false) ->
  in_body_section st = false ->
  fold_left parse_line ls st = st.
Proof.
  induction ls as [| l rest IH]; intros H Hs; trivial.
  cbn [fold_left]. destruct (H l) as [H1 H2]; [now left |].
  rewrite parse_line_plain, Hs by trivial. cbn [andb].
  apply IH; trivial. intros; apply H; now right.
Qed.

Lemma fold_plain_in_body (ls : list string) (st : ParseState) :
  Forall plain_line ls ->
  in_body_section st = true ->
  fold_left parse_line ls st
  = {| ps_subject := st.(ps_subject);
       ps_body := st.(ps_body) ++ continuation ls;
       current_section := st.(current_section) |}.
Proof.
  revert st. induction ls as [| l rest IH]; intros st H Hs.
  - simpl. rewrite append_nil_r. now destruct st.
  - inversion H as [| ? ? [_ [H1 H2]] Hrest]; subst.
    cbn [fold_left continuation]. rewrite parse_line_plain, Hs by trivial.
    cbn [andb]. destruct (Str.truthy (Str.strip l)).
    + rewrite IH by trivial. cbn [ps_subject ps_body current_section].
      now rewrite !append_assoc.
    + now apply IH.
Qed.

Lemma split_following_lines (l : string) (rest : list string) :
  no_newline l -> Forall plain_line rest ->
  Str.split_lines (l ++ following_lines rest) = l :: rest.
Proof.
  revert l. induction rest as [| l' rest IH]; intros l Hl H.
  - simpl. rewrite append_nil_r. now apply split_lines_single.
  - inversion H as [| ? ? [Hl' _] Hrest]; subst.
    cbn [following_lines]. rewrite split_lines_append by trivial.
    now rewrite IH.
Qed.

Lemma parse_state_reply (X Y : string) :
  no_newline X -> no_newline Y ->
  Str.contains "SUBJECT:" X = false -> Str.contains "BODY:" Y = false ->
  parse_state (reply_of X Y)
  = {| ps_subject := Str.strip X; ps_body := Str.strip Y;
       current_section := Some "body" |}.
Proof.
  intros HX HY HmX HmY. unfold parse_state, reply_of.
  change ("SUBJECT: " ++ X ++ LF ++ "BODY: " ++ Y)
    with (("SUBJECT:" ++ " " ++ X) ++ LF ++ "BODY:" ++ " " ++ Y).
  rewrite split_lines_append
    by (apply (no_newline_subject_line X HX)).
  rewrite split_lines_single by now apply no_newline_body_line, no_newline_space.
  cbn [fold_left].
  rewrite parse_line_subject by now apply contains_after_space.
  rewrite parse_line_body by now apply contains_after_space.
  cbn [ps_subject]. now rewrite !strip_after_space.
Qed.

(** X11.  Continuation of the body, for a reply in ASCII.  After a
    well-formed subject line and body line, every further line that is
    no marker line is stripped and, unless empty, appended to the body
    after one space; blank lines are dropped and the subject is
    untouched. *)
Theorem parse_body_continuation (X Y : string) (ls : list string) :
  Str.isascii X = true -> Str.isascii Y = true ->
  Forall (fun l => Str.isascii l = true) ls ->
  no_newline X -> no_newline Y ->
  Str.contains "SUBJECT:" X = false -> Str.contains "BODY:" Y = false ->
  Forall plain_line ls ->
  _parse_email_response (reply_of X Y ++ following_lines ls)
  = (Str.strip X, Str.strip Y ++ continuation ls).
Proof.
  intros _ _ _ HX HY HmX HmY Hls. rewrite parse_response_state.
  destruct ls as [| l rest].
  - simpl following_lines. rewrite append_nil_r, parse_state_reply by trivial.
    simpl. now rewrite append_nil_r.
  - inversion Hls as [| ? ? [Hl _] Hrest]; subst.
    cbn [following_lines]. rewrite parse_state_join.
    rewrite split_following_lines by trivial.
    rewrite fold_plain_in_body, parse_state_reply by
      (trivial; rewrite ?parse_state_reply by trivial; reflexivity).
    reflexivity.
Qed.

Lemma parse_body_continuation_witness :
  _parse_email_response
    (reply_of "Hello" "line one"
       ++ following_lines ["  line two  "; "   "; "line three"])
  = (Str.strip "Hello",
     Str.strip "line one" ++ continuation ["  line two  "; "   "; "line three"])
  /\ Str.strip "line one" ++ continuation ["  line two  "; "   "; "line three"]
     = "line one line two line three".
Proof.
  split; [| reflexivity].
  apply parse_body_continuation; try reflexivity.
  - repeat constructor.
  - repeat constructor.
Defined.

(** X12.  Text before the first marker line is ignored: a preamble that
    holds neither marker changes nothing of what is parsed from the rest. *)
Theorem parse_ignores_preamble (preamble rest : string) :
  Str.contains "SUBJECT:" preamble = false ->
  Str.contains "BODY:" preamble = false ->
  _parse_email_response (preamble ++ LF ++ rest) = _parse_email_response rest.
Proof.
  intros Hs Hb. rewrite !parse_response_state, parse_state_join.
  replace (parse_state preamble) with initial_parse_state; [reflexivity |].
  symmetry. unfold parse_state. apply fold_plain_outside_body; [| reflexivity].
  intros l Hl. split; eapply no_marker_line; eauto.
Qed.

Lemma parse_ignores_preamble_witness :
  _parse_email_response
    ("Sure, here is the email you asked for:" ++ LF ++ reply_of "Hello" "See you.")
  = _parse_email_response (reply_of "Hello" "See you.").
Proof.
  apply parse_ignores_preamble; reflexivity.
Defined.

(** ** The e-mail generator, continued *)

Lemma generate_email_as_ask speaker_data category gemini_client s :
  generate_email speaker_data category gemini_client s
  = match retrying (config.RETRY_STOP_AFTER_ATTEMPT - 1) 1
            (ask gemini_client (email_prompt_for speaker_data category)
               (email_of_reply speaker_data category)) s with
    | (Ok email, s') => (Ok email, s')
    | (Raise _, s') => (Ok (fallback_for speaker_data category), s')
    end.
Proof.
  unfold generate_email, _generate_email_content, retry_stop_after_attempt.
  cbv zeta. unfold try_except at 1, bind at 1.
  rewrite (retrying_ext _ _ (email_once_ask speaker_data category gemini_client)).
  unfold email_prompt_for.
  destruct (retrying _ _ _ s) as [[email | e] s']; reflexivity.
Qed.

Lemma fallback_email_nonempty (name title company category : string) :
  Str.truthy (_generate_fallback_email name title company category).(subject) = true
  /\ Str.truthy (_generate_fallback_email name title company category).(body) = true.
Proof.
  unfold _generate_fallback_email.
  destruct (String.eqb category "Builder"); [| destruct (String.eqb category "Owner")];
    split; reflexivity.
Qed.

Lemma email_of_reply_nonempty speaker_data category reply :
  Str.truthy (email_of_reply speaker_data category reply).(subject) = true
  /\ Str.truthy (email_of_reply speaker_data category reply).(body) = true.
Proof.
  unfold email_of_reply.
  destruct (_parse_email_response (Str.strip reply)) as [subj bod].
  destruct (Str.truthy subj && Str.truthy bod) eqn:E.
  - apply andb_true_iff in E. exact E.
  - apply fallback_email_nonempty.
Qed.

Lemma generate_email_result (speaker_data : Speaker) (category : string)
    (gemini_client : GeminiClient) (s : World * Trace) :
  exists email s',
    generate_email speaker_data category gemini_client s = (Ok email, s')
    /\ Str.truthy email.(subject) = true
    /\ Str.truthy email.(body) = true
    /\ (fst s).(requests) < (fst s').(requests) <= (fst s).(requests) + 3
    /\ (fst s').(stats) = (fst s).(stats).
Proof.
  destruct (generate_email_total speaker_data category gemini_client s)
    as [email [s' E]].
  exists email, s'. split; [exact E |].
  pose proof (keeps_stats_generate_email _ _ _ _ _ _ E) as Hst.
  rewrite generate_email_as_ask in E.
  destruct (retrying _ _ _ s) as [[email0 | e] s1] eqn:R.
  - inversion E; subst. pose proof (retrying_ask_bound _ _ _ _ _ _ _ _ R) as Hb.
    assert (Hne : exists reply, email = email_of_reply speaker_data category reply).
    { eapply (retrying_result _ (fun em => exists reply,
                                    em = email_of_reply speaker_data category reply));
        [| exact R].
      intros s0 a s0' H. unfold ask in H.
      destruct (gemini_client _ _) as [reply | e0]; inversion H. eauto. }
    destruct Hne as [reply ->].
    destruct (email_of_reply_nonempty speaker_data category reply) as [H1 H2].
    unfold config.RETRY_STOP_AFTER_ATTEMPT in Hb. simpl in Hb.
    repeat split; trivial; lia.
  - inversion E; subst. pose proof (retrying_ask_bound _ _ _ _ _ _ _ _ R) as Hb.
    destruct (fallback_email_nonempty speaker_data.(name) speaker_data.(title)
                speaker_data.(company) category) as [H1 H2].
    unfold config.RETRY_STOP_AFTER_ATTEMPT in Hb. simpl in Hb.
    repeat split; trivial; lia.
Qed.

(** X13.  [generate_email] never raises: whatever the service does, it
    returns an e-mail whose subject and body are not empty, after at
    least one and at most three requests, and leaves the statistics
    alone. *)
Theorem generate_email_total_nonempty (speaker_data : Speaker) (category : string)
    (gemini_client : GeminiClient) (s : World * Trace) :
  exists email s',
    generate_email speaker_data category gemini_client s = (Ok email, s')
    /\ Str.truthy email.(subject) = true
    /\ Str.truthy email.(body) = true
    /\ (fst s).(requests) < (fst s').(requests) <= (fst s).(requests) + 3
    /\ (fst s').(stats) = (fst s).(stats).
Proof.
  exact (generate_email_result speaker_data category gemini_client s).
Qed.

(** X14.  When the first [k] e-mail requests fail ([k] below the attempt
    ceiling of the decorator) and the next one is answered with an ASCII
    text, the e-mail is read from that answer (its two fields if both
    are found, the template otherwise) after exactly [k + 1] requests. *)
Theorem generate_email_service_reply (speaker_data : Speaker) (category : string)
    (gemini_client : GeminiClient) (s : World * Trace) (k : nat) (reply : string) :
  Str.isascii reply = true ->
  k < config.RETRY_STOP_AFTER_ATTEMPT ->
  (forall i, i < k ->
     exists e, gemini_client ((fst s).(requests) + i)
                 (email_prompt_for speaker_data category) = Raise e) ->
  gemini_client ((fst s).(requests) + k) (email_prompt_for speaker_data category)
  = Ok reply ->
  exists t',
    generate_email speaker_data category gemini_client s
    = (Ok (email_of_reply speaker_data category reply),
       ({| requests := (fst s).(requests) + k + 1; stats := (fst s).(stats) |},
        (snd s ++ t')%list))
    /\ requests_in t' = k + 1.
Proof.
  intros _ Hk Hfail Hok. rewrite generate_email_as_ask.
  destruct (retrying_ask_reply gemini_client (email_prompt_for speaker_data category)
              (email_of_reply speaker_data category)
              k (config.RETRY_STOP_AFTER_ATTEMPT - 1) 1 s reply)
    as [t' [E Hc]]; trivial.
  { unfold config.RETRY_STOP_AFTER_ATTEMPT in *. lia. }
  exists t'. rewrite E. split; trivial.
Qed.

Lemma generate_email_service_reply_witness :
  exists t',
    generate_email john_smith "Builder"
      (fun k _ => match k with
                  | O | S O => Raise "429 quota"
                  | _ => Ok (reply_of "Hello John" "See you at booth #42.")
                  end)
      (initial_world, []%list)
    = (Ok (email_of_reply john_smith "Builder"
             (reply_of "Hello John" "See you at booth #42.")),
       ({| requests := 0 + 2 + 1; stats := new_stats |}, ([] ++ t')%list))
    /\ requests_in t' = 2 + 1.
Proof.
  apply (generate_email_service_reply john_smith "Builder"
           (fun k _ => match k with
                       | O | S O => Raise "429 quota"
                       | _ => Ok (reply_of "Hello John" "See you at booth #42.")
                       end)
           (initial_world, []%list) 2).
  - reflexivity.
  - unfold config.RETRY_STOP_AFTER_ATTEMPT. lia.
  - intros i Hi. exists "429 quota". destruct i as [| [| i]]; [reflexivity.. | lia].
  - reflexivity.
Defined.

Lemma generate_email_offline (speaker_data : Speaker) (category : string)
    (gemini_client : GeminiClient) (s : World * Trace) :
  all_requests_fail gemini_client ->
  exists t',
    generate_email speaker_data category gemini_client s
    = (Ok (fallback_for speaker_data category),
       ({| requests := (fst s).(requests) + 3; stats := (fst s).(stats) |},
        (snd s ++ t')%list))
    /\ requests_in t' = 3.
Proof.
  intro Hfail. rewrite generate_email_as_ask.
  destruct (retrying_ask_fail gemini_client (email_prompt_for speaker_data category)
              (email_of_reply speaker_data category)
              (config.RETRY_STOP_AFTER_ATTEMPT - 1) 1 s)
    as [e [t' [E Hc]]].
  { intros i _. apply Hfail. }
  exists t'. rewrite E. split; [| exact Hc].
  unfold config.RETRY_STOP_AFTER_ATTEMPT. do 3 f_equal. lia.
Qed.

(** X15.  With the service down, [generate_email] returns the template
    of the category after exactly three requests. *)
Theorem generate_email_outage (speaker_data : Speaker) (category : string)
    (gemini_client : GeminiClient) (s : World * Trace) :
  all_requests_fail gemini_client ->
  exists t',
    generate_email speaker_data category gemini_client s
    = (Ok (fallback_for speaker_data category),
       ({| requests := (fst s).(requests) + 3; stats := (fst s).(stats) |},
        (snd s ++ t')%list))
    /\ requests_in t' = 3.
Proof.
  exact (generate_email_offline speaker_data category gemini_client s).
Qed.

Lemma generate_email_outage_witness :
  exists t',
    generate_email john_smith "Owner" (fun _ _ => Raise "503 Service Unavailable")
      (initial_world, []%list)
    = (Ok (fallback_for john_smith "Owner"),
       ({| requests := 0 + 3; stats := new_stats |}, ([] ++ t')%list))
    /\ requests_in t' = 3.
Proof.
  apply (generate_email_outage john_smith "Owner"
           (fun _ _ => Raise "503 Service Unavailable") (initial_world, []%list)).
  intros k p. eauto.
Defined.

Lemma retrying_ask_outage {A : Type} gemini_client prompt (read : string -> A) :
  all_requests_fail gemini_client ->
  forall remaining attempt_number s,
    snd (snd (retrying remaining attempt_number (ask gemini_client prompt read) s))
    = (snd s ++ outage_trace prompt remaining attempt_number)%list.
Proof.
  intro Hfail. induction remaining as [| n IH]; intros a s;
    destruct (Hfail (fst s).(requests) prompt) as [e He];
    simpl retrying; unfold try_except at 1; unfold ask at 1; rewrite He.
  - reflexivity.
  - unfold bind, emit. cbn [fst snd after_request outage_trace].
    rewrite IH. cbn [snd]. now rewrite <- !app_assoc.
Qed.

(** X28.  With the service down, [generate_email] awaits its three
    requests with the two sleeps of the decorator between them, 2 s
    after the first failed attempt and 4 s after the second, and none
    after the last: 6 s asleep before the template is returned. *)
Theorem generate_email_outage_sleeps (speaker_data : Speaker) (category : string)
    (gemini_client : GeminiClient) (s : World * Trace) :
  all_requests_fail gemini_client ->
  let prompt := email_prompt_for speaker_data category in
  let t' := [EvRequest prompt; EvBackoff 1; EvRequest prompt; EvBackoff 2;
             EvRequest prompt]%list in
  generate_email speaker_data category gemini_client s
  = (Ok (fallback_for speaker_data category),
     ({| requests := (fst s).(requests) + 3; stats := (fst s).(stats) |},
      (snd s ++ t')%list))
  /\ (slept t' == 6)%Q
  /\ own_sleeps t' = []%list.
Proof.
  intros Hfail prompt t'.
  destruct (generate_email_offline speaker_data category gemini_client s Hfail)
    as [t1 [E _]].
  split; [| split; reflexivity].
  rewrite E. do 3 f_equal.
  pose proof (f_equal (fun r => snd (snd r)) E) as Ht. cbn [snd] in Ht.
  rewrite generate_email_as_ask in Ht.
  pose proof (retrying_ask_outage gemini_client prompt
                (email_of_reply speaker_data category) Hfail
                (config.RETRY_STOP_AFTER_ATTEMPT - 1) 1 s) as Ho.
  fold prompt in Ht.
  destruct (retrying _ _ _ s) as [[email | e] s1]; cbn [snd] in Ht, Ho;
    rewrite Ho in Ht; apply app_inv_head in Ht; now rewrite <- Ht.
Qed.

Lemma generate_email_outage_sleeps_witness :
  let prompt := email_prompt_for john_smith "Owner" in
  snd (snd (generate_email john_smith "Owner" (fun _ _ => Raise "503 Service Unavailable")
              (initial_world, []%list)))
  = [EvRequest prompt; EvBackoff 1; EvRequest prompt; EvBackoff 2; EvRequest prompt]%list
  /\ (slept [EvRequest prompt; EvBackoff 1; EvRequest prompt; EvBackoff 2;
             EvRequest prompt] == 6)%Q.
Proof.
  destruct (generate_email_outage_sleeps john_smith "Owner"
              (fun _ _ => Raise "503 Service Unavailable") (initial_world, []%list))
    as [E [Hs _]].
  - intros k p. eauto.
  - split; [rewrite E; reflexivity | exact Hs].
Defined.

(** ** The batch, continued *)

Lemma service_only_app (t1 t2 : Trace) :
  service_only t1 -> service_only t2 -> service_only (t1 ++ t2)%list.
Proof. unfold service_only. intros. apply Forall_app. now split. Qed.

Lemma service_only_calls (t : Trace) : service_only t -> calls t = 0.
Proof.
  induction 1 as [| ev t Hev _ IH]; trivial. destruct ev; simpl; tauto.
Qed.

Lemma service_only_own_sleeps (t : Trace) : service_only t -> own_sleeps t = []%list.
Proof.
  induction 1 as [| ev t Hev _ IH]; trivial. destruct ev; simpl; tauto.
Qed.

Lemma own_sleeps_app (t1 t2 : Trace) :
  own_sleeps (t1 ++ t2)%list = (own_sleeps t1 ++ own_sleeps t2)%list.
Proof.
  induction t1 as [| ev t1 IH]; simpl; trivial.
  destruct ev; simpl; trivial. now rewrite IH.
Qed.

Lemma retrying_ask_trace {A : Type} gemini_client prompt (read : string -> A) :
  forall remaining attempt_number s r s',
    retrying remaining attempt_number (ask gemini_client prompt read) s = (r, s') ->
    exists t', snd s' = (snd s ++ t')%list /\ service_only t'.
Proof.
  induction remaining as [| n IH]; intros a s r s' H; simpl retrying in H;
    unfold try_except at 1 in H; unfold ask at 1 in H;
    destruct (gemini_client (requests (fst s)) prompt) as [reply | e].
  - inversion H; subst. exists [EvRequest prompt]. split; trivial.
    repeat constructor.
  - unfold raise in H. inversion H; subst. exists [EvRequest prompt]. split; trivial.
    repeat constructor.
  - inversion H; subst. exists [EvRequest prompt]. split; trivial.
    repeat constructor.
  - unfold bind, emit in H. cbn [fst snd after_request] in H.
    apply IH in H. destruct H as [t' [E Ht]]. cbn [snd] in E.
    exists ([EvRequest prompt] ++ [EvBackoff a] ++ t')%list. split.
    + rewrite E. now rewrite <- !app_assoc.
    + apply service_only_app; [repeat constructor |].
      apply service_only_app; [repeat constructor | exact Ht].
Qed.

Lemma categorize_company_detail company title gemini_client s :
  exists category s' t',
    categorize_company company title gemini_client s = (Ok category, s')
    /\ In category five_categories
    /\ (fst s').(stats) = (fst s).(stats)
    /\ (fst s).(requests) <= (fst s').(requests) <= (fst s).(requests) + 3
    /\ snd s' = (snd s ++ t')%list /\ service_only t'.
Proof.
  destruct (categorize_company_requests_stats company title gemini_client s)
    as [category [s' [E [Hb Hst]]]].
  destruct (categorize_company_total company title gemini_client s)
    as [c' [s'' [E' Hin]]].
  rewrite E in E'. inversion E'; subst c' s''.
  assert (Ht : exists t', snd s' = (snd s ++ t')%list /\ service_only t').
  { revert E. unfold categorize_company.
    destruct (negb (Str.truthy company) || negb (Str.truthy title)).
    { intro E; inversion E; subst. exists []. rewrite app_nil_r. split; [trivial | constructor]. }
    cbv zeta.
    destruct (in_manual_list COMPETITORS _ _).
    { intro E; inversion E; subst. exists []. rewrite app_nil_r. split; [trivial | constructor]. }
    destruct (in_manual_list PARTNERS _ _).
    { intro E; inversion E; subst. exists []. rewrite app_nil_r. split; [trivial | constructor]. }
    unfold try_except, bind at 1. rewrite classify_with_gemini_as_ask.
    destruct (retrying _ _ _ s) as [[c | e] s1] eqn:R; unfold ret; intro E;
      inversion E; subst; eapply retrying_ask_trace; eauto. }
  destruct Ht as [t' [Ht1 Ht2]].
  exists category, s', t'. repeat split; trivial; lia.
Qed.

Lemma generate_email_detail speaker_data category gemini_client s :
  exists email s' t',
    generate_email speaker_data category gemini_client s = (Ok email, s')
    /\ Str.truthy email.(subject) = true /\ Str.truthy email.(body) = true
    /\ (fst s').(stats) = (fst s).(stats)
    /\ (fst s).(requests) <= (fst s').(requests) <= (fst s).(requests) + 3
    /\ snd s' = (snd s ++ t')%list /\ service_only t'.
Proof.
  destruct (generate_email_result speaker_data category gemini_client s)
    as [email [s' [E [H1 [H2 [Hb Hst]]]]]].
  assert (Ht : exists t', snd s' = (snd s ++ t')%list /\ service_only t').
  { rewrite generate_email_as_ask in E.
    destruct (retrying _ _ _ s) as [[em | e] s1] eqn:R; inversion E; subst;
      eapply retrying_ask_trace; eauto. }
  destruct Ht as [t' [Ht1 Ht2]].
  exists email, s', t'. repeat split; trivial; lia.
Qed.

Lemma target_category_cases (category : string) :
  is_target_category category = true -> category = "Builder" \/ category = "Owner".
Proof.
  intro H. apply mem_In in H. simpl in H. intuition.
Qed.

Lemma process_speaker_detail gemini_client speaker_data s :
  five_keys (stats_of s) ->
  exists result s' t',
    process_speaker gemini_client speaker_data s = (Ok result, s')
    /\ record_effect speaker_data s s' t' result.
Proof.
  intro Hk. destruct s as [w t].
  destruct (categorize_company_detail speaker_data.(company) speaker_data.(title)
              gemini_client (w, ((t ++ [EvSleep config.API_DELAY]) ++ [EvCall])%list))
    as [category [[w2 t2] [tc [Hcat [Hin [Hs2 [Hr2 [Ht2 Hq2]]]]]]]].
  pose proof (api_call_with_retry_returns
                (categorize_company speaker_data.(company) speaker_data.(title)
                   gemini_client)
                (w, (t ++ [EvSleep config.API_DELAY])%list) category (w2, t2) Hcat)
    as Hcall.
  unfold stats_of in *. cbn [fst snd] in *.
  destruct (increment_category_step category (stats w2)) as [K1 [K2 [K3 [K4 K5]]]];
    [unfold stats_of; rewrite Hs2; exact Hk | exact Hin |].
  assert (K6 : (increment_category category (stats w2)).(api_errors) = (stats w2).(api_errors)
               /\ (increment_category category (stats w2)).(speakers_skipped)
                  = (stats w2).(speakers_skipped)).
  { unfold increment_category. destruct (has_key _ _); split; reflexivity. }
  destruct K6 as [K6 K7].
  unfold process_speaker. run_m. rewrite Hcall. run_m.
  rewrite (five_categories_truthy _ Hin). run_m.
  destruct (is_target_category category) eqn:Htarget; run_m;
    simpl (requests _); simpl (stats _).
  - match goal with
    | |- context [api_call_with_retry _ (?w3, _)] =>
        destruct (generate_email_detail speaker_data category gemini_client
                    (w3, (t2 ++ [EvCall])%list))
          as [email [[w4 t4] [te [Hgen [He1 [He2 [Hs4 [Hr4 [Ht4 Hq4]]]]]]]]];
        pose proof (api_call_with_retry_returns
                      (generate_email speaker_data category gemini_client)
                      (w3, t2) email (w4, t4) Hgen) as Hcall2
    end.
    rewrite Hcall2. run_m. cbn [fst snd requests stats] in *.
    eexists; eexists;
      exists ([EvSleep config.API_DELAY] ++ [EvCall] ++ tc ++ [EvCall] ++ te)%list.
    split; [reflexivity |].
    unfold record_effect, stats_of. cbn [fst snd requests stats made].
    rewrite Hs4. cbn.
    repeat split; trivial; try lia.
    + rewrite Ht4, Ht2. rewrite <- !app_assoc. reflexivity.
    + rewrite K6, Hs2. reflexivity.
    + rewrite K4, Hs2. reflexivity.
    + rewrite K3, Hs2. reflexivity.
    + rewrite K5, Hs2. lia.
    + rewrite K7, Hs2. lia.
    + rewrite calls_app, (service_only_calls _ Hq2). simpl.
      now rewrite (service_only_calls _ Hq4).
    + rewrite own_sleeps_app, (service_only_own_sleeps _ Hq2). simpl.
      now rewrite (service_only_own_sleeps _ Hq4).
    + cbn [Company_Category]. now apply target_category_cases.
  - eexists; eexists; exists ([EvSleep config.API_DELAY] ++ [EvCall] ++ tc)%list.
    split; [reflexivity |].
    unfold record_effect, stats_of. cbn [fst snd requests stats made]. cbn.
    repeat split; trivial; try lia.
    + rewrite Ht2. rewrite <- !app_assoc. reflexivity.
    + rewrite K6, Hs2. reflexivity.
    + rewrite K4, Hs2. reflexivity.
    + rewrite K3, Hs2. reflexivity.
    + rewrite K5, Hs2. lia.
    + rewrite K7, Hs2. lia.
    + now rewrite (service_only_calls _ Hq2).
    + now rewrite (service_only_own_sleeps _ Hq2).
Qed.

Lemma gather_detail gemini_client speakers s :
  five_keys (stats_of s) ->
  exists results s' t',
    gather (map (process_speaker gemini_client) speakers) s = (Ok results, s')
    /\ batch_effect speakers s s' t' (valid_results_of results).
Proof.
  revert s. induction speakers as [| sp rest IH]; intros s Hk.
  - exists [], s, []. split; [reflexivity |].
    unfold batch_effect. simpl. rewrite app_nil_r.
    repeat split; trivial; try lia.
    exists []. split; constructor.
  - destruct (process_speaker_detail gemini_client sp s Hk)
      as [r [s1 [t1 [E [A1 [A2 [A3 [A4 [A5 [A6 [A7 [A8 [A9 [A10 A11]]]]]]]]]]]]]].
    destruct (IH s1 A2)
      as [rs [s2 [t2 [E2 [B1 [B2 [B3 [B4 [B5 [B6 [B7 [B8 [B9 [B10 B11]]]]]]]]]]]]]].
    destruct B11 as [chosen [Hsub Hrows]].
    exists (Ok r :: rs), s2, (t1 ++ t2)%list. split.
    { simpl. rewrite E, E2. reflexivity. }
    unfold batch_effect.
    assert (Hlen : List.length (valid_results_of (Ok r :: rs))
                   = made r + List.length (valid_results_of rs))
      by (destruct r; reflexivity).
    rewrite Hlen. cbn [List.length].
    split; [rewrite B1, A1; now rewrite app_assoc |].
    split; [exact B2 |].
    split; [congruence |].
    split; [congruence |].
    split; [lia |].
    split; [lia |].
    split; [lia |].
    split; [lia |].
    split; [rewrite calls_app; lia |].
    split.
    { rewrite own_sleeps_app, A10, B10. reflexivity. }
    destruct r as [row |].
    + exists (sp :: chosen). split; [now constructor |].
      simpl. constructor; trivial.
    + exists chosen. split; [now constructor | exact Hrows].
Qed.

(** The run with a key and at least one speaker, in full. *)
Lemma run_detail api_key speakers gemini_client :
  truthy_key api_key = true -> speakers <> [] ->
  exists results s' t',
    run api_key speakers gemini_client
    = (Ok {| valid_results := valid_results_of results;
             saved_csv := match valid_results_of results with
                          | [] => None
                          | _ :: _ => Some (valid_results_of results)
                          end;
             report :=
               Some {| shown_scanned := (stats_of s').(total_speakers_scanned);
                       shown_processed := (stats_of s').(speakers_processed);
                       shown_emails := (stats_of s').(emails_generated);
                       shown_skipped := (stats_of s').(speakers_skipped);
                       shown_categories :=
                         filter (fun kv => (0 <? snd kv)%nat)
                           (stats_of s').(category_counts);
                       shown_api_errors := (stats_of s').(api_errors);
                       shown_success_rate := success_rate (stats_of s');
                       shown_no_emails_warning :=
                         negb (0 <? (stats_of s').(emails_generated))%nat |} |},
       s')
    /\ batch_effect (firstn 5 speakers) (batch_start speakers) s' t'
         (valid_results_of results).
Proof.
  intros Hkey Hne. unfold run, main. rewrite Hkey. simpl negb. cbv iota.
  destruct speakers as [| sp rest]; [congruence |].
  run_m.
  destruct (gather_detail gemini_client (firstn 5 (sp :: rest))
              (batch_start (sp :: rest))) as [rs [s1 [t1 [E B]]]]; [reflexivity |].
  unfold batch_start in E.
  change (requests initial_world) with 0.
  change (stats initial_world) with new_stats.
  rewrite E. unfold print_execution_report. run_m.
  exists rs, s1, t1. split; [| exact B].
  unfold stats_of. destruct s1 as [w1 tr1]. reflexivity.
Qed.

Lemma subseq_nil_l {A : Type} (l : list A) : subseq [] l.
Proof. induction l; now constructor. Qed.

Lemma subseq_length {A : Type} (l1 l2 : list A) :
  subseq l1 l2 -> List.length l1 <= List.length l2.
Proof. induction 1; simpl; lia. Qed.

Lemma Forall2_same_length {A B : Type} (R : A -> B -> Prop) l1 l2 :
  Forall2 R l1 l2 -> List.length l1 = List.length l2.
Proof. induction 1; simpl; congruence. Qed.

(** X16.  The rows of a run are the rows of some of the first five
    speakers, in the order of the input: each row copies the name, title
    and company of its speaker, has Builder or Owner as category and a
    subject and a body that are not empty.  There are at most five rows,
    and the file is written exactly when there is a row. *)
Theorem run_rows_match_speakers (api_key : option string) (speakers : list Speaker)
    (gemini_client : GeminiClient) :
  exists outcome s',
    run api_key speakers gemini_client = (Ok outcome, s')
    /\ (exists chosen,
          subseq chosen (firstn 5 speakers)
          /\ Forall2 row_for chosen outcome.(valid_results))
    /\ List.length outcome.(valid_results) <= 5
    /\ outcome.(saved_csv)
       = match outcome.(valid_results) with
         | [] => None
         | _ :: _ => Some outcome.(valid_results)
         end.
Proof.
  assert (Hnone : exists outcome s',
             (Ok {| valid_results := []; saved_csv := None; report := None |},
              (initial_world, ([] : Trace))) = (Ok outcome, s')
             /\ (exists chosen,
                   subseq chosen (firstn 5 speakers)
                   /\ Forall2 row_for chosen outcome.(valid_results))
             /\ List.length outcome.(valid_results) <= 5
             /\ outcome.(saved_csv)
                = match outcome.(valid_results) with
                  | [] => None
                  | _ :: _ => Some outcome.(valid_results)
                  end).
  { eexists; eexists. split; [reflexivity |]. simpl. split; [| split; [lia | trivial]].
    exists []. split; [apply subseq_nil_l | constructor]. }
  destruct (truthy_key api_key) eqn:Hkey.
  - destruct speakers as [| sp rest].
    + rewrite run_without_speakers. exact Hnone.
    + destruct (run_detail api_key (sp :: rest) gemini_client Hkey)
        as [rs [s' [t' [E B]]]]; [discriminate |].
      destruct B as [_ [_ [_ [_ [_ [_ [_ [_ [_ [_ [chosen [Hsub Hrows]]]]]]]]]]]].
      eexists; exists s'. split; [exact E |]. cbn [valid_results saved_csv].
      split; [exists chosen; split; trivial |]. split; [| reflexivity].
      rewrite <- (Forall2_same_length _ _ _ Hrows).
      apply subseq_length in Hsub. rewrite length_firstn in Hsub. lia.
  - rewrite run_without_key by trivial. exact Hnone.
Qed.

Lemma success_rate_full (st : ExecutionStats) (q : Q) :
  st.(api_errors) = 0 -> success_rate st = Some q -> (q == 100)%Q.
Proof.
  unfold success_rate. intros H0.
  destruct (0 <? speakers_processed st)%nat eqn:Hp; [| discriminate].
  apply Nat.ltb_lt in Hp. intro H. inversion H; subst. rewrite H0.
  assert (Hnz : ~ (inject_Z (Z.of_nat (speakers_processed st)) == 0)%Q).
  { unfold Qeq. simpl. lia. }
  change (inject_Z (Z.of_nat 0)) with 0%Q. field. exact Hnz.
Qed.

(** X17.  At the end of every run the error counter is zero: the error
    branches of [process_speaker] are never taken, because neither
    [categorize_company] nor [generate_email] raises.  Every processed
    record is either skipped or counted as an e-mail; with a key the run
    processes the first five speakers at most; a success rate, when the
    report shows one, is 100. *)
Theorem run_counters (api_key : option string) (speakers : list Speaker)
    (gemini_client : GeminiClient) :
  exists outcome s',
    run api_key speakers gemini_client = (Ok outcome, s')
    /\ (stats_of s').(api_errors) = 0
    /\ (stats_of s').(speakers_processed)
       = (stats_of s').(speakers_skipped) + (stats_of s').(emails_generated)
    /\ (stats_of s').(speakers_processed)
       = (if truthy_key api_key then Nat.min 5 (List.length speakers) else 0)
    /\ (forall shown q,
          outcome.(report) = Some shown -> shown.(shown_success_rate) = Some q ->
          (q == 100)%Q).
Proof.
  destruct (truthy_key api_key) eqn:Hkey.
  - destruct speakers as [| sp rest].
    + rewrite run_without_speakers. eexists; eexists. split; [reflexivity |].
      repeat split; try reflexivity. intros shown q H. discriminate.
    + destruct (run_detail api_key (sp :: rest) gemini_client Hkey)
        as [rs [s' [t' [E B]]]]; [discriminate |].
      destruct B as [_ [_ [B3 [_ [B5 [B6 [B7 _]]]]]]].
      unfold batch_start, stats_of in *. cbn [fst snd stats] in *.
      change (api_errors (set_total_speakers_scanned _ new_stats)) with 0 in B3.
      change (speakers_processed (set_total_speakers_scanned _ new_stats)) with 0 in B5.
      change (emails_generated (set_total_speakers_scanned _ new_stats)) with 0 in B6.
      change (speakers_skipped (set_total_speakers_scanned _ new_stats)) with 0 in B7.
      eexists; exists s'. split; [exact E |].
      split; [exact B3 |]. split; [lia |].
      split; [rewrite B5, length_firstn; reflexivity |].
      intros shown q Hrep Hrate. cbn [report] in Hrep. inversion Hrep; subst.
      cbn [shown_success_rate] in Hrate.
      eapply success_rate_full; [exact B3 | exact Hrate].
  - rewrite run_without_key by trivial. eexists; eexists. split; [reflexivity |].
    repeat split; try reflexivity. intros shown q H. discriminate.
Qed.

(** X18.  A run makes at most six requests per processed record, three
    for the category and three for the e-mail: at most thirty in all, and
    none without a key or without a speaker. *)
Theorem run_request_bound (api_key : option string) (speakers : list Speaker)
    (gemini_client : GeminiClient) :
  exists outcome s',
    run api_key speakers gemini_client = (Ok outcome, s')
    /\ (fst s').(requests) <= 6 * (stats_of s').(speakers_processed)
    /\ (fst s').(requests) <= 30
    /\ (truthy_key api_key = false \/ speakers = [] -> (fst s').(requests) = 0).
Proof.
  destruct (truthy_key api_key) eqn:Hkey.
  - destruct speakers as [| sp rest].
    + rewrite run_without_speakers. eexists; eexists. split; [reflexivity |].
      simpl. repeat split; lia.
    + destruct (run_detail api_key (sp :: rest) gemini_client Hkey)
        as [rs [s' [t' [E B]]]]; [discriminate |].
      destruct B as [_ [_ [_ [_ [B5 [_ [_ [B8 _]]]]]]]].
      unfold batch_start, stats_of in *. cbn [fst snd stats requests] in *.
      change (speakers_processed (set_total_speakers_scanned _ new_stats)) with 0 in B5.
      eexists; exists s'. split; [exact E |].
      pose proof (length_firstn 5 (sp :: rest)) as Hl.
      split; [lia |]. split; [lia |].
      intros [H | H]; discriminate.
  - rewrite run_without_key by trivial. eexists; eexists. split; [reflexivity |].
    simpl. repeat split; lia.
Qed.

(** X19.  In a run the wrapper never retries and never sleeps: each use
    of it is one call of its operation, one per processed record for the
    category and one per row for the e-mail, and the sleeps written in
    [main.py] that the run awaits are the one delay of [API_DELAY] at the
    head of [process_speaker], once per processed record.  (The sleeps of
    the [tenacity] decorators inside the two operations come on top.) *)
Theorem run_wrapper_calls_once (api_key : option string) (speakers : list Speaker)
    (gemini_client : GeminiClient) :
  exists outcome s',
    run api_key speakers gemini_client = (Ok outcome, s')
    /\ calls (snd s')
       = (stats_of s').(speakers_processed) + List.length outcome.(valid_results)
    /\ own_sleeps (snd s')
       = repeat config.API_DELAY (stats_of s').(speakers_processed).
Proof.
  destruct (truthy_key api_key) eqn:Hkey.
  - destruct speakers as [| sp rest].
    + rewrite run_without_speakers. eexists; eexists. split; [reflexivity |].
      split; reflexivity.
    + destruct (run_detail api_key (sp :: rest) gemini_client Hkey)
        as [rs [s' [t' [E B]]]]; [discriminate |].
      destruct B as [B1 [_ [_ [_ [B5 [_ [_ [_ [B9 [B10 _]]]]]]]]]].
      unfold batch_start, stats_of in *. cbn [fst snd stats requests] in *.
      change (speakers_processed (set_total_speakers_scanned _ new_stats)) with 0 in B5.
      eexists; exists s'. split; [exact E |]. cbn [valid_results].
      rewrite B1, B5. simpl app. split; [exact B9 | exact B10].
  - rewrite run_without_key by trivial. eexists; eexists. split; [reflexivity |].
    split; reflexivity.
Qed.

Lemma truthy_nonempty (s : string) : Str.truthy s = true -> s <> "".
Proof. destruct s; [discriminate | intros _; discriminate]. Qed.

Lemma categorize_company_offline company title gemini_client s :
  all_requests_fail gemini_client ->
  fst (categorize_company company title gemini_client s)
  = Ok (offline_category company title).
Proof.
  intro Hfail. unfold offline_category.
  destruct (Str.truthy company) eqn:Hc; [| unfold categorize_company; now rewrite Hc].
  destruct (Str.truthy title) eqn:Ht;
    [| unfold categorize_company; rewrite Hc, Ht; reflexivity].
  cbn [negb orb].
  apply truthy_nonempty in Hc. apply truthy_nonempty in Ht.
  destruct (in_manual_list COMPETITORS _ _) eqn:E1;
    [rewrite (categorize_company_nonempty _ _ _ Hc Ht), E1; reflexivity |].
  destruct (in_manual_list PARTNERS _ _) eqn:E2;
    [rewrite (categorize_company_nonempty _ _ _ Hc Ht), E1, E2; reflexivity |].
  now apply categorize_company_service_down.
Qed.

Lemma process_speaker_outage gemini_client speaker_data s :
  all_requests_fail gemini_client ->
  five_keys (stats_of s) ->
  exists result s',
    process_speaker gemini_client speaker_data s = (Ok result, s')
    /\ five_keys (stats_of s')
    /\ valid_results_of [Ok result] = offline_rows [speaker_data].
Proof.
  intros Hfail Hk. destruct s as [w t].
  destruct (categorize_company_detail speaker_data.(company) speaker_data.(title)
              gemini_client (w, ((t ++ [EvSleep config.API_DELAY]) ++ [EvCall])%list))
    as [category [[w2 t2] [tc [Hcat [Hin [Hs2 _]]]]]].
  pose proof (categorize_company_offline speaker_data.(company) speaker_data.(title)
                gemini_client (w, ((t ++ [EvSleep config.API_DELAY]) ++ [EvCall])%list)
                Hfail) as Hoff.
  rewrite Hcat in Hoff. cbn [fst] in Hoff. inversion Hoff as [Hc]. clear Hoff.
  pose proof (api_call_with_retry_returns
                (categorize_company speaker_data.(company) speaker_data.(title)
                   gemini_client)
                (w, (t ++ [EvSleep config.API_DELAY])%list) category (w2, t2) Hcat)
    as Hcall.
  unfold stats_of in *. cbn [fst snd] in *.
  destruct (increment_category_step category (stats w2)) as [K1 _];
    [unfold stats_of; rewrite Hs2; exact Hk | exact Hin |].
  unfold process_speaker. run_m. rewrite Hcall. run_m.
  rewrite (five_categories_truthy _ Hin). run_m.
  cbn [offline_rows]. rewrite <- Hc.
  destruct (is_target_category category) eqn:Htarget; run_m;
    simpl (requests _); simpl (stats _).
  - match goal with
    | |- context [api_call_with_retry _ (?w3, _)] =>
        destruct (generate_email_offline speaker_data category gemini_client
                    (w3, (t2 ++ [EvCall])%list) Hfail) as [te [Hgen _]];
        pose proof (api_call_with_retry_returns
                      (generate_email speaker_data category gemini_client)
                      (w3, t2) _ _ Hgen) as Hcall2
    end.
    rewrite Hcall2. run_m.
    eexists; eexists. split; [reflexivity |]. split; [| reflexivity].
    cbn [fst snd stats]. exact K1.
  - eexists; eexists. split; [reflexivity |]. split; [| reflexivity].
    cbn [fst snd stats]. exact K1.
Qed.

Lemma offline_rows_cons (speaker_data : Speaker) (rest : list Speaker) :
  offline_rows (speaker_data :: rest)
  = (offline_rows [speaker_data] ++ offline_rows rest)%list.
Proof.
  cbn [offline_rows].
  destruct (is_target_category _); reflexivity.
Qed.

Lemma valid_results_of_cons r rs :
  valid_results_of (r :: rs) = (valid_results_of [r] ++ valid_results_of rs)%list.
Proof. destruct r as [[row |] | e]; reflexivity. Qed.

Lemma gather_outage gemini_client speakers s :
  all_requests_fail gemini_client ->
  five_keys (stats_of s) ->
  exists results s',
    gather (map (process_speaker gemini_client) speakers) s = (Ok results, s')
    /\ valid_results_of results = offline_rows speakers.
Proof.
  intro Hfail. revert s. induction speakers as [| sp rest IH]; intros s Hk.
  - exists [], s. split; reflexivity.
  - destruct (process_speaker_outage gemini_client sp s Hfail Hk)
      as [r [s1 [E [K1 Hr]]]].
    destruct (IH s1 K1) as [rs [s2 [E2 Hrs]]].
    exists (Ok r :: rs), s2. split.
    + simpl. rewrite E, E2. reflexivity.
    + rewrite valid_results_of_cons, offline_rows_cons. congruence.
Qed.

(** X20.  With the service down the output of a run does not depend on
    the service: with a key, when the companies and titles of the first
    five speakers are in ASCII, the rows are the templates of those of
    the five that the empty-field guard, the manual lists and the keyword
    heuristic classify as Builder or Owner, in input order. *)
Theorem run_outage_rows (api_key : option string) (speakers : list Speaker)
    (gemini_client : GeminiClient) :
  Forall ascii_pair (firstn 5 speakers) ->
  all_requests_fail gemini_client ->
  truthy_key api_key = true ->
  exists outcome s',
    run api_key speakers gemini_client = (Ok outcome, s')
    /\ outcome.(valid_results) = offline_rows (firstn 5 speakers).
Proof.
  intros _ Hfail Hkey. destruct speakers as [| sp rest].
  - rewrite run_without_speakers. eexists; eexists. split; reflexivity.
  - unfold run, main. rewrite Hkey. simpl negb. cbv iota. run_m.
    destruct (gather_outage gemini_client (firstn 5 (sp :: rest))
                (batch_start (sp :: rest)) Hfail) as [rs [s1 [E Hrows]]];
      [reflexivity |].
    unfold batch_start in E.
    change (requests initial_world) with 0.
    change (stats initial_world) with new_stats.
    rewrite E. unfold print_execution_report. run_m.
    eexists; eexists. split; [reflexivity |]. exact Hrows.
Qed.

Lemma run_outage_rows_witness :
  exists outcome s',
    run (Some "key") six_speakers (fun _ _ => Raise "503 Service Unavailable")
    = (Ok outcome, s')
    /\ outcome.(valid_results) = offline_rows (firstn 5 six_speakers).
Proof.
  apply run_outage_rows.
  - repeat constructor.
  - intros k p. eauto.
  - reflexivity.
Defined.

(** ** Words and single spacing *)

Lemma join_cons_word (c : ascii) (w : string) (ws : list string) :
  Str.join " " (String c w :: ws) = String c (Str.join " " (w :: ws)).
Proof. unfold Str.join. destruct ws; reflexivity. Qed.

Lemma split_words (v : string) : Forall word (Str.split v).
Proof.
  induction v as [| c t IH]; [constructor |].
  simpl. destruct (Str.is_space c) eqn:Hc; trivial.
  destruct (Str.at_word_end t).
  - constructor; trivial. split; [discriminate | simpl; now rewrite Hc].
  - destruct (Str.split t) as [| w ws].
    + constructor; trivial. split; [discriminate | simpl; now rewrite Hc].
    + inversion IH as [| ? ? [_ Hw] Hws]; subst. constructor; trivial.
      split; [discriminate | simpl; now rewrite Hc, Hw].
Qed.

Lemma split_word_then (w rest : string) :
  word w -> Str.split (w ++ " " ++ rest) = w :: Str.split rest.
Proof.
  intros [Hne Hv]. induction w as [| c w IH]; [congruence |].
  simpl in Hv. apply andb_true_iff in Hv. destruct Hv as [Hc Hw].
  apply negb_true_iff in Hc.
  destruct w as [| d w].
  - simpl. rewrite Hc. reflexivity.
  - pose proof Hw as Hw0. simpl in Hw. apply andb_true_iff in Hw.
    destruct Hw as [Hd Hw']. apply negb_true_iff in Hd.
    change (Str.split (String c (String d w) ++ " " ++ rest))
      with (if Str.is_space c then Str.split (String d w ++ " " ++ rest)
            else if Str.is_space d
                 then String c EmptyString :: Str.split (String d w ++ " " ++ rest)
                 else match Str.split (String d w ++ " " ++ rest) with
                      | w0 :: ws => String c w0 :: ws
                      | [] => [String c EmptyString]
                      end).
    rewrite Hc, Hd. rewrite IH; [reflexivity | discriminate | exact Hw0].
Qed.

Lemma split_one_word (w : string) : word w -> Str.split w = [w].
Proof.
  intros [Hne Hv]. induction w as [| c w IH]; [congruence |].
  simpl in Hv. apply andb_true_iff in Hv. destruct Hv as [Hc Hw].
  apply negb_true_iff in Hc.
  destruct w as [| d w].
  - simpl. rewrite Hc. reflexivity.
  - pose proof Hw as Hw0. simpl in Hw. apply andb_true_iff in Hw.
    destruct Hw as [Hd Hw']. apply negb_true_iff in Hd.
    change (Str.split (String c (String d w)))
      with (if Str.is_space c then Str.split (String d w)
            else if Str.is_space d
                 then String c EmptyString :: Str.split (String d w)
                 else match Str.split (String d w) with
                      | w0 :: ws => String c w0 :: ws
                      | [] => [String c EmptyString]
                      end).
    rewrite Hc, Hd. rewrite IH; [reflexivity | discriminate | exact Hw0].
Qed.

Lemma split_join (ws : list string) :
  Forall word ws -> Str.split (Str.join " " ws) = ws.
Proof.
  induction 1 as [| w ws Hw Hws IH]; [reflexivity |].
  destruct ws as [| w' ws'].
  - unfold Str.join. simpl. now apply split_one_word.
  - change (Str.join " " (w :: w' :: ws')) with (w ++ " " ++ Str.join " " (w' :: ws')).
    rewrite split_word_then by trivial. now rewrite IH.
Qed.

Lemma rstrip_word (w : string) : visible w = true -> Str.rstrip w = w.
Proof.
  induction w as [| c w IH]; trivial. simpl. intro H.
  apply andb_true_iff in H. destruct H as [Hc Hw]. apply negb_true_iff in Hc.
  rewrite Hc, (IH Hw). reflexivity.
Qed.

Lemma join_words_nonempty (w : string) (ws : list string) :
  word w -> Str.join " " (w :: ws) <> "".
Proof.
  intros [Hne _]. destruct w; [congruence |]. rewrite join_cons_word. discriminate.
Qed.

Lemma rstrip_join (ws : list string) :
  Forall word ws -> Str.rstrip (Str.join " " ws) = Str.join " " ws.
Proof.
  induction 1 as [| w ws Hw Hws IH]; [reflexivity |].
  destruct ws as [| w' ws'].
  - unfold Str.join. simpl. apply rstrip_word, Hw.
  - change (Str.join " " (w :: w' :: ws')) with (w ++ " " ++ Str.join " " (w' :: ws')).
    inversion Hws; subst.
    replace (w ++ " " ++ Str.join " " (w' :: ws'))
      with ((w ++ " ") ++ Str.join " " (w' :: ws')) by apply append_assoc.
    rewrite rstrip_append; rewrite IH; trivial.
    now apply join_words_nonempty.
Qed.

Lemma lstrip_join (ws : list string) :
  Forall word ws -> Str.lstrip (Str.join " " ws) = Str.join " " ws.
Proof.
  intros H. destruct H as [| w ws [Hne Hv] Hws]; [reflexivity |].
  destruct w as [| c w]; [congruence |]. rewrite join_cons_word.
  simpl in Hv. apply andb_true_iff in Hv. destruct Hv as [Hc _].
  apply negb_true_iff in Hc. simpl. now rewrite Hc.
Qed.

Lemma strip_join (ws : list string) :
  Forall word ws -> Str.strip (Str.join " " ws) = Str.join " " ws.
Proof.
  intro H. unfold Str.strip. now rewrite rstrip_join, lstrip_join.
Qed.

Lemma single_spaced_idempotent (v : string) :
  single_spaced (single_spaced v) = single_spaced v.
Proof.
  unfold single_spaced. now rewrite split_join by apply split_words.
Qed.

Lemma single_spaced_stripped (v : string) :
  Str.strip (single_spaced v) = single_spaced v.
Proof. apply strip_join, split_words. Qed.

Lemma split_at_word_start (c : ascii) (t : string) :
  Str.is_space c = false -> Str.split (String c t) <> [].
Proof.
  intro Hc. simpl. rewrite Hc. destruct (Str.at_word_end t); [discriminate |].
  destruct (Str.split t); discriminate.
Qed.

Lemma length_append (a b : string) :
  String.length (a ++ b) = String.length a + String.length b.
Proof. induction a as [| c a IH]; simpl; congruence. Qed.

(** Single spacing never lengthens a text; a text that starts with white
    space gets shorter. *)
Lemma single_spaced_length (v : string) :
  String.length (single_spaced v) <= String.length v
  /\ (Str.at_word_end v = true -> v <> "" ->
      String.length (single_spaced v) + 1 <= String.length v).
Proof.
  unfold single_spaced. induction v as [| c t [IH1 IH2]].
  - split; [simpl; lia | congruence].
  - cbn [Str.split Str.at_word_end]. destruct (Str.is_space c) eqn:Hc.
    + cbn [String.length]. split; [lia | intros _ _; lia].
    + split; [| discriminate].
      destruct (Str.at_word_end t) eqn:He.
      * destruct t as [| d t'].
        -- simpl. lia.
        -- specialize (IH2 eq_refl ltac:(discriminate)).
           unfold Str.join in *. cbn [String.concat].
           destruct (Str.split (String d t')) as [| w ws] eqn:Es.
           ++ simpl. lia.
           ++ cbn [String.length append]. rewrite ?length_append in *.
              cbn [String.length] in *. lia.
      * destruct (Str.split t) as [| w ws] eqn:Es.
        -- simpl. lia.
        -- rewrite join_cons_word. cbn [String.length]. lia.
Qed.

Lemma split_blank (v : string) : Str.split v = [] -> Str.strip v = "".
Proof.
  induction v as [| c t IH]; trivial.
  intro H. destruct (Str.is_space c) eqn:Hc.
  - simpl in H. rewrite Hc in H. specialize (IH H).
    unfold Str.strip in *. simpl. rewrite Hc.
    destruct (Str.rstrip t) eqn:Er; simpl; trivial.
    rewrite Hc. exact IH.
  - now apply split_at_word_start in H.
Qed.

Lemma single_spaced_nonempty (v : string) :
  Str.truthy (Str.strip v) = true -> single_spaced v <> "".
Proof.
  intro H. unfold single_spaced.
  destruct (Str.split v) as [| w ws] eqn:Es.
  - apply split_blank in Es. rewrite Es in H. discriminate.
  - pose proof (split_words v) as Hw. rewrite Es in Hw. inversion Hw; subst.
    now apply join_words_nonempty.
Qed.

(** ** models.py and utils/scraper.py *)

Lemma lstrip_idempotent (s : string) : Str.lstrip (Str.lstrip s) = Str.lstrip s.
Proof.
  induction s as [| c t IH]; trivial. simpl.
  destruct (Str.is_space c) eqn:Hc; trivial. simpl. now rewrite Hc.
Qed.

Lemma rstrip_lstrip (s : string) :
  Str.rstrip s = s -> Str.rstrip (Str.lstrip s) = Str.lstrip s.
Proof.
  induction s as [| c t IH]; trivial. intro H.
  cbn [Str.lstrip]. destruct (Str.is_space c) eqn:Hc; trivial.
  apply IH. simpl in H. rewrite Hc in H. cbn [andb] in H.
  destruct (Str.is_empty (Str.rstrip t)); [discriminate | congruence].
Qed.

Lemma strip_idempotent (s : string) : Str.strip (Str.strip s) = Str.strip s.
Proof.
  unfold Str.strip.
  rewrite (rstrip_lstrip (Str.rstrip s)) by apply rstrip_idempotent.
  apply lstrip_idempotent.
Qed.

Lemma length_lstrip (s : string) : String.length (Str.lstrip s) <= String.length s.
Proof.
  induction s as [| c t IH]; simpl; trivial. destruct (Str.is_space c); simpl; lia.
Qed.

Lemma length_rstrip (s : string) : String.length (Str.rstrip s) <= String.length s.
Proof.
  induction s as [| c t IH]; simpl; trivial.
  destruct (Str.is_space c && Str.is_empty (Str.rstrip t)); simpl; lia.
Qed.

Lemma length_strip (s : string) : String.length (Str.strip s) <= String.length s.
Proof.
  unfold Str.strip. pose proof (length_lstrip (Str.rstrip s)).
  pose proof (length_rstrip s). lia.
Qed.

Lemma length_remove_from (old : string) (skip : nat) (s : string) :
  String.length (Str.remove_from old skip s) <= String.length s.
Proof.
  revert skip. induction s as [| c t IH]; intro k; simpl; trivial.
  destruct k as [| k].
  - destruct (Str.startswith (String c t) old).
    + specialize (IH (String.length old - 1)). lia.
    + simpl. specialize (IH 0). lia.
  - specialize (IH k). lia.
Qed.

Lemma strip_nonblank (v : string) : Str.split v <> [] -> Str.strip v <> "".
Proof.
  induction v as [| c t IH]; [intro H; now elim H |].
  intro H. destruct (Str.is_space c) eqn:Hc.
  - rewrite strip_space_cons by trivial. apply IH.
    simpl in H. now rewrite Hc in H.
  - unfold Str.strip. rewrite rstrip_nonspace by trivial. simpl. rewrite Hc.
    discriminate.
Qed.

Lemma single_spaced_blank (v : string) : Str.strip v = "" -> single_spaced v = "".
Proof.
  intro H. unfold single_spaced.
  destruct (Str.split v) as [| w ws] eqn:Es; [reflexivity |].
  exfalso. apply (strip_nonblank v); [rewrite Es; discriminate | exact H].
Qed.

Lemma nonempty_length (s : string) : s <> "" -> 1 <= String.length s.
Proof. destruct s; [congruence | simpl; lia]. Qed.

(** What the three validators have in common. *)
Lemma validator_result (message : string) (v r : string) :
  (if negb (Str.truthy v) || negb (Str.truthy (Str.strip v)) then Raise message
   else Ok (Str.strip (single_spaced v))) = Ok r ->
  r = single_spaced v /\ single_spaced r = r /\ stripped r
  /\ 1 <= String.length r <= String.length v
  /\ Str.truthy r = true /\ Str.truthy (Str.strip r) = true.
Proof.
  destruct (Str.truthy v) eqn:Hv; [| discriminate].
  destruct (Str.truthy (Str.strip v)) eqn:Hs; [| discriminate].
  cbn [negb orb]. rewrite single_spaced_stripped. intro H. inversion H; subst.
  pose proof (single_spaced_nonempty v Hs) as Hne.
  split; [reflexivity |]. split; [apply single_spaced_idempotent |].
  split; [apply single_spaced_stripped |].
  split; [split; [now apply nonempty_length | apply single_spaced_length] |].
  rewrite single_spaced_stripped. split; now apply truthy_true.
Qed.

Lemma validators_single_spaced (v r : string) :
  (validate_name v = Ok r ->
   r = single_spaced v /\ stripped r /\ 2 <= String.length r <= String.length v
   /\ validate_name r = Ok r)
  /\ (validate_title v = Ok r ->
      r = single_spaced v /\ stripped r /\ 1 <= String.length r <= String.length v
      /\ validate_title r = Ok r)
  /\ (validate_company v = Ok r ->
      r = single_spaced v /\ stripped r /\ 1 <= String.length r <= String.length v
      /\ validate_company r = Ok r).
Proof.
  split; [| split].
  - unfold validate_name. cbv zeta. fold (single_spaced v).
    destruct (negb (Str.truthy v) || negb (Str.truthy (Str.strip v))) eqn:E;
      [discriminate |].
    destruct (String.length (single_spaced v) <? 2)%nat eqn:L; [discriminate |].
    intro H.
    destruct (validator_result "Name cannot be empty" v r)
      as [H1 [H2 [H3 [H4 [H5 H6]]]]]; [now rewrite E |].
    apply Nat.ltb_ge in L. rewrite <- H1 in L.
    repeat split; trivial; try lia.
    fold (single_spaced r). rewrite H5, H6, H2. cbn [negb orb].
    replace (String.length r <? 2)%nat with false
      by (symmetry; now apply Nat.ltb_ge).
    now rewrite H3.
  - unfold validate_title. cbv zeta. fold (single_spaced v). intro H.
    destruct (validator_result "Title cannot be empty" v r H)
      as [H1 [H2 [H3 [H4 [H5 H6]]]]].
    repeat split; trivial; try lia.
    fold (single_spaced r). rewrite H5, H6, H2. cbn [negb orb]. now rewrite H3.
  - unfold validate_company. cbv zeta. fold (single_spaced v). intro H.
    destruct (validator_result "Company cannot be empty" v r H)
      as [H1 [H2 [H3 [H4 [H5 H6]]]]].
    repeat split; trivial; try lia.
    fold (single_spaced r). rewrite H5, H6, H2. cbn [negb orb]. now rewrite H3.
Qed.

(** X21.  An ASCII value accepted by a validator of [Speaker] is returned
    single spaced (the words of the input, one space between them),
    without white space at either end, not empty and no longer than the
    input; an accepted name has at least two characters.  Each validator
    accepts its own results and returns them unchanged. *)
Theorem validators_normalise (v r : string) :
  Str.isascii v = true ->
  (validate_name v = Ok r ->
   r = single_spaced v /\ stripped r /\ 2 <= String.length r <= String.length v
   /\ validate_name r = Ok r)
  /\ (validate_title v = Ok r ->
      r = single_spaced v /\ stripped r /\ 1 <= String.length r <= String.length v
      /\ validate_title r = Ok r)
  /\ (validate_company v = Ok r ->
      r = single_spaced v /\ stripped r /\ 1 <= String.length r <= String.length v
      /\ validate_company r = Ok r).
Proof.
  intros _. exact (validators_single_spaced v r).
Qed.

Lemma validators_normalise_witness :
  "John Smith" = single_spaced "  John   Smith " /\ stripped "John Smith"
  /\ 2 <= String.length "John Smith" <= String.length "  John   Smith "
  /\ validate_name "John Smith" = Ok "John Smith".
Proof.
  apply (proj1 (validators_normalise "  John   Smith " "John Smith" eq_refl)).
  reflexivity.
Defined.

Lemma str_field_ok (min_length max_length : nat) validator (v r : string) :
  str_field min_length max_length validator v = Ok r ->
  min_length <= String.length v <= max_length /\ validator v = Ok r.
Proof.
  unfold str_field.
  destruct (String.length v <? min_length)%nat eqn:L1; [discriminate |].
  destruct (max_length <? String.length v)%nat eqn:L2; [discriminate |].
  apply Nat.ltb_ge in L1. apply Nat.ltb_ge in L2. intro H. split; [lia | exact H].
Qed.

Lemma Speaker_model_valid (n t c : string) (sp : Speaker) :
  Speaker_model n t c = Valid sp ->
  str_field config.MIN_NAME_LENGTH 100 validate_name n = Ok sp.(name)
  /\ str_field config.MIN_TITLE_LENGTH 200 validate_title t = Ok sp.(title)
  /\ str_field config.MIN_COMPANY_LENGTH 100 validate_company c = Ok sp.(company).
Proof.
  unfold Speaker_model. cbv zeta.
  destruct (str_field config.MIN_NAME_LENGTH 100 validate_name n) as [n' | e1];
    [| destruct (str_field config.MIN_TITLE_LENGTH 200 validate_title t);
       destruct (str_field config.MIN_COMPANY_LENGTH 100 validate_company c);
       discriminate].
  destruct (str_field config.MIN_TITLE_LENGTH 200 validate_title t) as [t' | e2];
    [| destruct (str_field config.MIN_COMPANY_LENGTH 100 validate_company c);
       discriminate].
  destruct (str_field config.MIN_COMPANY_LENGTH 100 validate_company c) as [c' | e3];
    [| discriminate].
  intro H. inversion H; subst. simpl. repeat split.
Qed.

Lemma Speaker_model_stored (n t c : string) (sp : Speaker) :
  Speaker_model n t c = Valid sp ->
  within_speaker_bounds {| name := n; title := t; company := c |}
  /\ sp = {| name := single_spaced n; title := single_spaced t;
             company := single_spaced c |}
  /\ 2 <= String.length sp.(name) <= 100
  /\ 1 <= String.length sp.(title) <= 200
  /\ 1 <= String.length sp.(company) <= 100.
Proof.
  intro H. apply Speaker_model_valid in H. destruct H as [Hn [Ht Hc]].
  apply str_field_ok in Hn, Ht, Hc.
  destruct Hn as [Ln Hn], Ht as [Lt Ht], Hc as [Lc Hc].
  apply (proj1 (validators_single_spaced n _)) in Hn.
  apply (proj1 (proj2 (validators_single_spaced t _))) in Ht.
  apply (proj2 (proj2 (validators_single_spaced c _))) in Hc.
  destruct Hn as [N1 [N2 [N3 N4]]], Ht as [T1 [T2 [T3 T4]]], Hc as [C1 [C2 [C3 C4]]].
  unfold within_speaker_bounds. simpl.
  split; [repeat split; lia |].
  split; [destruct sp; simpl in *; congruence |].
  repeat split; lia.
Qed.

(** X22.  A speaker accepted by the model, for values in ASCII: its
    three raw values are within the declared length bounds, and the
    stored values are these values single spaced, so that the stored
    name has between 2 and 100 characters, the stored title between 1
    and 200 and the stored company between 1 and 100. *)
Theorem Speaker_model_accepts (n t c : string) (sp : Speaker) :
  Str.isascii n = true -> Str.isascii t = true -> Str.isascii c = true ->
  Speaker_model n t c = Valid sp ->
  within_speaker_bounds {| name := n; title := t; company := c |}
  /\ sp = {| name := single_spaced n; title := single_spaced t;
             company := single_spaced c |}
  /\ 2 <= String.length sp.(name) <= 100
  /\ 1 <= String.length sp.(title) <= 200
  /\ 1 <= String.length sp.(company) <= 100.
Proof.
  intros _ _ _. exact (Speaker_model_stored n t c sp).
Qed.

Lemma Speaker_model_accepts_witness :
  within_speaker_bounds
    {| name := "Jane  Doe"; title := " Site   Superintendent"; company := "XYZ Engineering" |}
  /\ {| name := "Jane Doe"; title := "Site Superintendent"; company := "XYZ Engineering" |}
     = {| name := single_spaced "Jane  Doe";
          title := single_spaced " Site   Superintendent";
          company := single_spaced "XYZ Engineering" |}
  /\ 2 <= String.length "Jane Doe" <= 100
  /\ 1 <= String.length "Site Superintendent" <= 200
  /\ 1 <= String.length "XYZ Engineering" <= 100.
Proof.
  apply (Speaker_model_accepts "Jane  Doe" " Site   Superintendent" "XYZ Engineering"
           {| name := "Jane Doe"; title := "Site Superintendent";
              company := "XYZ Engineering" |}); reflexivity.
Defined.

Lemma short_title_field (w c : ascii) :
  Str.is_space w = true -> Str.is_space c = false ->
  str_field config.MIN_TITLE_LENGTH 200 validate_title (String w (String c ""))
  = Ok (String c "")
  /\ str_field config.MIN_TITLE_LENGTH 200 validate_title (String c (String w ""))
     = Ok (String c "").
Proof.
  intros Hw Hc. unfold str_field, validate_title, Str.strip. simpl.
  rewrite Hw, Hc. simpl. rewrite Hc. simpl. rewrite ?Hw, ?Hc. simpl.
  rewrite ?Hw, ?Hc. split; reflexivity.
Qed.

(** X23.  The minimum length is checked before the validator runs.  With
    a name and a company that their fields accept, a title in ASCII made
    of one white space and one visible character, in either order, has
    the two characters of the minimum: the model is built, and its title
    is the visible character alone, below the minimum.  The stored
    record is not accepted when the model is built again from it. *)
Theorem Speaker_model_short_title (n co n' co' : string) (w c : ascii) :
  Str.isascii n = true -> Str.isascii co = true ->
  Str.isascii (String w (String c "")) = true ->
  Str.is_space w = true -> Str.is_space c = false ->
  str_field config.MIN_NAME_LENGTH 100 validate_name n = Ok n' ->
  str_field config.MIN_COMPANY_LENGTH 100 validate_company co = Ok co' ->
  Speaker_model n (String w (String c "")) co
  = Valid {| name := n'; title := String c ""; company := co' |}
  /\ Speaker_model n (String c (String w "")) co
     = Valid {| name := n'; title := String c ""; company := co' |}
  /\ String.length (String c "") < config.MIN_TITLE_LENGTH
  /\ exists errors,
       Speaker_model n' (String c "") co' = Invalid errors
       /\ In ("title", "string_too_short") errors.
Proof.
  intros _ _ _ Hw Hc Hn Hco.
  destruct (short_title_field w c Hw Hc) as [T1 T2].
  split; [| split; [| split]].
  - unfold Speaker_model. cbv zeta. now rewrite Hn, Hco, T1.
  - unfold Speaker_model. cbv zeta. now rewrite Hn, Hco, T2.
  - unfold config.MIN_TITLE_LENGTH. simpl. lia.
  - unfold Speaker_model. cbv zeta.
    change (str_field config.MIN_TITLE_LENGTH 200 validate_title (String c ""))
      with (Raise (A:=string) "string_too_short").
    destruct (str_field config.MIN_NAME_LENGTH 100 validate_name n') as [n2 | e1];
      destruct (str_field config.MIN_COMPANY_LENGTH 100 validate_company co')
        as [c2 | e3];
      eexists; (split; [reflexivity |]); simpl; auto.
Qed.

Lemma Speaker_model_short_title_witness :
  Speaker_model "John Smith" " a" "ABC  Construction"
  = Valid {| name := "John Smith"; title := "a"; company := "ABC Construction" |}
  /\ Speaker_model "John Smith" "a " "ABC  Construction"
     = Valid {| name := "John Smith"; title := "a"; company := "ABC Construction" |}
  /\ String.length "a" < config.MIN_TITLE_LENGTH
  /\ exists errors,
       Speaker_model "John Smith" "a" "ABC Construction" = Invalid errors
       /\ In ("title", "string_too_short") errors.
Proof.
  apply (Speaker_model_short_title "John Smith" "ABC  Construction"
           "John Smith" "ABC Construction" " " "a"); reflexivity.
Defined.

Lemma clean_text_facts (text : string) :
  stripped (_clean_text text)
  /\ String.length (_clean_text text) <= String.length text
  /\ (Str.strip text = "" -> _clean_text text = "").
Proof.
  unfold _clean_text, stripped. cbv zeta. fold (single_spaced text).
  destruct (Str.truthy text) eqn:Ht; cbn [negb].
  - split; [apply strip_idempotent |]. split.
    + pose proof (length_strip (Str.remove_all "Name:"
                                  (Str.remove_all "Speaker:" (single_spaced text)))).
      pose proof (length_remove_from "Name:" 0
                    (Str.remove_all "Speaker:" (single_spaced text))).
      pose proof (length_remove_from "Speaker:" 0 (single_spaced text)).
      pose proof (proj1 (single_spaced_length text)).
      unfold Str.remove_all in *. lia.
    + intro H. now rewrite (single_spaced_blank _ H).
  - split; [reflexivity |]. split; [simpl; lia | reflexivity].
Qed.

(** X24.  [_clean_text] returns a text without white space at either
    end and no longer than its input; an empty or blank input gives the
    empty string. *)
Theorem clean_text_stripped (text : string) :
  stripped (_clean_text text)
  /\ String.length (_clean_text text) <= String.length text
  /\ (Str.strip text = "" -> _clean_text text = "").
Proof.
  exact (clean_text_facts text).
Qed.

Lemma clean_text_stripped_witness :
  _clean_text (String " " (String "009" " ")) = "".
Proof.
  apply (proj2 (proj2 (clean_text_stripped (String " " (String "009" " "))))).
  reflexivity.
Defined.

Lemma keep_speakers_step (element : string * string * string)
    (rest : list (string * string * string)) :
  keep_speakers (element :: rest) = keep_speakers rest
  \/ (keep_speakers (element :: rest)
      = _extract_speaker_data element :: keep_speakers rest
      /\ exists model,
           Speaker_model (_extract_speaker_data element).(name)
             (_extract_speaker_data element).(title)
             (_extract_speaker_data element).(company) = Valid model).
Proof.
  cbn [keep_speakers]. cbv zeta.
  destruct (Str.truthy _ && Str.truthy _ && Str.truthy _); [| now left].
  destruct (Speaker_model _ _ _) as [model | errors] eqn:E; [| now left].
  right. split; [reflexivity | eauto].
Qed.

Lemma extract_stripped (element : string * string * string) :
  stripped (_extract_speaker_data element).(name)
  /\ stripped (_extract_speaker_data element).(title)
  /\ stripped (_extract_speaker_data element).(company).
Proof.
  destruct element as [[n t] c]. simpl.
  repeat split; apply clean_text_facts.
Qed.

(** X25.  For texts in ASCII, the speakers that the scraper keeps are
    records extracted from the elements, in the order of the elements;
    each one has its three fields within the declared bounds (so none is
    empty) and without white space at either end. *)
Theorem keep_speakers_valid (found : list (string * string * string)) :
  Forall ascii_texts found ->
  subseq (keep_speakers found) (map _extract_speaker_data found)
  /\ Forall (fun speaker_data =>
               within_speaker_bounds speaker_data
               /\ stripped speaker_data.(name)
               /\ stripped speaker_data.(title)
               /\ stripped speaker_data.(company)
               /\ speaker_data.(company) <> "" /\ speaker_data.(title) <> "")
       (keep_speakers found).
Proof.
  intros _. induction found as [| element rest [IH1 IH2]].
  - split; constructor.
  - destruct (keep_speakers_step element rest) as [E | [E [model Hm]]]; rewrite E.
    + split; [simpl; now constructor | exact IH2].
    + split; [simpl; now constructor |].
      constructor; [| exact IH2].
      apply Speaker_model_stored in Hm. destruct Hm as [Hb _].
      destruct (extract_stripped element) as [S1 [S2 S3]].
      destruct (_extract_speaker_data element) as [n t c].
      unfold within_speaker_bounds, config.MIN_COMPANY_LENGTH, config.MIN_TITLE_LENGTH
        in *. simpl in *.
      repeat split; trivial; try lia.
      * intros ->. simpl in Hb. lia.
      * intros ->. simpl in Hb. lia.
Qed.

Lemma keep_speakers_valid_witness :
  keep_speakers [("Speaker: John  Smith", "Project Manager", "ABC Construction");
                 ("Jane Doe", "", "XYZ Engineering");
                 ("Ann Lee", "a", "Lee Studio")]
  = [john_smith]
  /\ within_speaker_bounds john_smith.
Proof.
  split; [reflexivity |].
  destruct (keep_speakers_valid
              [("Speaker: John  Smith", "Project Manager", "ABC Construction");
               ("Jane Doe", "", "XYZ Engineering");
               ("Ann Lee", "a", "Lee Studio")]) as [_ H].
  - repeat constructor.
  - inversion H as [| ? ? [Hb _] _]. exact Hb.
Defined.

(** ** The statistics and the report *)

(** X26.  [increment_category] on any dictionary of counters: the keys
    and their order are kept; a category that is no key changes nothing;
    a category that is a key has its count raised by one; every other
    count and every other counter is unchanged. *)
Theorem increment_category_effect (category : string) (st : ExecutionStats) :
  map fst (increment_category category st).(category_counts)
  = map fst st.(category_counts)
  /\ (has_key category st.(category_counts) = false ->
      increment_category category st = st)
  /\ (has_key category st.(category_counts) = true ->
      count_of category (increment_category category st).(category_counts)
      = S (count_of category st.(category_counts)))
  /\ (forall other, other <> category ->
        count_of other (increment_category category st).(category_counts)
        = count_of other st.(category_counts))
  /\ (increment_category category st).(speakers_processed) = st.(speakers_processed)
  /\ (increment_category category st).(emails_generated) = st.(emails_generated)
  /\ (increment_category category st).(speakers_skipped) = st.(speakers_skipped)
  /\ (increment_category category st).(api_errors) = st.(api_errors).
Proof.
  unfold increment_category.
  destruct (has_key category (category_counts st)) eqn:E; simpl.
  - split; [apply add_one_keys |]. split; [discriminate |].
    split; [intros _; now apply add_one_count |].
    split; [intros other Hne; now apply add_one_other |]. repeat split.
  - split; [reflexivity |]. split; [reflexivity |]. split; [discriminate |].
    repeat split.
Qed.

Lemma increment_category_effect_witness :
  increment_category "Sponsor" new_stats = new_stats
  /\ count_of "Owner" (increment_category "Owner" new_stats).(category_counts)
     = S (count_of "Owner" new_stats.(category_counts)).
Proof.
  split.
  - apply (proj1 (proj2 (increment_category_effect "Sponsor" new_stats))).
    reflexivity.
  - apply (proj1 (proj2 (proj2 (increment_category_effect "Owner" new_stats)))).
    reflexivity.
Defined.

Lemma shown_counts_sum (st : ExecutionStats) :
  five_keys st ->
  list_sum (map snd (filter (fun kv => (0 <? snd kv)%nat) st.(category_counts)))
  = category_total st
  /\ Forall (fun kv => 0 < snd kv /\ In (fst kv) five_categories)
       (filter (fun kv => (0 <? snd kv)%nat) st.(category_counts)).
Proof.
  intro Hk. destruct (five_keys_shape st Hk) as [b [o [c [p [x E]]]]].
  unfold category_total. rewrite E. split.
  - destruct b, o, c, p, x; simpl; lia.
  - apply Forall_forall. intros [k v] Hin. apply filter_In in Hin.
    destruct Hin as [Hin Hpos]. apply Nat.ltb_lt in Hpos. split; [exact Hpos |].
    unfold five_categories. simpl in *.
    destruct Hin as [H | [H | [H | [H | [H | []]]]]]; inversion H; subst; auto 6.
Qed.

(** X27.  The report of a run agrees with its output: the categories it
    lists are those with a positive count, they are among the five
    categories and their counts add up to the number of speakers
    processed; the number of e-mails shown is the number of rows; the
    number scanned is the length of the input; no error is shown; the
    warning that no e-mail was generated is shown exactly when there is
    no row. *)
Theorem run_report_consistent (api_key : option string) (speakers : list Speaker)
    (gemini_client : GeminiClient) :
  exists outcome s',
    run api_key speakers gemini_client = (Ok outcome, s')
    /\ forall shown,
         outcome.(report) = Some shown ->
         list_sum (map snd shown.(shown_categories)) = shown.(shown_processed)
         /\ Forall (fun kv => 0 < snd kv /\ In (fst kv) five_categories)
              shown.(shown_categories)
         /\ shown.(shown_emails) = List.length outcome.(valid_results)
         /\ shown.(shown_scanned) = List.length speakers
         /\ shown.(shown_api_errors) = 0
         /\ (shown.(shown_no_emails_warning) = true <-> outcome.(valid_results) = []).
Proof.
  destruct (truthy_key api_key) eqn:Hkey.
  - destruct speakers as [| sp rest].
    + rewrite run_without_speakers. eexists; eexists. split; [reflexivity |].
      intros shown H. discriminate.
    + destruct (run_detail api_key (sp :: rest) gemini_client Hkey)
        as [rs [s' [t' [E B]]]]; [discriminate |].
      destruct (run_with_speakers api_key (sp :: rest) gemini_client Hkey)
        as [out' [s'' [E' [H1 [H2 [H3 _]]]]]]; [discriminate |].
      rewrite E in E'. inversion E'; subst s''. clear E'.
      destruct B as [_ [B2 [B3 [_ [_ [B6 _]]]]]].
      unfold batch_start, stats_of in *. cbn [fst snd stats] in *.
      change (api_errors (set_total_speakers_scanned _ new_stats)) with 0 in B3.
      change (emails_generated (set_total_speakers_scanned _ new_stats)) with 0 in B6.
      eexists; exists s'. split; [exact E |].
      intros shown Hrep. cbn [report] in Hrep. inversion Hrep; subst shown. clear Hrep.
      cbn [shown_categories shown_processed shown_emails shown_scanned
           shown_api_errors shown_no_emails_warning valid_results].
      destruct (shown_counts_sum (stats (fst s')) B2) as [S1 S2].
      split; [rewrite S1; congruence |]. split; [exact S2 |].
      split; [exact B6 |]. split; [exact H1 |]. split; [exact B3 |].
      rewrite B6. destruct (valid_results_of rs); simpl; split; intro H;
        congruence.
  - rewrite run_without_key by trivial. eexists; eexists. split; [reflexivity |].
    intros shown H. discriminate.
Qed.
